(** * go-nebulas: block engine and peer wire protocol

    A shallow embedding of [core/block.go] and [net/p2p/net_service.go],
    together with the properties of the block life cycle and of the wire
    framer that the specification states about them.

    Conventions.  Go's [[]byte] and [byteutils.Hash] are [list byte]; Go's
    [string] is [string]; [uint8]/[uint32]/[uint64]/[int64] values are [Z]
    with the wrap-around of every arithmetic operation written out; a Go
    pointer to a struct that the engine always allocates is the struct
    itself.  Functions that mutate their receiver return the new receiver. *)

From Stdlib Require Import ZArith Lia List Bool String Ascii.
From Stdlib Require Import Init.Byte Strings.Byte.
From stdpp Require Import base decidable countable option list gmap strings sorting.

Open Scope Z_scope.

(** ** Bytes *)

Abbreviation bytes := (list byte).

#[global] Instance byte_eq_dec : EqDecision byte.
Proof.
  intros a b. destruct (N.eq_dec (Byte.to_N a) (Byte.to_N b)) as [e|n].
  - left. apply (f_equal Byte.of_N) in e. rewrite !Byte.of_to_N in e. congruence.
  - right. congruence.
Defined.

#[global] Program Instance byte_countable : Countable byte :=
  inj_countable' Byte.to_N (fun n => default x00 (Byte.of_N n)) _.
Next Obligation. intros b. cbn. now rewrite Byte.of_to_N. Qed.

(** The numeric value of a byte, and the byte of a number (Go's [byte(x)]
    conversion keeps the low eight bits). *)
Definition byte_val (b : byte) : Z := Z.of_N (Byte.to_N b).

Definition byte_of_Z (z : Z) : byte :=
  default x00 (Byte.of_N (Z.to_N (z mod 256))).

(** ** util/byteutils *)

Module byteutils.

(** Big-endian value of a byte sequence. *)
Definition be_value (bs : bytes) : Z :=
  fold_left (fun acc b => acc * 256 + byte_val b) bs 0.

(** The [n] low-order base-256 digits of [v], most significant first. *)
Fixpoint be_digits (n : nat) (v : Z) : bytes :=
  match n with
  | O => []
  | S k => be_digits k (v / 256) ++ [byte_of_Z v]
  end.

(** Modelled from the spec: [byteutils.FromUint32] is not under src/; the
    spec fixes every multi-byte integer on the wire as big-endian and
    fixed-width, so a [uint32] is encoded as four bytes, most significant
    first. *)
Definition FromUint32 (v : Z) : bytes := be_digits 4 (v mod 2 ^ 32).

(** Modelled from the spec: [byteutils.FromUint64] is not under src/; eight
    bytes, big-endian. *)
Definition FromUint64 (v : Z) : bytes := be_digits 8 (v mod 2 ^ 64).

(** Modelled from the spec: [byteutils.FromInt64] is not under src/; the
    [int64] is converted to [uint64] (two's complement, that is, reduced
    modulo 2^64) and encoded as eight big-endian bytes. *)
Definition FromInt64 (v : Z) : bytes := be_digits 8 (v mod 2 ^ 64).

(** Modelled from the spec: [byteutils.Uint32] is not under src/; it reads
    a big-endian [uint32] from the first four bytes of its argument.  Every
    call modelled here passes a four-byte slice of the frame header. *)
Definition Uint32 (data : bytes) : Z := be_value (take 4 data).

(** Modelled from the spec: [byteutils.Equal] and [Hash.Equals] are not
    under src/; they compare two byte sequences for equality. *)
Definition Equal (a b : bytes) : bool := bool_decide (a = b).

End byteutils.

(** ** hash/crc32 (Go standard library)

    [crc32.ChecksumIEEE] in its reference form: the table of the reflected
    IEEE polynomial ([simplePopulateTable]) and the byte-at-a-time update
    ([simpleUpdate]). *)

Module crc32.

Definition IEEE : Z := 0xedb88320.

(** One of the eight inner steps of [simplePopulateTable]. *)
Definition shift_step (crc : Z) : Z :=
  if Z.odd crc then Z.lxor (Z.shiftr crc 1) IEEE else Z.shiftr crc 1.

(** [IEEETable[i]]. *)
Definition table (i : Z) : Z := Nat.iter 8 shift_step i.

(** Go's [^crc] on a [uint32]. *)
Definition not32 (crc : Z) : Z := Z.lxor crc 0xffffffff.

(** The loop body of [simpleUpdate]:
    [crc = tab[byte(crc)^v] ^ (crc >> 8)]. *)
Definition update_byte (crc : Z) (v : byte) : Z :=
  Z.lxor (table (Z.lxor (Z.land crc 255) (byte_val v))) (Z.shiftr crc 8).

Definition Update (crc : Z) (p : bytes) : Z :=
  not32 (fold_left update_byte p (not32 crc)).

Definition ChecksumIEEE (data : bytes) : Z := Update 0 data.

End crc32.

(** The range of a [uint32]. *)
Definition u32 (x : Z) : Prop := 0 <= x < 2 ^ 32.

(** The indices of the table, and two checks on its entries that are
    decided by evaluating the table: an entry is a [uint32], and two
    different entries differ in their top byte. *)
Definition indices : list Z := seqZ 0 256.

Definition entry_in_range (i : Z) : bool :=
  (0 <=? crc32.table i) && (crc32.table i <? 2 ^ 32).

Definition top_byte_differs (i j : Z) : bool :=
  (i =? j) || negb (Z.shiftr (crc32.table i) 24 =? Z.shiftr (crc32.table j) 24).

(** ** net/p2p: the wire framer *)

(** Go's conversion [uint32(x)]. *)
Definition uint32 (x : Z) : Z := x mod 2 ^ 32.

(** Go's conversion [uint64(x)], also the result of every [uint64]
    operation. *)
Definition uint64 (x : Z) : Z := x mod 2 ^ 64.

(** Go's built-in [copy(dst[off:], src)] on a slice of fixed length: it
    overwrites [min (len dst - off) (len src)] bytes and never grows [dst]. *)
Definition copy_at (dst : bytes) (off : nat) (src : bytes) : bytes :=
  let n := Nat.min (length dst - off) (length src) in
  take off dst ++ take n src ++ drop (off + n) dst.

(** Go's slice expression [s[lo:hi]]. *)
Definition slice (s : bytes) (lo hi : nat) : bytes := take (hi - lo) (drop lo s).

(** [bytes.IndexByte]: index of the first occurrence of [c], or -1. *)
Fixpoint IndexByte (s : bytes) (c : byte) : Z :=
  match s with
  | [] => -1
  | b :: t =>
      if decide (b = c) then 0
      else let i := IndexByte t c in if i =? -1 then -1 else i + 1
  end.

Module p2p.

(** Connection states and message names. *)
Definition SNC : Z := -1.
Definition SHandshaking : Z := 0.
Definition SOK : Z := 1.
Definition HELLO : string := "hello".
Definition OK : string := "ok".
Definition BYE : string := "bye".
Definition ClientVersion : string := "0.2.0".
Definition NetworkID : string := "networkid".
Definition NetworkIDReply : string := "renetworkid".

Definition MagicNumber : bytes := [x4e; x45; x42; x31].

Definition offsetFour : nat := 4.
Definition offsetEight : nat := 8.
Definition offsetEleven : nat := 11.
Definition offsetTwelve : nat := 12.
Definition offsetTwentyFour : nat := 24.
Definition offsetTwentyEight : nat := 28.
Definition offsetThirtyTwo : nat := 32.
Definition offsetThirtySix : nat := 36.

Record Protocol := {
  magicNumber : bytes;
  chainID : bytes;
  version : byte;
  msgName : string;
  dataLength : bytes;
  dataChecksum : bytes;
  headerChecksum : bytes;
  dataHeader : bytes;
  data : bytes;
  reserved : bytes
}.

(** The errors of this file.  Go builds each with [errors.New]; one
    constructor per message, and [ErrIO] for what the transport returns. *)
Inductive error :=
| ErrIO                 (* io.EOF / io.ErrUnexpectedEOF / a write error *)
| ErrVerifyHeader       (* "parse protocol, verify header occurs error" *)
| ErrDataChecksum       (* "parse protocol, data verification occurs error,
                            dataChecksum is error" *)
| ErrNotSameNetwork     (* "can not send message, target node is not in the
                            same network" *)
| ErrStreamNotExist     (* "handleSyncRouteMsg occrus error, stream does not
                            exist" *)
| ErrWriterNil.         (* "write data occurs error, write is nil" *)

(** The part of the node that the framer reads: [node.Config().ChainID]
    and [node.version]. *)
Record FramerConfig := {
  ChainID : Z;       (* uint32 *)
  nodeVersion : byte
}.

(** [ReadBytes(reader, n)]: [io.ReadFull] into a fresh buffer of [n]
    bytes.  The reader is the sequence of bytes the stream still delivers;
    when fewer than [n] remain the read fails and the buffer keeps the
    bytes read so far, zero padded.  Returns the buffer, the error and the
    rest of the stream. *)
Definition ReadBytes (reader : bytes) (n : Z) : bytes * option error * bytes :=
  let k := Z.to_nat n in
  if decide (k <= length reader)%nat
  then (take k reader, None, drop k reader)
  else (reader ++ replicate (k - length reader) x00, Some ErrIO, []).

(** [buildHeader] *)
Definition buildHeader (chainID : Z) (msgName : string) (version : byte)
    (dataLength dataChecksum : Z) (reserved : bytes) : bytes :=
  let metaHeader := replicate offsetThirtyTwo x00 in
  let msgNameByte := list_byte_of_string msgName in
  let metaHeader := copy_at metaHeader 0 MagicNumber in
  let metaHeader := copy_at metaHeader offsetFour (byteutils.FromUint32 chainID) in
  let metaHeader := copy_at metaHeader offsetEight reserved in
  let metaHeader := copy_at metaHeader offsetEleven [version] in
  let metaHeader := copy_at metaHeader offsetTwelve msgNameByte in
  let metaHeader :=
    copy_at metaHeader offsetTwentyFour (byteutils.FromUint32 dataLength) in
  let metaHeader :=
    copy_at metaHeader offsetTwentyEight (byteutils.FromUint32 dataChecksum) in
  metaHeader.

(** [NetService.buildData] *)
Definition buildData (cfg : FramerConfig) (data : bytes) (msgName : string) : bytes :=
  let dataChecksum := crc32.ChecksumIEEE data in
  let reserved := [x00] in
  let metaHeader :=
    buildHeader (ChainID cfg) msgName (nodeVersion cfg)
      (uint32 (Z.of_nat (length data))) dataChecksum reserved in
  let headerChecksum := crc32.ChecksumIEEE metaHeader in
  let metaHeader := metaHeader ++ byteutils.FromUint32 headerChecksum in
  metaHeader ++ data.

(** [NetService.verifyHeader] *)
Definition verifyHeader (cfg : FramerConfig) (protocol : Protocol) : bool :=
  let dataHeaderChecksum := crc32.ChecksumIEEE (dataHeader protocol) in
  if negb (byteutils.Equal MagicNumber (magicNumber protocol)) then false
  else if negb (ChainID cfg =? byteutils.Uint32 (chainID protocol)) then false
  else if negb (bool_decide (nodeVersion cfg = version protocol)) then false
  else if negb (dataHeaderChecksum =? byteutils.Uint32 (headerChecksum protocol))
  then false
  else true.

(** [NetService.parse], reading from the bytes the stream delivers and
    returning what is left of them. *)
Definition parse (cfg : FramerConfig) (s : bytes) : (Protocol + error) * bytes :=
  match ReadBytes s (Z.of_nat offsetThirtySix) with
  | (_, Some err, s) => (inr err, s)
  | (header, None, s) =>
      let msgNameBytes := slice header offsetTwelve offsetTwentyFour in
      let index := IndexByte msgNameBytes x00 in
      let name :=
        if negb (index =? -1)
        then string_of_list_byte (slice msgNameBytes 0 (Z.to_nat index))
        else string_of_list_byte msgNameBytes in
      let protocol := {|
        magicNumber := slice header 0 offsetFour;
        chainID := slice header offsetFour offsetEight;
        reserved := slice header offsetEight offsetEleven;
        version := default x00 (header !! offsetEleven);
        msgName := name;
        dataLength := slice header offsetTwentyFour offsetTwentyEight;
        dataChecksum := slice header offsetTwentyEight offsetThirtyTwo;
        dataHeader := slice header 0 offsetThirtyTwo;
        headerChecksum := slice header offsetThirtyTwo offsetThirtySix;
        data := []
      |} in
      if negb (verifyHeader cfg protocol) then (inr ErrVerifyHeader, s)
      else
        match ReadBytes s (byteutils.Uint32 (dataLength protocol)) with
        | (_, Some err, s) => (inr err, s)
        | (payload, None, s) =>
            let protocol := {|
              magicNumber := magicNumber protocol;
              chainID := chainID protocol;
              reserved := reserved protocol;
              version := version protocol;
              msgName := msgName protocol;
              dataLength := dataLength protocol;
              dataChecksum := dataChecksum protocol;
              dataHeader := dataHeader protocol;
              headerChecksum := headerChecksum protocol;
              data := payload
            |} in
            let dataChecksumA := crc32.ChecksumIEEE payload in
            if negb (dataChecksumA =? byteutils.Uint32 (dataChecksum protocol))
            then (inr ErrDataChecksum, s)
            else (inl protocol, s)
        end
  end.

(** *** Frames as the specification speaks of them *)

(** A message name that fits the twelve-byte name field of the header. *)
Definition wire_name (name : string) : Prop :=
  (length (list_byte_of_string name) <= 12)%nat /\
  ~ In x00 (list_byte_of_string name).

Definition name_field (name : string) : bytes :=
  list_byte_of_string name ++
  replicate (12 - length (list_byte_of_string name)) x00.

(** The 32-byte header that [buildData] builds for a payload, and the
    protocol record that [parse] is expected to return for it. *)
Definition header_of (cfg : FramerConfig) (D : bytes) (name : string) : bytes :=
  buildHeader (ChainID cfg) name (nodeVersion cfg)
    (uint32 (Z.of_nat (length D))) (crc32.ChecksumIEEE D) [x00].

Definition parsed (cfg : FramerConfig) (D : bytes) (name : string)
    (payload : bytes) : Protocol := {|
  magicNumber := MagicNumber;
  chainID := byteutils.FromUint32 (ChainID cfg);
  version := nodeVersion cfg;
  msgName := name;
  dataLength := byteutils.FromUint32 (uint32 (Z.of_nat (length D)));
  dataChecksum := byteutils.FromUint32 (crc32.ChecksumIEEE D);
  headerChecksum := byteutils.FromUint32 (crc32.ChecksumIEEE (header_of cfg D name));
  dataHeader := header_of cfg D name;
  data := payload;
  reserved := [x00; x00; x00]
|}.

(** The round trip the wire format promises for one frame. *)
Definition roundtrip (cfg : FramerConfig) (D : bytes) (name : string) : Prop :=
  exists p, parse cfg (buildData cfg D name) = (inl p, []) /\
            msgName p = name /\ data p = D.

End p2p.

(** ** core: the block engine *)

(** Go's conversion [int64(x)] (two's complement). *)
Definition int64 (x : Z) : Z := (x + 2 ^ 63) mod 2 ^ 64 - 2 ^ 63.

Module core.

(** The error values of package [core] and [storage] that [block.go] returns
    or tests. *)
Inductive error :=
| ErrDuplicatedTransaction
| ErrSmallTransactionNonce
| ErrLargeTransactionNonce
| ErrDoubleSealBlock
| ErrLinkToWrongParentBlock
| ErrCloneAccountState
| ErrCloneTxsState
| ErrCloneEventsState
| ErrGenerateNextDynastyContext
| ErrLoadNextDynastyContext
| ErrInvalidBlockStateRoot
| ErrInvalidBlockTxsRoot
| ErrInvalidBlockEventsRoot
| ErrInvalidBlockDposContextRoot
| ErrKeyNotFound                 (* storage.ErrKeyNotFound *)
| ErrOther (msg : string).       (* an error of a collaborator *)

#[global] Instance error_eq_dec : EqDecision error.
Proof. solve_decision. Defined.

Record Address := { address : bytes }.

(** [Address.Bytes] *)
Definition Bytes (a : Address) : bytes := address a.

(** The payload types that [triggerEvent] switches on; [TxPayloadOther]
    stands for any other value of [Transaction.Type()]. *)
Inductive TxPayloadType :=
| TxPayloadBinaryType
| TxPayloadDeployType
| TxPayloadCallType
| TxPayloadDelegateType
| TxPayloadCandidateType
| TxPayloadOther (name : string).

(** The fields of [Transaction] that [block.go] reads: [hash], [from],
    [nonce] and the payload type that [Type()] returns. *)
Record Transaction := {
  tx_hash : bytes;
  tx_from : Address;
  tx_nonce : Z;                  (* uint64 *)
  tx_type : TxPayloadType
}.

(** [Event] *)
Record Event := { Topic : string; Data : string }.

Definition TopicSendTransaction : string := "chain.sendTransaction".
Definition TopicDeploySmartContract : string := "chain.deployContract".
Definition TopicCallSmartContract : string := "chain.callContract".
Definition TopicDelegate : string := "chain.delegate".
Definition TopicCandidate : string := "chain.candidate".
Definition TopicLinkBlock : string := "chain.linkBlock".

(** [corepb.DposContext]: the six sub-roots carried by the header. *)
Record pbDposContext := {
  DynastyRoot : bytes;
  NextDynastyRoot : bytes;
  DelegateRoot : bytes;
  VoteRoot : bytes;
  CandidateRoot : bytes;
  MintCntRoot : bytes
}.

(** [BlockHeader] *)
Record BlockHeader := {
  hash : bytes;
  parentHash : bytes;
  stateRoot : bytes;
  txsRoot : bytes;
  eventsRoot : bytes;
  dposContext : pbDposContext;
  coinbase : Address;
  nonce : Z;                     (* uint64 *)
  timestamp : Z;                 (* int64 *)
  chainID : Z;                   (* uint32 *)
  alg : Z;                       (* uint8 *)
  sign : bytes
}.

(** *** Overlays *)

(** Modelled from the spec: [trie.BatchTrie], [state.AccountState] and
    [DposContext] are not under src/.  The spec (4.1, 4.2) gives an overlay
    the batch triplet: between [begin_batch] and [commit] mutations are
    staged, [rollback] discards them, a nested [begin_batch] is rejected,
    and [root_hash] during a batch reflects the staged state.  An overlay
    is its current contents together with the contents saved by the open
    batch, if one is open. *)
Record Batch (A : Type) := { content : A; saved : option A }.
Arguments content {A} _.
Arguments saved {A} _.

(** Modelled from the spec: [BeginBatch] opens a batch by saving the current
    contents; with a batch already open the call is rejected and changes
    nothing. *)
Definition BeginBatch {A} (t : Batch A) : Batch A :=
  match saved t with
  | Some _ => t
  | None => {| content := content t; saved := Some (content t) |}
  end.

(** Modelled from the spec: [Commit] keeps the staged contents and closes
    the batch. *)
Definition Commit {A} (t : Batch A) : Batch A :=
  {| content := content t; saved := None |}.

(** Modelled from the spec: [RollBack] discards what was staged, going back
    to the saved contents, and closes the batch. *)
Definition RollBack {A} (t : Batch A) : Batch A :=
  match saved t with
  | Some old => {| content := old; saved := None |}
  | None => t
  end.

(** Modelled from the spec: a mutation changes the current contents; it is
    staged when a batch is open. *)
Definition stage {A} (f : A -> A) (t : Batch A) : Batch A :=
  {| content := f (content t); saved := saved t |}.

Abbreviation TrieData := (gmap bytes bytes).
Abbreviation BatchTrie := (Batch TrieData).

(** Modelled from the spec: [Put] and [Get] of the overlay trie; [Get] of a
    key that is not there is [storage.ErrKeyNotFound]. *)
Definition Put (key value : bytes) (t : BatchTrie) : BatchTrie :=
  stage (fun m => <[key := value]> m) t.

Definition Get (key : bytes) (t : BatchTrie) : bytes + error :=
  match content t !! key with
  | Some v => inl v
  | None => inr ErrKeyNotFound
  end.

(** Modelled from the spec: [Prove] returns a Merkle proof exactly for the
    keys the trie holds; only whether the proof is [nil] is observed. *)
Definition Prove (key : bytes) (t : BatchTrie) : bool :=
  bool_decide (is_Some (content t !! key)).

Fixpoint is_prefix (p s : bytes) : bool :=
  match p, s with
  | [], _ => true
  | _ :: _, [] => false
  | a :: p', b :: s' => bool_decide (a = b) && is_prefix p' s'
  end.

(** Lexicographic order on keys: the order in which a trie is walked. *)
Fixpoint key_le (a b : bytes) : bool :=
  match a, b with
  | [], _ => true
  | _ :: _, [] => false
  | x :: a', y :: b' =>
      if bool_decide (x = y) then key_le a' b' else byte_val x <? byte_val y
  end.

Definition entry_le (x y : bytes * bytes) : Prop := key_le (fst x) (fst y) = true.

#[global] Instance entry_le_dec (x y : bytes * bytes) : Decision (entry_le x y).
Proof. unfold entry_le. apply _. Defined.

(** Modelled from the spec: [Iterator(prefix)] walks the values stored under
    the keys that start with [prefix], in key order; it returns
    [ErrKeyNotFound] when there is none. *)
Definition Iterator (prefix : bytes) (t : BatchTrie) : list bytes + error :=
  let entries :=
    filter (fun kv => is_prefix prefix (fst kv) = true) (map_to_list (content t)) in
  match merge_sort entry_le entries with
  | [] => inr ErrKeyNotFound
  | sorted => inl (map snd sorted)
  end.

(** Modelled from the spec: an account has a [Uint128] balance and a
    [uint64] nonce. *)
Record Account := {
  balance : Z;                   (* Uint128 *)
  acc_nonce : Z                  (* uint64 *)
}.

Abbreviation AccountData := (gmap bytes Account).
Abbreviation AccountState := (Batch AccountData).

Definition newAccount : Account := {| balance := 0; acc_nonce := 0 |}.

(** Modelled from the spec: [GetOrCreateUserAccount] returns the account of
    [addr], created empty when the state has none. *)
Definition GetOrCreateUserAccount (addr : bytes) (st : AccountState)
  : Account * AccountState :=
  match content st !! addr with
  | Some acc => (acc, st)
  | None => (newAccount, stage (fun m => <[addr := newAccount]> m) st)
  end.

(** Modelled from the spec: the write-back of an account handle that
    [AddBalance] or [IncrNonce] has changed. *)
Definition storeAccount (addr : bytes) (acc : Account) (st : AccountState)
  : AccountState :=
  stage (fun m => <[addr := acc]> m) st.

(** [BlockReward]: 48 * 10^16. *)
Definition BlockReward : Z := 48 * 10 ^ 16.

(** Modelled from the spec: [AddBalance] adds to the [Uint128] balance. *)
Definition AddBalance (v : Z) (acc : Account) : Account :=
  {| balance := (balance acc + v) mod 2 ^ 128; acc_nonce := acc_nonce acc |}.

(** Modelled from the spec: [IncrNonce] is [nonce++] on a [uint64]. *)
Definition IncrNonce (acc : Account) : Account :=
  {| balance := balance acc; acc_nonce := uint64 (acc_nonce acc + 1) |}.

(** Modelled from the spec: the DPoS context holds six overlay tries. *)
Record DposContext := {
  dynastyTrie : BatchTrie;
  nextDynastyTrie : BatchTrie;
  delegateTrie : BatchTrie;
  voteTrie : BatchTrie;
  candidateTrie : BatchTrie;
  mintCntTrie : BatchTrie
}.

Definition mapDpos (f : BatchTrie -> BatchTrie) (c : DposContext) : DposContext := {|
  dynastyTrie := f (dynastyTrie c);
  nextDynastyTrie := f (nextDynastyTrie c);
  delegateTrie := f (delegateTrie c);
  voteTrie := f (voteTrie c);
  candidateTrie := f (candidateTrie c);
  mintCntTrie := f (mintCntTrie c)
|}.

Definition with_mintCntTrie (t : BatchTrie) (c : DposContext) : DposContext := {|
  dynastyTrie := dynastyTrie c;
  nextDynastyTrie := nextDynastyTrie c;
  delegateTrie := delegateTrie c;
  voteTrie := voteTrie c;
  candidateTrie := candidateTrie c;
  mintCntTrie := t
|}.

Set Warnings "-register-all".

(** The block.  [txPool], [storage] and [eventEmitter] are references to
    objects shared with other blocks: the block holds their identity, their
    state is passed to the functions that use them.  [miner] is [nil] until
    [SetMiner] is called. *)
Inductive Block := mkBlock {
  header : BlockHeader;
  transactions : list Transaction;
  sealed : bool;
  height : Z;                    (* uint64 *)
  parenetBlock : option Block;
  accState : AccountState;
  txsTrie : BatchTrie;
  eventsTrie : BatchTrie;
  dposCtx : DposContext;         (* the field [dposContext] of [Block] *)
  txPool : positive;
  miner : option Address;
  storage : positive;
  eventEmitter : positive
}.

(** Assignment to one field of a header ([set_]) or of a block ([with_]). *)

Definition set_hash (v : bytes) (h : BlockHeader) : BlockHeader :=
  Build_BlockHeader v (parentHash h) (stateRoot h) (txsRoot h) (eventsRoot h)
    (dposContext h) (coinbase h) (nonce h) (timestamp h) (chainID h) (alg h)
    (sign h).

Definition set_stateRoot (v : bytes) (h : BlockHeader) : BlockHeader :=
  Build_BlockHeader (hash h) (parentHash h) v (txsRoot h) (eventsRoot h)
    (dposContext h) (coinbase h) (nonce h) (timestamp h) (chainID h) (alg h)
    (sign h).

Definition set_txsRoot (v : bytes) (h : BlockHeader) : BlockHeader :=
  Build_BlockHeader (hash h) (parentHash h) (stateRoot h) v (eventsRoot h)
    (dposContext h) (coinbase h) (nonce h) (timestamp h) (chainID h) (alg h)
    (sign h).

Definition set_eventsRoot (v : bytes) (h : BlockHeader) : BlockHeader :=
  Build_BlockHeader (hash h) (parentHash h) (stateRoot h) (txsRoot h) v
    (dposContext h) (coinbase h) (nonce h) (timestamp h) (chainID h) (alg h)
    (sign h).

Definition set_dposContext (v : pbDposContext) (h : BlockHeader) : BlockHeader :=
  Build_BlockHeader (hash h) (parentHash h) (stateRoot h) (txsRoot h)
    (eventsRoot h) v (coinbase h) (nonce h) (timestamp h) (chainID h) (alg h)
    (sign h).

Definition set_nonce (v : Z) (h : BlockHeader) : BlockHeader :=
  Build_BlockHeader (hash h) (parentHash h) (stateRoot h) (txsRoot h)
    (eventsRoot h) (dposContext h) (coinbase h) v (timestamp h) (chainID h)
    (alg h) (sign h).

Definition set_timestamp (v : Z) (h : BlockHeader) : BlockHeader :=
  Build_BlockHeader (hash h) (parentHash h) (stateRoot h) (txsRoot h)
    (eventsRoot h) (dposContext h) (coinbase h) (nonce h) v (chainID h) (alg
    h) (sign h).

Definition with_header (v : BlockHeader) (b : Block) : Block :=
  mkBlock v (transactions b) (sealed b) (height b) (parenetBlock b) (accState
    b) (txsTrie b) (eventsTrie b) (dposCtx b) (txPool b) (miner b) (storage b)
    (eventEmitter b).

Definition with_transactions (v : list Transaction) (b : Block) : Block :=
  mkBlock (header b) v (sealed b) (height b) (parenetBlock b) (accState b)
    (txsTrie b) (eventsTrie b) (dposCtx b) (txPool b) (miner b) (storage b)
    (eventEmitter b).

Definition with_sealed (v : bool) (b : Block) : Block :=
  mkBlock (header b) (transactions b) v (height b) (parenetBlock b) (accState
    b) (txsTrie b) (eventsTrie b) (dposCtx b) (txPool b) (miner b) (storage b)
    (eventEmitter b).

Definition with_height (v : Z) (b : Block) : Block :=
  mkBlock (header b) (transactions b) (sealed b) v (parenetBlock b) (accState
    b) (txsTrie b) (eventsTrie b) (dposCtx b) (txPool b) (miner b) (storage b)
    (eventEmitter b).

Definition with_parenetBlock (v : option Block) (b : Block) : Block :=
  mkBlock (header b) (transactions b) (sealed b) (height b) v (accState b)
    (txsTrie b) (eventsTrie b) (dposCtx b) (txPool b) (miner b) (storage b)
    (eventEmitter b).

Definition with_accState (v : AccountState) (b : Block) : Block :=
  mkBlock (header b) (transactions b) (sealed b) (height b) (parenetBlock b) v
    (txsTrie b) (eventsTrie b) (dposCtx b) (txPool b) (miner b) (storage b)
    (eventEmitter b).

Definition with_txsTrie (v : BatchTrie) (b : Block) : Block :=
  mkBlock (header b) (transactions b) (sealed b) (height b) (parenetBlock b)
    (accState b) v (eventsTrie b) (dposCtx b) (txPool b) (miner b) (storage b)
    (eventEmitter b).

Definition with_eventsTrie (v : BatchTrie) (b : Block) : Block :=
  mkBlock (header b) (transactions b) (sealed b) (height b) (parenetBlock b)
    (accState b) (txsTrie b) v (dposCtx b) (txPool b) (miner b) (storage b)
    (eventEmitter b).

Definition with_dposCtx (v : DposContext) (b : Block) : Block :=
  mkBlock (header b) (transactions b) (sealed b) (height b) (parenetBlock b)
    (accState b) (txsTrie b) (eventsTrie b) v (txPool b) (miner b) (storage b)
    (eventEmitter b).

Definition with_txPool (v : positive) (b : Block) : Block :=
  mkBlock (header b) (transactions b) (sealed b) (height b) (parenetBlock b)
    (accState b) (txsTrie b) (eventsTrie b) (dposCtx b) v (miner b) (storage
    b) (eventEmitter b).

Definition with_miner (v : option Address) (b : Block) : Block :=
  mkBlock (header b) (transactions b) (sealed b) (height b) (parenetBlock b)
    (accState b) (txsTrie b) (eventsTrie b) (dposCtx b) (txPool b) v (storage
    b) (eventEmitter b).

Definition with_storage (v : positive) (b : Block) : Block :=
  mkBlock (header b) (transactions b) (sealed b) (height b) (parenetBlock b)
    (accState b) (txsTrie b) (eventsTrie b) (dposCtx b) (txPool b) (miner b) v
    (eventEmitter b).

Definition with_eventEmitter (v : positive) (b : Block) : Block :=
  mkBlock (header b) (transactions b) (sealed b) (height b) (parenetBlock b)
    (accState b) (txsTrie b) (eventsTrie b) (dposCtx b) (txPool b) (miner b)
    (storage b) v.

(** *** Collaborators

    The engine calls code that is not part of [block.go]: the SHA3-256
    implementation, the Merkle root of an overlay, the protobuf and JSON
    codecs, the executor behind [Transaction.VerifyExecution], and the DPoS
    methods of [Block] defined with the consensus.  Each is an interface. *)

Class Hasher := { sha3_256 : bytes -> bytes }.

Class Merkle := {
  trieRoot : TrieData -> bytes;
  accountRoot : AccountData -> bytes
}.

(** The current contents of the four overlays of a block: what the executor
    reads and writes through the block. *)
Record Contents := {
  c_accounts : AccountData;
  c_txs : TrieData;
  c_events : TrieData;
  c_dynasty : TrieData;
  c_nextDynasty : TrieData;
  c_delegate : TrieData;
  c_vote : TrieData;
  c_candidate : TrieData;
  c_mintCnt : TrieData
}.

Class Executor := {
  (** [tx.VerifyExecution(block)]: runs the payload against the block; it may
      have changed the overlays when it fails. *)
  tx_VerifyExecution : Transaction -> Contents -> Contents * option error
}.

Class Codec := {
  (** [tx.ToProto] followed by [proto.Marshal]. *)
  tx_Marshal : Transaction -> bytes + error;
  json_Marshal_tx : Transaction -> string;
  json_Marshal_block : Block -> string;
  json_Marshal_event : Event -> bytes + error;
  json_Unmarshal_event : bytes -> Event + error
}.

Class Dynasty := {
  DynastyContext : Type;
  (** [DynastyInterval], an [int64] constant of the consensus. *)
  DynastyInterval : Z;
  (** [AccountState.Clone] and [BatchTrie.Clone]: the clone and the error. *)
  acc_Clone : AccountState -> AccountState * option error;
  trie_Clone : BatchTrie -> BatchTrie * option error;
  dpos_Clone : DposContext -> DposContext * option error;
  (** [parentBlock.NextDynastyContext(elapsedSecond)]. *)
  NextDynastyContext : Block -> Z -> DynastyContext + error;
  (** [block.LoadDynastyContext(context)]: the block after the call and the
      error. *)
  LoadDynastyContext : Block -> DynastyContext -> Block * option error
}.

(** [TransactionPool], by its interface: [Pop] removes one transaction of a
    pool that is not empty. *)
Class TxPool (P : Type) := {
  pool_Empty : P -> bool;
  pool_Pop : P -> Transaction * P;
  pool_Push : Transaction -> P -> P * option error;
  pool_size : P -> nat;
  pool_Pop_size : forall p,
    pool_Empty p = false -> (pool_size (snd (pool_Pop p)) < pool_size p)%nat
}.

(** A line logged at error level. *)
Record LogEntry := { logError : string }.

Section Engine.

Context `{Hasher} `{Merkle} `{Executor} `{Codec} `{Dynasty}.
Context {P : Type} `{TxPool P}.

(** [sha3.New256], [Write] and [Sum(nil)]: the state of the hasher is the
    input absorbed so far. *)
Definition New256 : bytes := [].
Definition Write (hasher p : bytes) : bytes := hasher ++ p.
Definition Sum (hasher : bytes) : bytes := sha3_256 hasher.

Definition RootHash (t : BatchTrie) : bytes := trieRoot (content t).

Definition acc_RootHash (st : AccountState) : bytes := accountRoot (content st).

(** Modelled from the spec: [DposContext.ToProto] is not under src/; it
    serialises the six sub-roots of the context. *)
Definition dpos_ToProto (c : DposContext) : pbDposContext := {|
  DynastyRoot := RootHash (dynastyTrie c);
  NextDynastyRoot := RootHash (nextDynastyTrie c);
  DelegateRoot := RootHash (delegateTrie c);
  VoteRoot := RootHash (voteTrie c);
  CandidateRoot := RootHash (candidateTrie c);
  MintCntRoot := RootHash (mintCntTrie c)
|}.

(** Modelled from the spec: [DposContext.RootHash] is not under src/; the
    DPoS context hash is the SHA3-256 digest of the six sub-roots. *)
Definition dpos_RootHash (c : DposContext) : bytes :=
  sha3_256 (RootHash (dynastyTrie c) ++ RootHash (nextDynastyTrie c) ++
            RootHash (delegateTrie c) ++ RootHash (voteTrie c) ++
            RootHash (candidateTrie c) ++ RootHash (mintCntTrie c)).

Definition ChainID (block : Block) : Z := chainID (header block).
Definition Coinbase (block : Block) : Address := coinbase (header block).
Definition Nonce (block : Block) : Z := nonce (header block).
Definition Timestamp (block : Block) : Z := timestamp (header block).
Definition Hash (block : Block) : bytes := hash (header block).
Definition StateRoot (block : Block) : bytes := stateRoot (header block).
Definition TxsRoot (block : Block) : bytes := txsRoot (header block).
Definition EventsRoot (block : Block) : bytes := eventsRoot (header block).
Definition ParentHash (block : Block) : bytes := parentHash (header block).
Definition Height (block : Block) : Z := height block.
Definition Miner (block : Block) : option Address := miner block.
Definition Sealed (block : Block) : bool := sealed block.

Definition sealedDiagnostic : LogEntry :=
  {| logError := "Sealed block can't be changed." |}.

(** [Block.SetNonce] *)
Definition SetNonce (v : Z) (block : Block) : Block * list LogEntry :=
  if sealed block then (block, [sealedDiagnostic])
  else (with_header (set_nonce v (header block)) block, []).

(** [Block.SetTimestamp] *)
Definition SetTimestamp (v : Z) (block : Block) : Block * list LogEntry :=
  if sealed block then (block, [sealedDiagnostic])
  else (with_header (set_timestamp v (header block)) block, []).

(** [Block.SetMiner] *)
Definition SetMiner (v : option Address) (block : Block) : Block :=
  with_miner v block.

(** [Block.DposContextHash] *)
Definition DposContextHash (block : Block) : bytes :=
  let hasher := New256 in
  let hasher := Write hasher (DynastyRoot (dposContext (header block))) in
  let hasher := Write hasher (NextDynastyRoot (dposContext (header block))) in
  let hasher := Write hasher (DelegateRoot (dposContext (header block))) in
  let hasher := Write hasher (VoteRoot (dposContext (header block))) in
  let hasher := Write hasher (CandidateRoot (dposContext (header block))) in
  let hasher := Write hasher (MintCntRoot (dposContext (header block))) in
  Sum hasher.

(** [HashBlock] *)
Definition HashBlock (block : Block) : bytes :=
  let hasher := New256 in
  let hasher := Write hasher (ParentHash block) in
  let hasher := Write hasher (StateRoot block) in
  let hasher := Write hasher (TxsRoot block) in
  let hasher := Write hasher (EventsRoot block) in
  let hasher := Write hasher (DposContextHash block) in
  let hasher := Write hasher (byteutils.FromUint64 (nonce (header block))) in
  let hasher := Write hasher (address (coinbase (header block))) in
  let hasher := Write hasher (byteutils.FromInt64 (timestamp (header block))) in
  let hasher := Write hasher (byteutils.FromUint32 (chainID (header block))) in
  let hasher :=
    fold_left (fun hasher tx => Write hasher (tx_hash tx))
      (transactions block) hasher in
  Sum hasher.

(** [Block.LinkParentBlock] *)
Definition LinkParentBlock (block parentBlock : Block) : Block * option error :=
  if negb (byteutils.Equal (ParentHash block) (Hash parentBlock))
  then (block, Some ErrLinkToWrongParentBlock)
  else
    let '(st, err) := acc_Clone (accState parentBlock) in
    let block := with_accState st block in
    match err with
    | Some _ => (block, Some ErrCloneAccountState)
    | None =>
    let '(t, err) := trie_Clone (txsTrie parentBlock) in
    let block := with_txsTrie t block in
    match err with
    | Some _ => (block, Some ErrCloneTxsState)
    | None =>
    let '(t, err) := trie_Clone (eventsTrie parentBlock) in
    let block := with_eventsTrie t block in
    match err with
    | Some _ => (block, Some ErrCloneEventsState)
    | None =>
    let elapsedSecond := int64 (Timestamp block - Timestamp parentBlock) in
    match NextDynastyContext parentBlock elapsedSecond with
    | inr _ => (block, Some ErrGenerateNextDynastyContext)
    | inl context =>
        match LoadDynastyContext block context with
        | (block, Some _) => (block, Some ErrLoadNextDynastyContext)
        | (block, None) =>
            let block := with_txPool (txPool parentBlock) block in
            let block := with_parenetBlock (Some parentBlock) block in
            let block := with_storage (storage parentBlock) block in
            let block := with_height (uint64 (height parentBlock + 1)) block in
            let block := with_eventEmitter (eventEmitter parentBlock) block in
            (block, None)
        end
    end end end end.

(** [Block.begin], [Block.commit], [Block.rollback] *)
Definition begin (block : Block) : Block :=
  let block := with_accState (BeginBatch (accState block)) block in
  let block := with_txsTrie (BeginBatch (txsTrie block)) block in
  let block := with_eventsTrie (BeginBatch (eventsTrie block)) block in
  with_dposCtx (mapDpos BeginBatch (dposCtx block)) block.

Definition commit (block : Block) : Block :=
  let block := with_accState (Commit (accState block)) block in
  let block := with_txsTrie (Commit (txsTrie block)) block in
  let block := with_eventsTrie (Commit (eventsTrie block)) block in
  with_dposCtx (mapDpos Commit (dposCtx block)) block.

Definition rollback (block : Block) : Block :=
  let block := with_accState (RollBack (accState block)) block in
  let block := with_txsTrie (RollBack (txsTrie block)) block in
  let block := with_eventsTrie (RollBack (eventsTrie block)) block in
  with_dposCtx (mapDpos RollBack (dposCtx block)) block.

(** The view of the block that the executor works on, and its write-back:
    the executor changes the current contents of the overlays and has no
    access to their batch state. *)
Definition contents (block : Block) : Contents := {|
  c_accounts := content (accState block);
  c_txs := content (txsTrie block);
  c_events := content (eventsTrie block);
  c_dynasty := content (dynastyTrie (dposCtx block));
  c_nextDynasty := content (nextDynastyTrie (dposCtx block));
  c_delegate := content (delegateTrie (dposCtx block));
  c_vote := content (voteTrie (dposCtx block));
  c_candidate := content (candidateTrie (dposCtx block));
  c_mintCnt := content (mintCntTrie (dposCtx block))
|}.

Definition install (c : Contents) (block : Block) : Block :=
  let block := with_accState (stage (fun _ => c_accounts c) (accState block)) block in
  let block := with_txsTrie (stage (fun _ => c_txs c) (txsTrie block)) block in
  let block := with_eventsTrie (stage (fun _ => c_events c) (eventsTrie block)) block in
  let d := dposCtx block in
  with_dposCtx {|
    dynastyTrie := stage (fun _ => c_dynasty c) (dynastyTrie d);
    nextDynastyTrie := stage (fun _ => c_nextDynasty c) (nextDynastyTrie d);
    delegateTrie := stage (fun _ => c_delegate c) (delegateTrie d);
    voteTrie := stage (fun _ => c_vote c) (voteTrie d);
    candidateTrie := stage (fun _ => c_candidate c) (candidateTrie d);
    mintCntTrie := stage (fun _ => c_mintCnt c) (mintCntTrie d)
  |} block.

(** Modelled from the spec: [byteutils.Int64] is not under src/; it reads a
    big-endian [int64] from the first eight bytes. *)
Definition Int64 (data : bytes) : Z := int64 (byteutils.be_value (take 8 data)).

(** [Block.recordMintCnt].  [None] is the run-time panic of the nil
    [block.miner] or of a zero [DynastyInterval]. *)
Definition recordMintCnt (block : Block) : option (Block * option error) :=
  if DynastyInterval =? 0 then None else
  match miner block with
  | None => None
  | Some m =>
      let key :=
        byteutils.FromInt64 (int64 (Z.quot (Timestamp block) DynastyInterval))
        ++ Bytes m in
      let trie := mintCntTrie (dposCtx block) in
      let store (cnt : Z) :=
        let cnt := int64 (cnt + 1) in
        let trie := Put key (byteutils.FromInt64 cnt) trie in
        Some (with_dposCtx (with_mintCntTrie trie (dposCtx block)) block, None) in
      match Get key trie with
      | inl data => store (Int64 data)
      | inr err =>
          if decide (err = ErrKeyNotFound) then store 0
          else Some (block, Some err)
      end
  end.

(** [Block.rewardCoinbase] *)
Definition rewardCoinbase (block : Block) : Block :=
  let coinbaseAddr := address (coinbase (header block)) in
  let '(coinbaseAcc, st) := GetOrCreateUserAccount coinbaseAddr (accState block) in
  with_accState (storeAccount coinbaseAddr (AddBalance BlockReward coinbaseAcc) st)
    block.

(** [Block.recordEvent] *)
Definition recordEvent (txHash : bytes) (event : Event) (block : Block)
  : Block * option error :=
  let store (cnt : Z) :=
    let cnt := int64 (cnt + 1) in
    let key := txHash ++ byteutils.FromInt64 cnt in
    match json_Marshal_event event with
    | inr err => (block, Some err)
    | inl data => (with_eventsTrie (Put key data (eventsTrie block)) block, None)
    end in
  match Iterator txHash (eventsTrie block) with
  | inl values => store (Z.of_nat (length values))
  | inr err =>
      if decide (err = ErrKeyNotFound) then store 0 else (block, Some err)
  end.

(** [Block.RecordEvent] *)
Definition RecordEvent (txHash : bytes) (topic data : string) (block : Block)
  : Block * option error :=
  recordEvent txHash {| Topic := topic; Data := data |} block.

(** The loop of [FetchEvents] over the iterator. *)
Fixpoint decodeEvents (values : list bytes) (events : list Event)
  : list Event * option error :=
  match values with
  | [] => (events, None)
  | v :: rest =>
      match json_Unmarshal_event v with
      | inr err => ([], Some err)
      | inl event => decodeEvents rest (events ++ [event])
      end
  end.

(** [Block.FetchEvents]; a [nil] slice is the empty list. *)
Definition FetchEvents (txHash : bytes) (block : Block) : list Event * option error :=
  match Iterator txHash (eventsTrie block) with
  | inr err =>
      if decide (err = ErrKeyNotFound) then ([], None) else ([], Some err)
  | inl values => decodeEvents values []
  end.

(** [EventEmitter.Trigger]: the emitter is the sequence of events published
    to the subscribers so far. *)
Definition Trigger (e : Event) (emitter : list Event) : list Event :=
  emitter ++ [e].

(** [Block.triggerEvent] *)
Definition triggerEvent (block : Block) (emitter : list Event) : list Event :=
  let emitter :=
    fold_left (fun emitter v =>
      let topic :=
        match tx_type v with
        | TxPayloadBinaryType => TopicSendTransaction
        | TxPayloadDeployType => TopicDeploySmartContract
        | TxPayloadCallType => TopicCallSmartContract
        | TxPayloadDelegateType => TopicDelegate
        | TxPayloadCandidateType => TopicCandidate
        | TxPayloadOther _ => EmptyString
        end in
      let data := json_Marshal_tx v in
      let event := {| Topic := topic; Data := data |} in
      let emitter := Trigger event emitter in
      let '(events, err) := FetchEvents (tx_hash v) block in
      match err with
      | Some _ => fold_left (fun emitter e => Trigger e emitter) events emitter
      | None => emitter
      end) (transactions block) emitter in
  let blockData := json_Marshal_block block in
  let e := {| Topic := TopicLinkBlock; Data := blockData |} in
  Trigger e emitter.

(** [Block.acceptTransaction] *)
Definition acceptTransaction (tx : Transaction) (block : Block)
  : Block * option error :=
  match tx_Marshal tx with
  | inr err => (block, Some err)
  | inl txBytes =>
      let block := with_txsTrie (Put (tx_hash tx) txBytes (txsTrie block)) block in
      let '(fromAcc, st) :=
        GetOrCreateUserAccount (address (tx_from tx)) (accState block) in
      (with_accState (storeAccount (address (tx_from tx)) (IncrNonce fromAcc) st)
         block, None)
  end.

(** [Block.checkTransaction]: [giveback], [err] and the block, whose account
    state may have gained the sender's account. *)
Definition checkTransaction (tx : Transaction) (block : Block)
  : bool * option error * Block :=
  if Prove (tx_hash tx) (txsTrie block)
  then (false, Some ErrDuplicatedTransaction, block)
  else
    let '(fromAcc, st) :=
      GetOrCreateUserAccount (address (tx_from tx)) (accState block) in
    let block := with_accState st block in
    if tx_nonce tx <? uint64 (acc_nonce fromAcc + 1)
    then (false, Some ErrSmallTransactionNonce, block)
    else if tx_nonce tx >? uint64 (acc_nonce fromAcc + 1)
    then (true, Some ErrLargeTransactionNonce, block)
    else (false, None, block).

(** [Block.executeTransaction] *)
Definition executeTransaction (tx : Transaction) (block : Block)
  : bool * option error * Block :=
  match checkTransaction tx block with
  | (giveback, Some err, block) => (giveback, Some err, block)
  | (_, None, block) =>
      let '(c, err) := tx_VerifyExecution tx (contents block) in
      let block := install c block in
      match err with
      | Some err => (false, Some err, block)
      | None =>
          match acceptTransaction tx block with
          | (block, Some err) => (false, Some err, block)
          | (block, None) => (false, None, block)
          end
      end
  end.

(** The state of the loop of [CollectTransactions]. *)
Record Collecting := {
  col_block : Block;
  col_pool : P;
  col_n : Z;
  col_givebacks : list Transaction
}.

(** The loop condition [!pool.Empty() && n > 0]. *)
Definition collect_guard (st : Collecting) : bool :=
  negb (pool_Empty (col_pool st)) && (col_n st >? 0).

(** One iteration of the loop of [CollectTransactions]. *)
Definition collect_body (st : Collecting) : Collecting :=
  let '(tx, pool) := pool_Pop (col_pool st) in
  let block := begin (col_block st) in
  let '(giveback, err, block) := executeTransaction tx block in
  let givebacks :=
    if giveback then col_givebacks st ++ [tx] else col_givebacks st in
  match err with
  | None =>
      let block := commit block in
      let block := with_transactions (transactions block ++ [tx]) block in
      {| col_block := block; col_pool := pool; col_n := col_n st - 1;
         col_givebacks := givebacks |}
  | Some _ =>
      let block := rollback block in
      {| col_block := block; col_pool := pool; col_n := col_n st;
         col_givebacks := givebacks |}
  end.

Fixpoint collect_loop (fuel : nat) (st : Collecting) : Collecting :=
  match fuel with
  | O => st
  | S fuel =>
      if collect_guard st then collect_loop fuel (collect_body st) else st
  end.

(** [NewBlock]; [now] is [time.Now().Unix()]. *)
Definition NewBlock (chainID : Z) (coinbase : Address) (parent : Block) (now : Z)
  : Block + error :=
  match acc_Clone (accState parent) with
  | (_, Some err) => inr err
  | (accState, None) =>
  match trie_Clone (txsTrie parent) with
  | (_, Some err) => inr err
  | (txsTrie, None) =>
  match trie_Clone (eventsTrie parent) with
  | (_, Some err) => inr err
  | (eventsTrie, None) =>
  match dpos_Clone (dposCtx parent) with
  | (_, Some err) => inr err
  | (dposContext, None) =>
      let block := {|
        header := {|
          hash := [];
          parentHash := Hash parent;
          stateRoot := [];
          txsRoot := [];
          eventsRoot := [];
          core.dposContext := Build_pbDposContext [] [] [] [] [] [];
          core.coinbase := coinbase;
          nonce := 0;
          timestamp := now;
          core.chainID := chainID;
          alg := 0;
          sign := []
        |};
        transactions := [];
        parenetBlock := Some parent;
        core.accState := accState;
        core.txsTrie := txsTrie;
        core.eventsTrie := eventsTrie;
        dposCtx := dposContext;
        txPool := txPool parent;
        height := uint64 (height parent + 1);
        sealed := false;
        storage := storage parent;
        eventEmitter := eventEmitter parent;
        miner := None
      |} in
      let block := begin block in
      let block := rewardCoinbase block in
      let block := commit block in
      inl block
  end end end end.

(** [Block.CollectTransactions]: every iteration pops the pool, so the size
    of the pool bounds the number of iterations. *)
Definition CollectTransactions (n : Z) (block : Block) (pool : P)
  : Block * P * list LogEntry :=
  if sealed block then (block, pool, [sealedDiagnostic])
  else
    let st :=
      collect_loop (pool_size pool)
        {| col_block := block; col_pool := pool; col_n := n;
           col_givebacks := [] |} in
    let pool :=
      fold_left (fun pool tx => fst (pool_Push tx pool)) (col_givebacks st)
        (col_pool st) in
    (col_block st, pool, []).

(** [Block.Seal].  [None] is a panic of [recordMintCnt]. *)
Definition Seal (block : Block) : option (Block * option error) :=
  if sealed block then Some (block, Some ErrDoubleSealBlock)
  else
    let block := begin block in
    match recordMintCnt block with
    | None => None
    | Some (block, Some err) => Some (rollback block, Some err)
    | Some (block, None) =>
        let block := commit block in
        let block :=
          with_header (set_stateRoot (acc_RootHash (accState block)) (header block))
            block in
        let block :=
          with_header (set_txsRoot (RootHash (txsTrie block)) (header block))
            block in
        let block :=
          with_header (set_eventsRoot (RootHash (eventsTrie block)) (header block))
            block in
        let block :=
          with_header (set_dposContext (dpos_ToProto (dposCtx block)) (header block))
            block in
        let block := with_header (set_hash (HashBlock block) (header block)) block in
        let block := with_sealed true block in
        Some (block, None)
    end.

(** [Block.verifyState] *)
Definition verifyState (block : Block) : option error :=
  if negb (byteutils.Equal (acc_RootHash (accState block)) (StateRoot block))
  then Some ErrInvalidBlockStateRoot
  else if negb (byteutils.Equal (RootHash (txsTrie block)) (TxsRoot block))
  then Some ErrInvalidBlockTxsRoot
  else if negb (byteutils.Equal (RootHash (eventsTrie block)) (EventsRoot block))
  then Some ErrInvalidBlockEventsRoot
  else if negb (byteutils.Equal (dpos_RootHash (dposCtx block))
                  (DposContextHash block))
  then Some ErrInvalidBlockDposContextRoot
  else None.

(** The loop of [Block.execute] over the transactions of the block. *)
Fixpoint executeAll (txs : list Transaction) (block : Block) (pool : P)
  : Block * P * option error :=
  match txs with
  | [] => (block, pool, None)
  | tx :: rest =>
      let '(giveback, err, block) := executeTransaction tx block in
      let '(pool, pushErr) :=
        if giveback then pool_Push tx pool else (pool, None) in
      match pushErr, err with
      | Some e, _ => (block, pool, Some e)
      | None, Some e => (block, pool, Some e)
      | None, None => executeAll rest block pool
      end
  end.

(** [Block.execute] *)
Definition execute (block : Block) (pool : P) : option (Block * P * option error) :=
  let block := rewardCoinbase block in
  match executeAll (transactions block) block pool with
  | (block, pool, Some err) => Some (block, pool, Some err)
  | (block, pool, None) =>
      match recordMintCnt block with
      | None => None
      | Some (block, err) => Some (block, pool, err)
      end
  end.

(** [Block.VerifyExecution]; [consensus] is [consensus.VerifyBlock].  The
    result is the block, the pool, the emitter and the error. *)
Definition VerifyExecution (block parent : Block)
    (consensus : Block -> Block -> option error) (pool : P) (emitter : list Event)
  : option (Block * P * list Event * option error) :=
  match consensus block parent with
  | Some err => Some (block, pool, emitter, Some err)
  | None =>
      let block := begin block in
      match execute block pool with
      | None => None
      | Some (block, pool, Some err) =>
          Some (rollback block, pool, emitter, Some err)
      | Some (block, pool, None) =>
          match verifyState block with
          | Some err => Some (rollback block, pool, emitter, Some err)
          | None =>
              let block := commit block in
              let emitter := triggerEvent block emitter in
              Some (block, pool, emitter, None)
          end
      end
  end.

End Engine.

End core.

Module blockstate.
Import core.

Section Collect.

Context `{Hasher} `{Merkle} `{Executor} `{Codec}.
Context {P : Type} `{TxPool P}.

(** The four root hashes of a block: account state, txs trie, events trie
    and DPoS context. *)
Definition fourRoots (block : Block) : bytes * bytes * bytes * bytes :=
  (acc_RootHash (accState block), RootHash (txsTrie block),
   RootHash (eventsTrie block), dpos_RootHash (dposCtx block)).

(** The contents that the open batches of the nine overlays have saved. *)
Definition savedContents (block : Block) :=
  (saved (accState block), saved (txsTrie block), saved (eventsTrie block),
   (saved (dynastyTrie (dposCtx block)), saved (nextDynastyTrie (dposCtx block)),
    saved (delegateTrie (dposCtx block))),
   (saved (voteTrie (dposCtx block)), saved (candidateTrie (dposCtx block)),
    saved (mintCntTrie (dposCtx block)))).

(** No overlay of the block has a batch open: the state in which every
    operation of the engine leaves a block. *)
Definition noOpenBatch (block : Block) : Prop :=
  savedContents block =
  (None, None, None, (None, None, None), (None, None, None)).

(** The state in which [CollectTransactions] enters its loop. *)
Definition collect_init (n : Z) (block : Block) (pool : P) : Collecting :=
  {| col_block := block; col_pool := pool; col_n := n; col_givebacks := [] |}.

(** The states that the loop of [CollectTransactions] goes through. *)
Inductive collect_reaches (st0 : Collecting) : Collecting -> Prop :=
| reaches_init : collect_reaches st0 st0
| reaches_body (st : Collecting) :
    collect_reaches st0 st -> collect_guard st = true ->
    collect_reaches st0 (collect_body st).

(** The nonce of the sender's account as [checkTransaction] reads it. *)
Definition senderNonce (tx : Transaction) (block : Block) : Z :=
  acc_nonce (fst (GetOrCreateUserAccount (address (tx_from tx)) (accState block))).

(** The event that [triggerEvent] publishes for a transaction itself. *)
Definition txEvent (v : Transaction) : Event :=
  {| Topic :=
       match tx_type v with
       | TxPayloadBinaryType => TopicSendTransaction
       | TxPayloadDeployType => TopicDeploySmartContract
       | TxPayloadCallType => TopicCallSmartContract
       | TxPayloadDelegateType => TopicDelegate
       | TxPayloadCandidateType => TopicCandidate
       | TxPayloadOther _ => EmptyString
       end;
     Data := json_Marshal_tx v |}.

End Collect.
End blockstate.

(** ** net/p2p: the peer session *)

Module session.
Import p2p.

(** What the service uses of libp2p and of the protobuf codec: peer
    identities and their two printed forms, multiaddresses, the peer store,
    the routing table, the stream cache and the decoding of a [Hello]. *)
Class Libp2p := {
  PeerID : Type;
  Multiaddr : Type;
  Pretty : PeerID -> string;              (* pid.Pretty() *)
  IDString : PeerID -> string;            (* pid.String() *)
  Peerstore : Type;
  PermanentAddrTTL : Z;
  AddAddr : PeerID -> Multiaddr -> Z -> Peerstore -> Peerstore;
  SetAddrs : PeerID -> list Multiaddr -> Z -> Peerstore -> Peerstore;
  RouteTable : Type;
  Update : PeerID -> RouteTable -> RouteTable;
  Remove : PeerID -> RouteTable -> RouteTable
}.

(** [messages.HelloMessage] *)
Record HelloMessage := { NodeID : string; ClientVersion : string }.

(** [StreamStore]: [NewStreamStore(key, conn, stream)]; the stream is the
    identity of a [libnet.Stream]. *)
Record StreamStore := { key : string; conn : Z; stream : positive }.

Definition NewStreamStore (key : string) (conn : Z) (stream : positive)
  : StreamStore :=
  {| key := key; conn := conn; stream := stream |}.

(** The state of a [libnet.Stream]: the bytes written to it and whether it
    has been closed. *)
Record Stream := { written : bytes; closed : bool }.

Definition openStream : Stream := {| written := []; closed := false |}.

Class HelloCodec := {
  (** [proto.Unmarshal] into a [netpb.Hello] followed by [FromProto]. *)
  decodeHello : bytes -> HelloMessage + error
}.

(** [Config]: the fields read here. *)
Record Config := {
  cfgChainID : Z;                  (* uint32 *)
  cfgNetworkID : Z                 (* uint32 *)
}.

Section Session.

Context `{Libp2p} `{HelloCodec}.

(** [Node]: the fields that the functions below use.  [stream_] is the
    field [stream], the [sync.Map] from [pid.Pretty()] to the stream store;
    [streamCache] holds the stores inserted so far; [networkIDCache] is the
    contents of the LRU cache; [streams] is the state of the streams that
    the stream stores refer to. *)
Record Node := {
  id : PeerID;
  config : Config;
  version : byte;
  stream_ : gmap string StreamStore;
  streamCache : list StreamStore;
  peerstore : Peerstore;
  routeTable : RouteTable;
  networkIDCache : gmap string Z;
  bootIds : list string;
  streams : gmap positive Stream
}.

Definition framer (node : Node) : FramerConfig :=
  {| ChainID := cfgChainID (config node); nodeVersion := version node |}.

Definition with_streams (v : gmap positive Stream) (node : Node) : Node :=
  Build_Node (id node) (config node) (version node) (stream_ node)
    (streamCache node) (peerstore node) (routeTable node)
    (networkIDCache node) (bootIds node) v.

Definition streamState (node : Node) (s : positive) : Stream :=
  default openStream (streams node !! s).

(** [Write(writer, data)] on a stream of the node: the transport refuses to
    write to a closed stream. *)
Definition Write (s : positive) (data : bytes) (node : Node) : Node * option error :=
  let st := streamState node s in
  if closed st then (node, Some ErrIO)
  else
    (with_streams
       (<[s := {| written := written st ++ data; closed := false |}]>
          (streams node)) node, None).

(** [NetService.sendMsg] *)
Definition sendMsg (msgName : string) (msg : bytes) (s : positive) (node : Node)
  : Node * option error :=
  let totalData := buildData (framer node) msg msgName in
  match Write s totalData node with
  | (node, Some err) => (node, Some err)
  | (node, None) => (node, None)
  end.

(** [NetService.checkNetworkID] *)
Definition checkNetworkID (target : string) (node : Node) : bool :=
  match networkIDCache node !! target with
  | Some targetNetworkID =>
      if Z.land (cfgNetworkID (config node)) targetNetworkID >? 0 then true
      else false
  | None => false
  end.

(** [NetService.SendMsg] *)
Definition SendMsg (msgName : string) (msg : bytes) (target : string) (node : Node)
  : Node * option error :=
  if negb (bool_decide (msgName = NetworkID)) && negb (checkNetworkID target node)
  then (node, Some ErrNotSameNetwork)
  else
    match stream_ node !! target with
    | None => (node, Some ErrStreamNotExist)
    | Some streamStore =>
        match sendMsg msgName msg (stream streamStore) node with
        | (node, Some err) => (node, Some err)
        | (node, None) => (node, None)
        end
    end.

(** [InArray] on a string and a slice of strings. *)
Definition InArray (obj : string) (array : list string) : bool :=
  bool_decide (obj ∈ array).

(** [NetService.clearPeerStore] *)
Definition clearPeerStore (pid : PeerID) (addrs : list Multiaddr) (node : Node)
  : Node :=
  let ps := SetAddrs pid addrs 0 (peerstore node) in
  let rt :=
    if negb (InArray (Pretty pid) (bootIds node))
    then Remove pid (routeTable node) else routeTable node in
  Build_Node (id node) (config node) (version node) (stream_ node)
    (streamCache node) ps rt (networkIDCache node) (bootIds node)
    (streams node).

(** [s.Close()] *)
Definition Close (s : positive) (node : Node) : Node :=
  with_streams
    (<[s := {| written := written (streamState node s); closed := true |}]>
       (streams node)) node.

(** [NetService.Bye] *)
Definition Bye (pid : PeerID) (addrs : list Multiaddr) (s : positive)
    (key : string) (node : Node) : Node :=
  let node := clearPeerStore pid addrs node in
  let node :=
    Build_Node (id node) (config node) (version node)
      (delete key (stream_ node)) (streamCache node) (peerstore node)
      (routeTable node) (networkIDCache node) (bootIds node) (streams node) in
  Close s node.

(** The four updates of [handleOkMsg] when the OK is accepted. *)
Definition acceptPeer (pid : PeerID) (s : positive) (addrs : Multiaddr)
    (key : string) (node : Node) : Node :=
  let streamStore := NewStreamStore key SOK s in
  Build_Node (id node) (config node) (version node)
    (<[key := streamStore]> (stream_ node))
    (streamCache node ++ [streamStore])
    (AddAddr pid addrs PermanentAddrTTL (peerstore node))
    (Update pid (routeTable node))
    (networkIDCache node) (bootIds node) (streams node).

(** [NetService.handleOkMsg]; the deferred function runs [Bye] whenever the
    result is [false]. *)
Definition handleOkMsg (data : bytes) (pid : PeerID) (s : positive)
    (addrs : Multiaddr) (key : string) (node : Node) : bool * Node :=
  let deferred (result : bool) (node : Node) : bool * Node :=
    if negb result then (result, Bye pid [addrs] s key node)
    else (result, node) in
  let result := false in
  match decodeHello data with
  | inr _ => deferred result node
  | inl ok =>
      if bool_decide (NodeID ok = IDString pid) &&
         bool_decide (ClientVersion ok = p2p.ClientVersion)
      then
        let node := acceptPeer pid s addrs key node in
        let result := true in
        deferred result node
      else deferred result node
  end.

(** The remote peer of [key] is in state OK. *)
Definition sessionOK (key : string) (node : Node) : Prop :=
  exists st, stream_ node !! key = Some st /\ conn st = SOK.

(** The OK payload names the remote peer and our client version. *)
Definition okMatches (data : bytes) (pid : PeerID) : Prop :=
  exists ok, decodeHello data = inl ok /\
             NodeID ok = IDString pid /\
             ClientVersion ok = p2p.ClientVersion.

(** The sender-side gate: the target has a cached network id that shares a
    bit with ours. *)
Definition sameNetwork (target : string) (node : Node) : Prop :=
  exists targetNetworkID,
    networkIDCache node !! target = Some targetNetworkID /\
    Z.land (cfgNetworkID (config node)) targetNetworkID > 0.

End Session.
End session.

(** ** A small chain

    One implementation of every collaborator, simple enough to run the
    engine on concrete blocks.  The digest is a CRC-32; the executor of a
    call transaction records one event, every other known payload does
    nothing, and an unknown payload resets the sender's account and then
    fails. *)

Module sample.
Import core.

#[export] Instance hasher : Hasher :=
  {| sha3_256 := fun b => byteutils.FromUint32 (crc32.ChecksumIEEE b) |}.

Definition flatten (m : TrieData) : bytes :=
  concat (map (fun kv => fst kv ++ snd kv) (map_to_list m)).

Definition flattenAccounts (m : AccountData) : bytes :=
  concat (map (fun kv => fst kv ++ byteutils.FromUint64 (balance (snd kv)) ++
                         byteutils.FromUint64 (acc_nonce (snd kv)))
            (map_to_list m)).

#[export] Instance merkle : Merkle := {|
  trieRoot := fun m => sha3_256 (flatten m);
  accountRoot := fun m => sha3_256 (flattenAccounts m)
|}.

Definition callEvent : Event := {| Topic := "chain.contract"; Data := "called" |}.

Definition encodeEvent (e : Event) : bytes :=
  list_byte_of_string (Topic e) ++ [x00] ++ list_byte_of_string (Data e).

Definition decodeEvent (data : bytes) : Event + error :=
  let i := IndexByte data x00 in
  if i =? -1 then inr (ErrOther "invalid character")
  else inl {| Topic := string_of_list_byte (take (Z.to_nat i) data);
              Data := string_of_list_byte (drop (S (Z.to_nat i)) data) |}.

#[export] Instance codec : Codec := {|
  tx_Marshal := fun tx => inl (tx_hash tx);
  json_Marshal_tx := fun tx => string_of_list_byte (tx_hash tx);
  json_Marshal_block := fun b => string_of_list_byte (hash (header b));
  json_Marshal_event := fun e => inl (encodeEvent e);
  json_Unmarshal_event := decodeEvent
|}.

Definition with_events (m : TrieData) (c : Contents) : Contents :=
  Build_Contents (c_accounts c) (c_txs c) m (c_dynasty c) (c_nextDynasty c)
    (c_delegate c) (c_vote c) (c_candidate c) (c_mintCnt c).

Definition with_accounts (m : AccountData) (c : Contents) : Contents :=
  Build_Contents m (c_txs c) (c_events c) (c_dynasty c) (c_nextDynasty c)
    (c_delegate c) (c_vote c) (c_candidate c) (c_mintCnt c).

#[export] Instance executor : Executor := {|
  tx_VerifyExecution := fun tx c =>
    match tx_type tx with
    | TxPayloadCallType =>
        (with_events
           (<[tx_hash tx ++ byteutils.FromInt64 1 := encodeEvent callEvent]>
              (c_events c)) c, None)
    | TxPayloadOther _ =>
        (with_accounts
           (<[address (tx_from tx) := {| balance := 0; acc_nonce := 0 |}]>
              (c_accounts c)) c,
         Some (ErrOther "unsupported payload"))
    | _ => (c, None)
    end
|}.

Definition fresh {A} (t : Batch A) : Batch A :=
  {| content := content t; saved := None |}.

#[export] Instance dynasty : Dynasty := {|
  DynastyContext := DposContext;
  DynastyInterval := 3600;
  acc_Clone := fun st => (fresh st, None);
  trie_Clone := fun t => (fresh t, None);
  dpos_Clone := fun c => (mapDpos fresh c, None);
  NextDynastyContext := fun parent _ => inl (mapDpos fresh (dposCtx parent));
  LoadDynastyContext := fun block context => (with_dposCtx context block, None)
|}.

Definition noTransaction : Transaction :=
  {| tx_hash := []; tx_from := {| address := [] |}; tx_nonce := 0;
     tx_type := TxPayloadBinaryType |}.

Definition listEmpty (p : list Transaction) : bool :=
  match p with [] => true | _ => false end.

(** A pool that hands out its transactions in the order of arrival. *)
#[export] Instance pool : TxPool (list Transaction).
Proof.
  refine {|
    pool_Empty := listEmpty;
    pool_Pop := fun p => (hd noTransaction p, tl p);
    pool_Push := fun tx p => (p ++ [tx], None);
    pool_size := fun p => length p
  |}.
  intros [|tx p] Hp; [discriminate Hp|]. cbn. lia.
Defined.

Definition emptyTrie : BatchTrie := {| content := ∅; saved := None |}.
Definition emptyAccounts : AccountState := {| content := ∅; saved := None |}.

Definition alice : Address := {| address := list_byte_of_string "alice" |}.
Definition bob : Address := {| address := list_byte_of_string "bob" |}.

(** The genesis block: empty overlays, height 0. *)
Definition genesis : Block := {|
  header := {|
    hash := list_byte_of_string "genesis";
    parentHash := [];
    stateRoot := []; txsRoot := []; eventsRoot := [];
    dposContext := Build_pbDposContext [] [] [] [] [] [];
    coinbase := alice;
    nonce := 0; timestamp := 0; chainID := 100; alg := 0; sign := []
  |};
  transactions := [];
  sealed := true;
  height := 0;
  parenetBlock := None;
  accState := emptyAccounts;
  txsTrie := emptyTrie;
  eventsTrie := emptyTrie;
  dposCtx := Build_DposContext emptyTrie emptyTrie emptyTrie emptyTrie
               emptyTrie emptyTrie;
  txPool := 1%positive;
  miner := None;
  storage := 1%positive;
  eventEmitter := 1%positive
|}.

(** Bob's first transaction, a contract call, and a transaction with a
    payload the executor does not know. *)
Definition callTx : Transaction :=
  {| tx_hash := list_byte_of_string "tx-call"; tx_from := bob; tx_nonce := 1;
     tx_type := TxPayloadCallType |}.

Definition badTx : Transaction :=
  {| tx_hash := list_byte_of_string "tx-bad"; tx_from := bob; tx_nonce := 1;
     tx_type := TxPayloadOther "unknown" |}.

(** The proposer: a new block on the genesis block, mined by alice. *)
Definition proposed : Block :=
  match NewBlock 100 alice genesis 7200 with
  | inl block => SetMiner (Some alice) block
  | inr _ => genesis
  end.

(** The proposer collects [callTx] and seals. *)
Definition sealedBlock : Block :=
  match Seal (fst (fst (CollectTransactions 1 proposed [callTx]))) with
  | Some (block, None) => block
  | _ => genesis
  end.

(** What the verifier receives: header, transactions and height. *)
Definition wired : Block :=
  mkBlock (header sealedBlock) (transactions sealedBlock) false
    (height sealedBlock) None emptyAccounts emptyTrie emptyTrie
    (Build_DposContext emptyTrie emptyTrie emptyTrie emptyTrie emptyTrie
       emptyTrie)
    1%positive None 1%positive 1%positive.

(** The verifier links the block to its genesis block and learns the miner
    from the consensus. *)
Definition received : Block :=
  SetMiner (Some alice) (fst (LinkParentBlock wired genesis)).

(** A consensus that accepts every block. *)
Definition acceptAll (block parent : Block) : option error := None.

(** The proposer's block after collecting, before sealing; the received
    block after linking. *)
Definition collected : Block :=
  fst (fst (CollectTransactions 1 proposed [callTx])).

Definition linked : Block := fst (LinkParentBlock wired genesis).

Definition smallTx : Transaction :=
  {| tx_hash := list_byte_of_string "tx-small"; tx_from := bob; tx_nonce := 0;
     tx_type := TxPayloadBinaryType |}.

Definition largeTx : Transaction :=
  {| tx_hash := list_byte_of_string "tx-large"; tx_from := bob; tx_nonce := 3;
     tx_type := TxPayloadBinaryType |}.

#[global] Instance Address_eq_dec : EqDecision Address.
Proof. solve_decision. Defined.
#[global] Instance TxPayloadType_eq_dec : EqDecision TxPayloadType.
Proof. solve_decision. Defined.
#[global] Instance Transaction_eq_dec : EqDecision Transaction.
Proof. solve_decision. Defined.
#[global] Instance Event_eq_dec : EqDecision Event.
Proof. solve_decision. Defined.

(** A check to evaluate on the outcome of [VerifyExecution]: it succeeded,
    [FetchEvents] then returns the event recorded for [callTx], and that
    event was not published. *)
Definition outcome_check
    (o : option (Block * list Transaction * list Event * option error)) : bool :=
  match o with
  | Some (block', _, emitter', None) =>
      bool_decide (callTx ∈ transactions block') &&
      bool_decide (FetchEvents (tx_hash callTx) block' = ([callEvent], None)) &&
      bool_decide (callEvent ∉ emitter')
  | _ => false
  end.

End sample.

(** ** A small network

    One implementation of the libp2p interface, with strings for peer ids
    and addresses, and a node to run the session functions on. *)

Module net.
Import p2p session.

#[export] Instance libp2p : Libp2p := {|
  PeerID := string;
  Multiaddr := string;
  Pretty := fun pid => pid;
  IDString := fun pid => ("<peer.ID " ++ pid ++ ">")%string;
  Peerstore := gmap string (list (string * Z));
  PermanentAddrTTL := 2 ^ 63 - 1;
  AddAddr := fun pid addr ttl ps =>
    <[pid := (addr, ttl) :: default [] (ps !! pid)]> ps;
  SetAddrs := fun pid addrs ttl ps =>
    if ttl <=? 0 then delete pid ps
    else <[pid := map (fun a => (a, ttl)) addrs]> ps;
  RouteTable := list string;
  Update := fun pid rt => if bool_decide (pid ∈ rt) then rt else pid :: rt;
  Remove := fun pid rt => filter (fun p => p <> pid) rt
|}.

(** A [Hello] on the wire: node id, a NUL byte, client version. *)
Definition encodeHello (m : HelloMessage) : bytes :=
  list_byte_of_string (NodeID m) ++ [x00] ++ list_byte_of_string (ClientVersion m).

#[export] Instance helloCodec : HelloCodec := {|
  decodeHello := fun data =>
    let i := IndexByte data x00 in
    if i =? -1 then inr ErrIO
    else inl {| NodeID := string_of_list_byte (take (Z.to_nat i) data);
                ClientVersion :=
                  string_of_list_byte (drop (S (Z.to_nat i)) data) |}
|}.

(** The local node: network mask 0b0011; it has a stream to "QmRemote",
    whose cached mask 0b0100 shares no bit with ours, and one to "QmNear",
    whose mask 0b0001 does. *)
Definition localNode : Node := {|
  id := "QmLocal"%string;
  config := {| cfgChainID := 100; cfgNetworkID := 3 |};
  version := x00;
  stream_ := {[ "QmRemote"%string := NewStreamStore "QmRemote" SOK 1%positive;
                "QmNear"%string := NewStreamStore "QmNear" SOK 2%positive ]};
  streamCache := [];
  peerstore := ∅;
  routeTable := [];
  networkIDCache := {[ "QmRemote"%string := 4; "QmNear"%string := 1 ]};
  bootIds := [];
  streams := ∅
|}.

Definition remote : @PeerID libp2p := "QmRemote"%string.
Definition remoteAddr : @Multiaddr libp2p := "/ip4/10.0.0.2/tcp/51413"%string.

(** The OK that "QmRemote" sends, and one that names another node. *)
Definition goodOK : bytes :=
  encodeHello {| NodeID := "<peer.ID QmRemote>"; ClientVersion := "0.2.0" |}.

Definition wrongOK : bytes :=
  encodeHello {| NodeID := "<peer.ID QmOther>"; ClientVersion := "0.2.0" |}.

End net.

(** ** net/p2p: frames under any name *)

Module frame.
Import p2p.

(** The bytes of [s] before the first occurrence of [c]. *)
Fixpoint before (c : byte) (s : bytes) : bytes :=
  match s with
  | [] => []
  | b :: t => if decide (b = c) then [] else b :: before c t
  end.

(** The twelve bytes that [buildHeader] leaves in the name field. *)
Definition name_bytes (name : string) : bytes :=
  take 12 (list_byte_of_string name ++ replicate 12 x00).

(** The name that [parse] reads out of the name field: at most twelve bytes
    of the name, up to its first NUL. *)
Definition carried_name (name : string) : string :=
  string_of_list_byte (before x00 (take 12 (list_byte_of_string name))).

(** The protocol record that [parse] returns for the header that [buildData]
    builds under [cfg] for [D] and [name], read together with [payload]. *)
Definition delivered (cfg : FramerConfig) (D : bytes) (name : string)
    (payload : bytes) : Protocol := {|
  magicNumber := MagicNumber;
  chainID := byteutils.FromUint32 (ChainID cfg);
  version := nodeVersion cfg;
  msgName := carried_name name;
  dataLength := byteutils.FromUint32 (uint32 (Z.of_nat (length D)));
  dataChecksum := byteutils.FromUint32 (crc32.ChecksumIEEE D);
  headerChecksum := byteutils.FromUint32 (crc32.ChecksumIEEE (header_of cfg D name));
  dataHeader := header_of cfg D name;
  data := payload;
  reserved := [x00; x00; x00]
|}.

(** The 36 bytes that precede the payload in a frame. *)
Definition header36 (cfg : FramerConfig) (D : bytes) (name : string) : bytes :=
  header_of cfg D name ++
  byteutils.FromUint32 (crc32.ChecksumIEEE (header_of cfg D name)).

End frame.

(** ** net/p2p: the responder side of the handshake and route syncing *)

Module handshake.
Import p2p session.

Definition SyncRoute : string := "syncroute".
Definition SyncRouteReply : string := "resyncroute".

(** [HelloMessage.ToProto] followed by [proto.Marshal]; the error is the
    one of [proto.Marshal]. *)
Class HelloEncoder := {
  marshalHello : HelloMessage -> bytes + error
}.

Section Handshake.

Context `{Libp2p} `{HelloCodec} `{HelloEncoder}.

(** [node.peerstore.PeerInfo(pid).Addrs] *)
Context (PeerAddrs : PeerID -> Peerstore -> list Multiaddr).

(** [messages.NewHelloMessage] *)
Definition NewHelloMessage (nodeID clientVersion : string) : HelloMessage :=
  {| NodeID := nodeID; ClientVersion := clientVersion |}.

(** The three updates of [handleHelloMsg] after both replies are sent. *)
Definition storePeer (pid : PeerID) (s : positive) (key : string) (node : Node)
  : Node :=
  let streamStore := NewStreamStore key SOK s in
  Build_Node (id node) (config node) (version node)
    (<[key := streamStore]> (stream_ node))
    (streamCache node ++ [streamStore])
    (peerstore node)
    (Update pid (routeTable node))
    (networkIDCache node) (bootIds node) (streams node).

(** [node.peerstore.AddAddr(pid, addrs, peerstore.PermanentAddrTTL)] *)
Definition addPermanent (pid : PeerID) (addrs : Multiaddr) (node : Node) : Node :=
  Build_Node (id node) (config node) (version node) (stream_ node)
    (streamCache node)
    (AddAddr pid addrs PermanentAddrTTL (peerstore node))
    (routeTable node) (networkIDCache node) (bootIds node) (streams node).

(** [NetService.handleHelloMsg]; the deferred function runs [Bye] whenever
    the result is [false]. *)
Definition handleHelloMsg (data : bytes) (pid : PeerID) (s : positive)
    (addrs : Multiaddr) (key : string) (node : Node) : bool * Node :=
  let deferred (result : bool) (node : Node) : bool * Node :=
    if negb result then (result, Bye pid [addrs] s key node)
    else (result, node) in
  let result := false in
  match decodeHello data with
  | inr _ => deferred result node
  | inl hello =>
      if bool_decide (NodeID hello = IDString pid) &&
         bool_decide (ClientVersion hello = p2p.ClientVersion)
      then
        let ok := NewHelloMessage (IDString (id node)) p2p.ClientVersion in
        match marshalHello ok with
        | inr _ => deferred result node
        | inl okdata =>
            let node := addPermanent pid addrs node in
            match sendMsg OK okdata s node with
            | (node, Some _) => deferred result node
            | (node, None) =>
                let networkIDData :=
                  byteutils.FromUint32 (cfgNetworkID (config node)) in
                match sendMsg NetworkID networkIDData s node with
                | (node, Some _) => deferred result node
                | (node, None) =>
                    let node := storePeer pid s key node in
                    let result := true in
                    deferred result node
                end
            end
        end
      else deferred result node
  end.

(** [NetService.SyncRoutes] *)
Definition SyncRoutes (pid : PeerID) (node : Node) : Node :=
  let addrs := PeerAddrs pid (peerstore node) in
  if (length addrs =? 0)%nat then clearPeerStore pid addrs node
  else
    let data := [] in
    match SendMsg SyncRoute data (Pretty pid) node with
    | (node, Some _) => clearPeerStore pid addrs node
    | (node, None) => node
    end.

End Handshake.
End handshake.

(** ** A responder for the small network *)

Module peers.
Import p2p session handshake net.

#[export] Instance helloEncoder : HelloEncoder := {|
  marshalHello := fun m => inl (encodeHello m)
|}.

(** The addresses that the peer store of [net.libp2p] holds for a peer. *)
Definition PeerAddrs (pid : @PeerID libp2p) (ps : @Peerstore libp2p)
  : list (@Multiaddr libp2p) :=
  map fst (default [] (ps !! pid)).

Definition localPeer : @PeerID libp2p := "QmLocal"%string.
Definition localAddr : @Multiaddr libp2p := "/ip4/10.0.0.1/tcp/51413"%string.

(** The hello that "QmLocal" sends. *)
Definition localHello : bytes :=
  encodeHello {| NodeID := "<peer.ID QmLocal>"; ClientVersion := "0.2.0" |}.

(** The node "QmRemote" before it has met anybody: same chain id and
    version as [localNode], network mask 0b0100. *)
Definition responder : Node := {|
  id := remote;
  config := {| cfgChainID := 100; cfgNetworkID := 4 |};
  version := x00;
  stream_ := ∅;
  streamCache := [];
  peerstore := ∅;
  routeTable := [];
  networkIDCache := ∅;
  bootIds := [];
  streams := ∅
|}.

End peers.

(** ** core: protobuf conversion, signing, integrity and storage *)

(** Go's conversion [uint8(x)]. *)
Definition uint8 (x : Z) : Z := x mod 2 ^ 8.

Module blockio.
Import core.

(** The error values of package [core] that the functions below return and
    that [core.error] does not list; [ErrCore] passes on an error of a
    callee. *)
Inductive error :=
| ErrInvalidChainID
| ErrInvalidBlockHash
| ErrMissingParentBlock
| ErrCore (e : core.error).

(** The messages built by [errors.New] in the conversions. *)
Definition ErrNotBlockHeader : core.error :=
  ErrOther "Protobuf message cannot be converted into BlockHeader".
Definition ErrNotBlock : core.error :=
  ErrOther "Protobuf message cannot be converted into Block".
Definition ErrNotTransaction : core.error :=
  ErrOther "Protobuf message cannot be converted into Transaction".

(** [corepb.BlockHeader] *)
Record pbBlockHeader := {
  pb_Hash : bytes;
  pb_ParentHash : bytes;
  pb_StateRoot : bytes;
  pb_TxsRoot : bytes;
  pb_EventsRoot : bytes;
  pb_DposContext : pbDposContext;
  pb_Nonce : Z;                  (* uint64 *)
  pb_Coinbase : bytes;
  pb_Timestamp : Z;              (* int64 *)
  pb_ChainId : Z;                (* uint32 *)
  pb_Alg : Z;                    (* uint32 *)
  pb_Sign : bytes
}.

(** [corepb.Block], over the type of [corepb.Transaction]; [Header] is a
    pointer and may be [nil]. *)
Record pbBlock (T : Type) := {
  pb_Header : option pbBlockHeader;
  pb_Transactions : list T;
  pb_Height : Z                  (* uint64 *)
}.
Arguments pb_Header {T} _.
Arguments pb_Transactions {T} _.
Arguments pb_Height {T} _.

(** A [proto.Message] by its dynamic type, which the conversions assert. *)
Inductive Message (T : Type) :=
| MsgBlockHeader (h : pbBlockHeader)
| MsgBlock (b : pbBlock T)
| MsgTransaction (t : T)
| MsgOther.
Arguments MsgBlockHeader {T} _.
Arguments MsgBlock {T} _.
Arguments MsgTransaction {T} _.
Arguments MsgOther {T}.

(** [keystore.Signature]: [Sign] and [Algorithm]. *)
Record Signature := {
  sig_Sign : bytes -> bytes + core.error;
  sig_Algorithm : Z
}.

(** What [block.go] uses of [Transaction] besides its fields, and of
    [proto]: the conversions of a transaction, its integrity check and the
    decoding of a stored transaction and of a stored block. *)
Class TxProto (T : Type) := {
  tx_ToProto : Transaction -> Message T + core.error;
  tx_FromProto : T -> Transaction + core.error;
  tx_VerifyIntegrity : Transaction -> Z -> option core.error;
  proto_Unmarshal_tx : bytes -> T + core.error;
  proto_Unmarshal_block : bytes -> pbBlock T + core.error
}.

(** [storage.Storage] and the constructors that open an overlay on it. *)
Class Storage (S : Type) := {
  storage_Get : bytes -> S -> bytes + core.error;
  NewAccountState : bytes -> S -> AccountState + core.error;
  NewBatchTrie : bytes -> S -> BatchTrie + core.error;
  NewDposContext : S -> DposContext + core.error;
  (** [DposContext.FromProto]: the context after the call and the error. *)
  dpos_FromProto : pbDposContext -> DposContext -> DposContext * option core.error
}.

Definition set_alg (v : Z) (h : BlockHeader) : BlockHeader :=
  Build_BlockHeader (hash h) (parentHash h) (stateRoot h) (txsRoot h)
    (eventsRoot h) (dposContext h) (coinbase h) (nonce h) (timestamp h)
    (chainID h) v (sign h).

Definition set_sign (v : bytes) (h : BlockHeader) : BlockHeader :=
  Build_BlockHeader (hash h) (parentHash h) (stateRoot h) (txsRoot h)
    (eventsRoot h) (dposContext h) (coinbase h) (nonce h) (timestamp h)
    (chainID h) (alg h) v.

Section Conversions.

Context `{Hasher} `{Merkle} `{Executor} `{Codec} `{Dynasty}.
Context {P : Type} `{TxPool P}.
Context {T : Type} `{TxProto T}.
Context {S : Type} `{Storage S}.

(** [BlockHeader.ToProto] *)
Definition Header_ToProto (b : BlockHeader) : Message T * option core.error :=
  (MsgBlockHeader {|
     pb_Hash := hash b;
     pb_ParentHash := parentHash b;
     pb_StateRoot := stateRoot b;
     pb_TxsRoot := txsRoot b;
     pb_EventsRoot := eventsRoot b;
     pb_DposContext := dposContext b;
     pb_Nonce := nonce b;
     pb_Coinbase := address (coinbase b);
     pb_Timestamp := timestamp b;
     pb_ChainId := chainID b;
     pb_Alg := uint32 (alg b);
     pb_Sign := sign b
   |}, None).

(** [BlockHeader.FromProto]: the header after the call and the error. *)
Definition Header_FromProto (msg : Message T) (b : BlockHeader)
  : BlockHeader * option core.error :=
  match msg with
  | MsgBlockHeader msg =>
      ({| hash := pb_Hash msg;
          parentHash := pb_ParentHash msg;
          stateRoot := pb_StateRoot msg;
          txsRoot := pb_TxsRoot msg;
          eventsRoot := pb_EventsRoot msg;
          dposContext := pb_DposContext msg;
          nonce := pb_Nonce msg;
          coinbase := {| address := pb_Coinbase msg |};
          timestamp := pb_Timestamp msg;
          chainID := pb_ChainId msg;
          alg := uint8 (pb_Alg msg);
          sign := pb_Sign msg |}, None)
  | _ => (b, Some ErrNotBlockHeader)
  end.

(** The loop of [Block.ToProto] over the transactions. *)
Fixpoint txsToProto (vs : list Transaction) (txs : list T)
  : list T + core.error :=
  match vs with
  | [] => inl txs
  | v :: rest =>
      match tx_ToProto v with
      | inr err => inr err
      | inl (MsgTransaction tx) => txsToProto rest (txs ++ [tx])
      | inl _ => inr ErrNotTransaction
      end
  end.

(** [Block.ToProto] *)
Definition Block_ToProto (block : Block) : Message T + core.error :=
  match fst (Header_ToProto (header block)) with
  | MsgBlockHeader header =>
      match txsToProto (transactions block) [] with
      | inr err => inr err
      | inl txs =>
          inl (MsgBlock {| pb_Header := Some header;
                           pb_Transactions := txs;
                           pb_Height := height block |})
      end
  | _ => inr ErrNotBlockHeader
  end.

(** The loop of [Block.FromProto] over the transactions of the message. *)
Fixpoint txsFromProto (vs : list T) (block : Block) : Block * option core.error :=
  match vs with
  | [] => (block, None)
  | v :: rest =>
      match tx_FromProto v with
      | inr err => (block, Some err)
      | inl tx =>
          txsFromProto rest (with_transactions (transactions block ++ [tx]) block)
      end
  end.

(** The zero value of [BlockHeader], which [new(BlockHeader)] returns. *)
Definition newBlockHeader : BlockHeader := {|
  hash := []; parentHash := []; stateRoot := []; txsRoot := [];
  eventsRoot := []; dposContext := Build_pbDposContext [] [] [] [] [] [];
  coinbase := {| address := [] |}; nonce := 0; timestamp := 0; chainID := 0;
  alg := 0; sign := []
|}.

(** [Block.FromProto]: the block after the call and the error.  [None] is
    the run-time panic of a [nil] header in the message. *)
Definition Block_FromProto (msg : Message T) (block : Block)
  : option (Block * option core.error) :=
  match msg with
  | MsgBlock msg =>
      let block := with_header newBlockHeader block in
      match pb_Header msg with
      | None => None
      | Some h =>
          match Header_FromProto (MsgBlockHeader h) (header block) with
          | (header, Some err) => Some (with_header header block, Some err)
          | (header, None) =>
              let block := with_header header block in
              match txsFromProto (pb_Transactions msg) block with
              | (block, Some err) => Some (block, Some err)
              | (block, None) =>
                  Some (with_height (pb_Height msg) block, None)
              end
          end
      end
  | _ => Some (block, Some ErrNotBlock)
  end.

(** [Block.Sign] *)
Definition Sign (signature : Signature) (block : Block)
  : Block * option core.error :=
  match sig_Sign signature (hash (header block)) with
  | inr err => (block, Some err)
  | inl sign =>
      let block :=
        with_header (set_alg (uint8 (sig_Algorithm signature)) (header block))
          block in
      let block := with_header (set_sign sign (header block)) block in
      (block, None)
  end.

(** The loop of [VerifyIntegrity] over the transactions. *)
Fixpoint verifyTxs (txs : list Transaction) (chainID : Z) : option core.error :=
  match txs with
  | [] => None
  | tx :: rest =>
      match tx_VerifyIntegrity tx chainID with
      | Some err => Some err
      | None => verifyTxs rest chainID
      end
  end.

(** [Block.VerifyIntegrity]; [fastVerify] is [consensus.FastVerifyBlock]. *)
Definition VerifyIntegrity (chainID : Z)
    (fastVerify : Block -> option core.error) (block : Block) : option error :=
  if negb (core.chainID (header block) =? chainID) then Some ErrInvalidChainID
  else
    let wantedHash := HashBlock block in
    if negb (byteutils.Equal wantedHash (Hash block))
    then Some ErrInvalidBlockHash
    else
      match verifyTxs (transactions block) (core.chainID (header block)) with
      | Some err => Some (ErrCore err)
      | None =>
          match fastVerify block with
          | Some err => Some (ErrCore err)
          | None => None
          end
      end.

(** [Block.GetBalance] and [Block.GetNonce]: the value, and the block, whose
    account state may have gained the account. *)
Definition GetBalance (address : bytes) (block : Block) : Z * Block :=
  let '(acc, st) := GetOrCreateUserAccount address (accState block) in
  (balance acc, with_accState st block).

Definition GetNonce (address : bytes) (block : Block) : Z * Block :=
  let '(acc, st) := GetOrCreateUserAccount address (accState block) in
  (acc_nonce acc, with_accState st block).

(** [Block.GetTransaction] *)
Definition GetTransaction (hash : bytes) (block : Block)
  : Transaction + core.error :=
  match Get hash (txsTrie block) with
  | inr err => inr err
  | inl txBytes =>
      match proto_Unmarshal_tx txBytes with
      | inr err => inr err
      | inl pbTx =>
          match tx_FromProto pbTx with
          | inr err => inr err
          | inl tx => inl tx
          end
      end
  end.

(** [Block.SerializeTxByHash] *)
Definition SerializeTxByHash (hash : bytes) (block : Block)
  : Message T + core.error :=
  match GetTransaction hash block with
  | inr err => inr err
  | inl tx => tx_ToProto tx
  end.

(** The zero value of [Block], which [new(Block)] returns: no header, no
    transactions, not sealed, height 0 and [nil] everywhere else.  The
    overlays and the three references stand for [nil]; whoever returns the
    block has assigned them. *)
Definition newBlock : Block :=
  let nilTrie : BatchTrie := {| content := ∅; saved := None |} in
  {| header := newBlockHeader;
     transactions := [];
     sealed := false;
     height := 0;
     parenetBlock := None;
     accState := {| content := ∅; saved := None |};
     txsTrie := nilTrie;
     eventsTrie := nilTrie;
     dposCtx := Build_DposContext nilTrie nilTrie nilTrie nilTrie nilTrie nilTrie;
     txPool := 1%positive;
     miner := None;
     storage := 1%positive;
     eventEmitter := 1%positive |}.

(** [LoadBlockFromStorage]: the block (or [nil]) and the error (or [nil]).
    [storage] is the identity of the storage and [store] its state.  The
    outer [None] is the panic of [Block.FromProto]. *)
Definition LoadBlockFromStorage (hash : bytes) (storage : positive) (store : S)
    (txPool eventEmitter : positive)
  : option (option Block * option core.error) :=
  match storage_Get hash store with
  | inr err => Some (None, Some err)
  | inl value =>
  let block := newBlock in
  match proto_Unmarshal_block value with
  | inr err => Some (None, Some err)
  | inl pbBlock =>
  match Block_FromProto (MsgBlock pbBlock) block with
  | None => None
  | Some (_, Some err) => Some (None, Some err)
  | Some (block, None) =>
  match NewAccountState (StateRoot block) store with
  | inr err => Some (None, Some err)
  | inl accState =>
  let block := with_accState accState block in
  match NewBatchTrie (TxsRoot block) store with
  | inr err => Some (None, Some err)
  | inl txsTrie =>
  let block := with_txsTrie txsTrie block in
  match NewBatchTrie (EventsRoot block) store with
  | inr err => Some (None, Some err)
  | inl eventsTrie =>
  let block := with_eventsTrie eventsTrie block in
  match NewDposContext store with
  | inr err => Some (None, Some err)
  | inl dposContext =>
  let err : option core.error := None in
  let block := with_dposCtx dposContext block in
  match dpos_FromProto (core.dposContext (header block)) (dposCtx block) with
  | (_, Some _) => Some (None, err)
  | (dposContext, None) =>
      let block := with_dposCtx dposContext block in
      let block := with_txPool txPool block in
      let block := with_storage storage block in
      let block := with_sealed true block in
      let block := with_eventEmitter eventEmitter block in
      Some (Some block, None)
  end end end end end end end end.

(** [Block.ParentBlock] *)
Definition ParentBlock (block : Block) (store : S)
  : option (option Block * option error) :=
  match parenetBlock block with
  | Some parent => Some (Some parent, None)
  | None =>
      match LoadBlockFromStorage (ParentHash block) (storage block) store
              (txPool block) (eventEmitter block) with
      | None => None
      | Some (_, Some _) => Some (None, Some ErrMissingParentBlock)
      | Some (parentBlock, None) => Some (parentBlock, None)
      end
  end.

(** The key under which [recordEvent] stores the [cnt]-th event of a
    transaction. *)
Definition eventKey (txHash : bytes) (cnt : Z) : bytes :=
  txHash ++ byteutils.FromInt64 cnt.

(** [recordEvent] for each event of a list, in order, up to the first
    error. *)
Fixpoint recordAll (txHash : bytes) (events : list Event) (block : Block)
  : Block * option core.error :=
  match events with
  | [] => (block, None)
  | event :: rest =>
      match recordEvent txHash event block with
      | (block, Some err) => (block, Some err)
      | (block, None) => recordAll txHash rest block
      end
  end.

(** The entries that [Iterator] walks for a prefix, in its order. *)
Definition walked (prefix : bytes) (m : TrieData) : list (bytes * bytes) :=
  merge_sort entry_le
    (filter (fun kv => is_prefix prefix (fst kv) = true) (map_to_list m)).

(** The fields of a block outside its four overlays. *)
Definition blockShell (block : Block) :=
  (header block, transactions block, sealed block, height block,
   parenetBlock block, (txPool block, miner block, storage block,
   eventEmitter block)).

(** The account of [addr] as the account state holds it, the empty account
    when it holds none. *)
Definition accountOf (addr : bytes) (block : Block) : Account :=
  default newAccount (content (accState block) !! addr).

(** The assignments with which [Seal] ends: the roots of the overlays, the
    hash and the sealed flag. *)
Definition sealHeader (block : Block) : Block :=
  let block :=
    with_header (set_stateRoot (acc_RootHash (accState block)) (header block))
      block in
  let block :=
    with_header (set_txsRoot (RootHash (txsTrie block)) (header block))
      block in
  let block :=
    with_header (set_eventsRoot (RootHash (eventsTrie block)) (header block))
      block in
  let block :=
    with_header (set_dposContext (dpos_ToProto (dposCtx block)) (header block))
      block in
  let block := with_header (set_hash (HashBlock block) (header block)) block in
  with_sealed true block.

(** The block on which [recordMintCnt] has stored the count [cnt] under
    [key]. *)
Definition minted (key : bytes) (cnt : Z) (block : Block) : Block :=
  with_dposCtx
    (with_mintCntTrie
       (Put key (byteutils.FromInt64 cnt) (mintCntTrie (dposCtx block)))
       (dposCtx block)) block.

(** The number that [recordMintCnt] has stored under a key of the mint
    count trie, 0 when there is none. *)
Definition mintCount (key : bytes) (block : Block) : Z :=
  match Get key (mintCntTrie (dposCtx block)) with
  | inl data => Int64 data
  | inr _ => 0
  end.

(** The key under which [recordMintCnt] counts the blocks of a miner in the
    dynasty of a timestamp. *)
Definition mintKey (timestamp : Z) (m : Address) : bytes :=
  byteutils.FromInt64 (int64 (Z.quot timestamp DynastyInterval)) ++ Bytes m.

End Conversions.
End blockio.

(** ** A store for the small chain *)

Module store.
Import core blockio sample.

(** The header of the genesis block as a message, and the genesis block with
    [callTx] as a stored block; a second stored block whose DPoS context has a
    dynasty root. *)
Definition genesisHeader : pbBlockHeader := {|
  pb_Hash := list_byte_of_string "genesis";
  pb_ParentHash := []; pb_StateRoot := []; pb_TxsRoot := [];
  pb_EventsRoot := [];
  pb_DposContext := Build_pbDposContext [] [] [] [] [] [];
  pb_Nonce := 0; pb_Coinbase := list_byte_of_string "alice";
  pb_Timestamp := 0; pb_ChainId := 100; pb_Alg := 0; pb_Sign := []
|}.

Definition rootedHeader : pbBlockHeader := {|
  pb_Hash := list_byte_of_string "rooted";
  pb_ParentHash := []; pb_StateRoot := []; pb_TxsRoot := [];
  pb_EventsRoot := [];
  pb_DposContext := Build_pbDposContext [x01] [] [] [] [] [];
  pb_Nonce := 0; pb_Coinbase := list_byte_of_string "alice";
  pb_Timestamp := 0; pb_ChainId := 100; pb_Alg := 0; pb_Sign := []
|}.

Definition storedGenesis : pbBlock Transaction :=
  {| pb_Header := Some genesisHeader; pb_Transactions := [callTx];
     pb_Height := 0 |}.

Definition storedRooted : pbBlock Transaction :=
  {| pb_Header := Some rootedHeader; pb_Transactions := []; pb_Height := 5 |}.

(** Transactions are their own messages; the stored bytes of a transaction
    are its hash, and only [callTx] is known by its hash. *)
#[export] Instance txProto : TxProto Transaction := {|
  tx_ToProto := fun tx => inl (MsgTransaction tx);
  tx_FromProto := fun v => inl v;
  tx_VerifyIntegrity := fun tx chainID => None;
  proto_Unmarshal_tx := fun b =>
    if decide (b = tx_hash callTx) then inl callTx
    else inr (ErrOther "unexpected EOF");
  proto_Unmarshal_block := fun b =>
    if decide (b = list_byte_of_string "block:genesis") then inl storedGenesis
    else if decide (b = list_byte_of_string "block:rooted") then inl storedRooted
    else inr (ErrOther "unexpected EOF")
|}.

Definition emptyDpos : DposContext :=
  Build_DposContext emptyTrie emptyTrie emptyTrie emptyTrie emptyTrie emptyTrie.

(** A key-value store; a DPoS context cannot be rebuilt from an empty
    dynasty root. *)
#[export] Instance kv : Storage (gmap bytes bytes) := {|
  storage_Get := fun key s =>
    match s !! key with
    | Some v => inl v
    | None => inr ErrKeyNotFound
    end;
  NewAccountState := fun root s => inl emptyAccounts;
  NewBatchTrie := fun root s => inl emptyTrie;
  NewDposContext := fun s => inl emptyDpos;
  dpos_FromProto := fun pb d =>
    if decide (DynastyRoot pb = []) then (d, Some (ErrOther "empty dynasty root"))
    else (d, None)
|}.

Definition disk : gmap bytes bytes :=
  {[ list_byte_of_string "genesis" := list_byte_of_string "block:genesis";
     list_byte_of_string "rooted" := list_byte_of_string "block:rooted" ]}.

(** A signer that appends one byte to what it signs. *)
Definition signer : Signature :=
  {| sig_Sign := fun h => inl (h ++ [x01]); sig_Algorithm := 1 |}.

(** A block without parent pointer whose parent hash names the stored
    genesis block. *)
Definition orphan : Block :=
  with_header
    (Build_BlockHeader [] (list_byte_of_string "genesis") [] [] []
       (Build_pbDposContext [] [] [] [] [] []) alice 0 0 100 0 [])
    newBlock.

(** A consensus that refuses every block. *)
Definition rejectAll (block parent : Block) : option core.error :=
  Some (ErrOther "rejected").

End store.

(** * Properties *)

(** ** Bytes and big-endian encodings *)

Lemma byte_val_range (b : byte) : 0 <= byte_val b < 256.
Proof.
  unfold byte_val. pose proof (Byte.to_N_bounded b) as H. lia.
Qed.

Lemma byte_of_Z_val (b : byte) : byte_of_Z (byte_val b) = b.
Proof.
  unfold byte_of_Z. pose proof (byte_val_range b) as H.
  rewrite Z.mod_small by lia. unfold byte_val.
  now rewrite N2Z.id, Byte.of_to_N.
Qed.

Lemma byte_val_of_Z (z : Z) : byte_val (byte_of_Z z) = z mod 256.
Proof.
  unfold byte_of_Z, byte_val.
  pose proof (Z.mod_pos_bound z 256 ltac:(lia)) as H.
  destruct (Byte.of_N (Z.to_N (z mod 256))) as [b|] eqn:E.
  - apply Byte.to_of_N in E. cbn. rewrite E. lia.
  - apply Byte.of_N_None_iff in E. lia.
Qed.

Lemma byte_val_inj (a b : byte) : byte_val a = byte_val b -> a = b.
Proof.
  intros H. rewrite <- (byte_of_Z_val a), <- (byte_of_Z_val b). now rewrite H.
Qed.

Lemma be_value_app (a b : bytes) :
  byteutils.be_value (a ++ b) =
  fold_left (fun acc x => acc * 256 + byte_val x) b (byteutils.be_value a).
Proof. unfold byteutils.be_value. now rewrite fold_left_app. Qed.

Lemma be_digits_length (n : nat) (v : Z) : length (byteutils.be_digits n v) = n.
Proof.
  revert v. induction n as [|n IH]; intros v; cbn; [reflexivity|].
  rewrite length_app, IH. cbn. lia.
Qed.

Lemma be_value_digits (n : nat) (v : Z) :
  0 <= v < 256 ^ Z.of_nat n ->
  byteutils.be_value (byteutils.be_digits n v) = v.
Proof.
  revert v. induction n as [|n IH]; intros v Hv.
  - cbn in *. unfold byteutils.be_value. cbn. lia.
  - cbn [byteutils.be_digits]. rewrite be_value_app. cbn.
    rewrite Nat2Z.inj_succ, Z.pow_succ_r in Hv by lia.
    rewrite IH, byte_val_of_Z.
    + pose proof (Z.div_mod v 256 ltac:(lia)). lia.
    + split; [apply Z.div_pos; lia|].
      apply Z.div_lt_upper_bound; lia.
Qed.

Lemma Uint32_FromUint32 (v : Z) :
  byteutils.Uint32 (byteutils.FromUint32 v) = v mod 2 ^ 32.
Proof.
  unfold byteutils.Uint32, byteutils.FromUint32.
  rewrite take_ge by (rewrite be_digits_length; lia).
  apply be_value_digits.
  change (256 ^ Z.of_nat 4) with (2 ^ 32).
  apply Z.mod_pos_bound. lia.
Qed.

Lemma FromUint32_length (v : Z) : length (byteutils.FromUint32 v) = 4%nat.
Proof. apply be_digits_length. Qed.

(** The check value of the CRC-32 catalogue: the checksum of the ASCII
    digits [123456789]. *)
Example crc32_check_value :
  crc32.ChecksumIEEE (list_byte_of_string "123456789") = 0xCBF43926.
Proof. vm_compute. reflexivity. Qed.

(** ** CRC-32 *)

Section Crc32Facts.

Import crc32.

Lemma below_pow2_testbit (x : Z) (n : Z) :
  0 <= n -> 0 <= x ->
  (forall i, n <= i -> Z.testbit x i = false) -> x < 2 ^ n.
Proof.
  intros Hn Hx Hbits.
  destruct (Z.eq_dec x 0) as [->|Hne]; [apply Z.pow_pos_nonneg; lia|].
  apply Z.log2_lt_pow2; [lia|].
  destruct (Z.lt_ge_cases (Z.log2 x) n) as [Hlt|Hge]; [exact Hlt|].
  specialize (Hbits _ Hge). rewrite Z.bit_log2 in Hbits by lia. discriminate.
Qed.

Lemma testbit_above (x n i : Z) :
  0 <= x < 2 ^ n -> n <= i -> Z.testbit x i = false.
Proof.
  intros [Hx Hlt] Hi.
  destruct (Z.eq_dec x 0) as [->|Hne]; [apply Z.bits_0|].
  apply Z.bits_above_log2; [lia|].
  assert (0 <= n).
  { destruct (Z.lt_ge_cases n 0) as [Hneg|]; [|lia].
    rewrite Z.pow_neg_r in Hlt by lia. lia. }
  apply Z.lt_le_trans with n; [|lia].
  apply Z.log2_lt_pow2; lia.
Qed.

Lemma lxor_below (a b n : Z) :
  0 <= n -> 0 <= a < 2 ^ n -> 0 <= b < 2 ^ n -> 0 <= Z.lxor a b < 2 ^ n.
Proof.
  intros Hn Ha Hb.
  assert (0 <= Z.lxor a b) by (apply Z.lxor_nonneg; lia).
  split; [lia|].
  apply below_pow2_testbit; [lia..|].
  intros i Hi. rewrite Z.lxor_spec.
  rewrite (testbit_above a n i), (testbit_above b n i) by lia. reflexivity.
Qed.

Lemma lxor_cancel_l (a b c : Z) : Z.lxor a b = Z.lxor a c -> b = c.
Proof.
  intros H. apply (f_equal (Z.lxor a)) in H.
  now rewrite <- !Z.lxor_assoc, Z.lxor_nilpotent, !Z.lxor_0_l in H.
Qed.

Lemma lxor_cancel_r (a b c : Z) : Z.lxor b a = Z.lxor c a -> b = c.
Proof. rewrite !(Z.lxor_comm _ a). apply lxor_cancel_l. Qed.

Lemma indices_spec (i : Z) : 0 <= i < 256 -> In i indices.
Proof.
  intros H. apply list_elem_of_In. unfold indices. apply elem_of_seqZ. lia.
Qed.

Lemma table_in_range_check : forallb entry_in_range indices = true.
Proof. vm_compute. reflexivity. Qed.

Lemma table_top_byte_inj_check :
  forallb (fun i => forallb (top_byte_differs i) indices) indices = true.
Proof. vm_compute. reflexivity. Qed.

Lemma forallb_indices (P : Z -> bool) (i : Z) :
  forallb P indices = true -> 0 <= i < 256 -> P i = true.
Proof.
  intros E Hi. rewrite forallb_forall in E. apply E, indices_spec, Hi.
Qed.

Lemma table_range (i : Z) : 0 <= i < 256 -> u32 (table i).
Proof.
  intros Hi.
  pose proof (forallb_indices _ i table_in_range_check Hi) as E.
  unfold entry_in_range in E. unfold u32. lia.
Qed.

Lemma table_top_byte_inj (i j : Z) :
  0 <= i < 256 -> 0 <= j < 256 ->
  Z.shiftr (table i) 24 = Z.shiftr (table j) 24 -> i = j.
Proof.
  intros Hi Hj Heq.
  assert (E : top_byte_differs i j = true).
  { apply (forallb_indices (top_byte_differs i) j); [|exact Hj].
    apply (forallb_indices
             (fun i => forallb (top_byte_differs i) indices) i);
      [|exact Hi].
    exact table_top_byte_inj_check. }
  unfold top_byte_differs in E.
  apply orb_true_iff in E as [E|E]; [lia|].
  rewrite Heq, Z.eqb_refl in E. discriminate.
Qed.

Lemma table_inj (i j : Z) :
  0 <= i < 256 -> 0 <= j < 256 -> table i = table j -> i = j.
Proof. intros Hi Hj E. apply table_top_byte_inj; congruence. Qed.

Lemma land_255_range (x : Z) : 0 <= Z.land x 255 < 256.
Proof.
  change 255 with (Z.ones 8). rewrite Z.land_ones by lia.
  apply Z.mod_pos_bound. lia.
Qed.

Lemma index_range (crc : Z) (v : byte) :
  0 <= Z.lxor (Z.land crc 255) (byte_val v) < 256.
Proof.
  change 256 with (2 ^ 8). apply lxor_below; [lia| |].
  - apply land_255_range.
  - apply byte_val_range.
Qed.

Lemma shiftr8_range (crc : Z) : u32 crc -> 0 <= Z.shiftr crc 8 < 2 ^ 24.
Proof.
  unfold u32. intros H. rewrite Z.shiftr_div_pow2 by lia. split.
  - apply Z.div_pos; lia.
  - apply Z.div_lt_upper_bound; lia.
Qed.

Lemma update_byte_range (crc : Z) (v : byte) :
  u32 crc -> u32 (update_byte crc v).
Proof.
  intros H. unfold update_byte, u32. apply lxor_below; [lia| |].
  - apply table_range, index_range.
  - pose proof (shiftr8_range crc H). lia.
Qed.

Lemma fold_update_range (p : bytes) (crc : Z) :
  u32 crc -> u32 (fold_left update_byte p crc).
Proof.
  revert crc. induction p as [|v p IH]; intros crc H; cbn; [exact H|].
  apply IH, update_byte_range, H.
Qed.

Lemma not32_range (crc : Z) : u32 crc -> u32 (not32 crc).
Proof.
  intros H. unfold not32, u32. apply lxor_below; [lia|exact H|lia].
Qed.

Lemma ChecksumIEEE_range (data : bytes) : u32 (ChecksumIEEE data).
Proof.
  unfold ChecksumIEEE, Update. apply not32_range, fold_update_range.
  vm_compute. split; [discriminate|reflexivity].
Qed.

(** For a fixed register the update is injective in the input byte. *)
Lemma update_byte_inj_byte (crc : Z) (v w : byte) :
  update_byte crc v = update_byte crc w -> v = w.
Proof.
  unfold update_byte. intros H. apply lxor_cancel_r in H.
  apply table_inj in H; try apply index_range.
  apply lxor_cancel_l in H. now apply byte_val_inj.
Qed.

(** For a fixed input byte the update is injective in the register. *)
Lemma update_byte_inj_crc (c d : Z) (v : byte) :
  u32 c -> u32 d -> update_byte c v = update_byte d v -> c = d.
Proof.
  intros Hc Hd H. unfold update_byte in H.
  assert (Hidx : Z.lxor (Z.land c 255) (byte_val v) =
                 Z.lxor (Z.land d 255) (byte_val v)).
  { apply table_top_byte_inj; try apply index_range.
    apply (f_equal (fun x => Z.shiftr x 24)) in H.
    rewrite !Z.shiftr_lxor, !Z.shiftr_shiftr in H by lia.
    change (8 + 24) with 32 in H.
    rewrite (Z.shiftr_div_pow2 c 32), (Z.shiftr_div_pow2 d 32) in H by lia.
    unfold u32 in Hc, Hd.
    rewrite (Z.div_small c), (Z.div_small d), !Z.lxor_0_r in H by lia.
    exact H. }
  rewrite Hidx in H. apply lxor_cancel_l in H.
  apply lxor_cancel_r in Hidx.
  change 255 with (Z.ones 8) in Hidx. rewrite !Z.land_ones in Hidx by lia.
  rewrite !Z.shiftr_div_pow2 in H by lia.
  change (2 ^ 8) with 256 in *.
  pose proof (Z.div_mod c 256 ltac:(lia)).
  pose proof (Z.div_mod d 256 ltac:(lia)). lia.
Qed.

Lemma fold_update_inj (p : bytes) (c d : Z) :
  u32 c -> u32 d ->
  fold_left update_byte p c = fold_left update_byte p d -> c = d.
Proof.
  revert c d. induction p as [|v p IH]; intros c d Hc Hd H; cbn in H.
  - exact H.
  - apply IH in H; try (apply update_byte_range; assumption).
    eapply update_byte_inj_crc; eassumption.
Qed.

(** CRC-32 tells apart two messages that differ in exactly one byte. *)
Lemma ChecksumIEEE_single_byte (pre suf : bytes) (b b' : byte) :
  b <> b' ->
  ChecksumIEEE (pre ++ b :: suf) <> ChecksumIEEE (pre ++ b' :: suf).
Proof.
  intros Hne H. unfold ChecksumIEEE, Update, not32 in H.
  apply lxor_cancel_r in H.
  rewrite !fold_left_app in H. cbn [fold_left] in H.
  assert (H0 : u32 (fold_left update_byte pre (Z.lxor 0 4294967295))).
  { apply fold_update_range. vm_compute. split; [discriminate|reflexivity]. }
  apply fold_update_inj in H; try (apply update_byte_range; exact H0).
  apply update_byte_inj_byte in H. contradiction.
Qed.

End Crc32Facts.

Example parse_hello :
  let cfg := {| p2p.ChainID := 100; p2p.nodeVersion := x00 |} in
  let payload := list_byte_of_string "abc" in
  (exists p, p2p.parse cfg (p2p.buildData cfg payload "hello") = (inl p, [])
             /\ p2p.msgName p = "hello"%string /\ p2p.data p = payload).
Proof. eexists. vm_compute. repeat split. Qed.

(** ** The wire framer *)

Section Framer.

Import p2p.

Lemma copy_at_app (a z src : bytes) (off : nat) :
  length a = off -> (length src <= length z)%nat ->
  copy_at (a ++ z) off src = a ++ src ++ drop (length src) z.
Proof.
  intros <- Hle. unfold copy_at.
  rewrite length_app.
  replace (length a + length z - length a)%nat with (length z) by lia.
  rewrite Nat.min_r by lia.
  rewrite take_app_length, firstn_all, drop_app_add. reflexivity.
Qed.

Lemma FromUint32_cons (v : Z) :
  exists a b c d, byteutils.FromUint32 v = [a; b; c; d].
Proof. unfold byteutils.FromUint32. cbn. eauto. Qed.

Lemma name_field_length (name : string) :
  wire_name name -> length (name_field name) = 12%nat.
Proof.
  intros [H _]. unfold name_field. rewrite length_app, length_replicate. lia.
Qed.

Lemma buildHeader_layout (c : Z) (name : string) (v : byte) (dl dc : Z) :
  wire_name name ->
  buildHeader c name v dl dc [x00] =
  MagicNumber ++ byteutils.FromUint32 c ++ [x00; x00; x00; v] ++
  name_field name ++ byteutils.FromUint32 dl ++ byteutils.FromUint32 dc.
Proof.
  intros [Hlen _]. unfold buildHeader, name_field.
  destruct (FromUint32_cons c) as (c0 & c1 & c2 & c3 & ->).
  destruct (FromUint32_cons dl) as (l0 & l1 & l2 & l3 & ->).
  destruct (FromUint32_cons dc) as (d0 & d1 & d2 & d3 & ->).
  set (nb := list_byte_of_string name) in *.
  cbn [copy_at offsetThirtyTwo offsetFour offsetEight offsetEleven replicate
       MagicNumber length Nat.sub Nat.min take drop app Nat.add].
  set (P12 := ["N"%byte; "E"%byte; "B"%byte; "1"%byte; c0; c1; c2; c3;
               x00; x00; x00; v]).
  change (copy_at _ offsetTwelve nb) with
    (copy_at (P12 ++ replicate 20 x00) 12 nb).
  rewrite copy_at_app by (rewrite ?length_replicate; cbn; lia).
  rewrite drop_replicate.
  replace (20 - length nb)%nat with ((12 - length nb) + 8)%nat by lia.
  rewrite replicate_add.
  set (fld := replicate (12 - length nb) x00).
  assert (Hfld : (length nb + length fld = 12)%nat).
  { subst fld. rewrite length_replicate. lia. }
  rewrite (app_assoc nb fld), (app_assoc P12 (nb ++ fld)).
  rewrite copy_at_app;
    [|rewrite !length_app; subst P12; unfold offsetTwentyFour;
      cbn [length]; lia|cbn; lia].
  cbn [length drop replicate].
  rewrite (app_assoc (P12 ++ nb ++ fld) [l0; l1; l2; l3]).
  rewrite copy_at_app;
    [|rewrite !length_app; subst P12; unfold offsetTwentyEight;
      cbn [length]; lia|cbn; lia].
  cbn [length drop]. subst P12. rewrite <- !app_assoc. reflexivity.
Qed.

Lemma IndexByte_absent (s : bytes) (c : byte) :
  ~ In c s -> IndexByte s c = -1.
Proof.
  induction s as [|b s IH]; intros Hn; cbn; [reflexivity|].
  destruct (decide (b = c)) as [->|Hne]; [exfalso; apply Hn; now left|].
  rewrite IH by (intros Hin; apply Hn; now right). reflexivity.
Qed.

Lemma IndexByte_nonneg_or_absent (s : bytes) (c : byte) :
  IndexByte s c = -1 \/ 0 <= IndexByte s c.
Proof.
  induction s as [|b s IH]; cbn; [now left|].
  destruct (decide (b = c)); [right; lia|].
  destruct (IndexByte s c =? -1) eqn:E; [now left|right].
  apply Z.eqb_neq in E. lia.
Qed.

Lemma IndexByte_first (s t : bytes) (c : byte) :
  ~ In c s -> IndexByte (s ++ c :: t) c = Z.of_nat (length s).
Proof.
  induction s as [|b s IH]; intros Hn; cbn [app IndexByte length].
  - destruct (decide (c = c)); [reflexivity|congruence].
  - destruct (decide (b = c)) as [->|Hne]; [exfalso; apply Hn; now left|].
    rewrite IH by (intros Hin; apply Hn; now right).
    destruct (Z.of_nat (length s) =? -1) eqn:E; [apply Z.eqb_eq in E; lia|].
    lia.
Qed.

(** The name decoding of [parse] applied to a name field. *)
Lemma name_field_decode (name : string) :
  wire_name name ->
  (if negb (IndexByte (name_field name) x00 =? -1)
   then string_of_list_byte
          (slice (name_field name) 0
             (Z.to_nat (IndexByte (name_field name) x00)))
   else string_of_list_byte (name_field name)) = name.
Proof.
  intros [Hlen Hnul]. unfold name_field.
  set (nb := list_byte_of_string name) in *.
  destruct (decide (length nb = 12%nat)) as [E|E].
  - rewrite E. cbn [Nat.sub replicate]. rewrite app_nil_r.
    rewrite IndexByte_absent by exact Hnul. cbn.
    apply string_of_list_byte_of_string.
  - destruct (12 - length nb)%nat as [|k] eqn:Ek; [lia|].
    cbn [replicate]. rewrite IndexByte_first by exact Hnul.
    destruct (Z.of_nat (length nb) =? -1) eqn:E1; [apply Z.eqb_eq in E1; lia|].
    cbn [negb]. rewrite Nat2Z.id. unfold slice.
    rewrite Nat.sub_0_r, drop_0, take_app_length.
    apply string_of_list_byte_of_string.
Qed.

Lemma header_slices (p12 nf tl : bytes) :
  length p12 = 12%nat -> length nf = 12%nat -> length tl = 12%nat ->
  let header := p12 ++ nf ++ tl in
  slice header 0 offsetFour = take 4 p12 /\
  slice header offsetFour offsetEight = take 4 (drop 4 p12) /\
  slice header offsetEight offsetEleven = take 3 (drop 8 p12) /\
  header !! offsetEleven = p12 !! 11%nat /\
  slice header offsetTwelve offsetTwentyFour = nf /\
  slice header offsetTwentyFour offsetTwentyEight = take 4 tl /\
  slice header offsetTwentyEight offsetThirtyTwo = take 4 (drop 4 tl) /\
  slice header 0 offsetThirtyTwo = p12 ++ nf ++ take 8 tl /\
  slice header offsetThirtyTwo offsetThirtySix = drop 8 tl.
Proof.
  intros Hp Hn Ht header. subst header. unfold slice.
  do 12 (destruct p12 as [|? p12]; [discriminate|]).
  destruct p12; [|discriminate].
  do 12 (destruct tl as [|? tl]; [discriminate|]).
  destruct tl; [|discriminate].
  cbn [offsetFour offsetEight offsetEleven offsetTwelve offsetTwentyFour
       offsetTwentyEight offsetThirtyTwo offsetThirtySix Nat.sub app drop take
       lookup list_lookup].
  repeat split.
  - rewrite drop_0. now rewrite take_app_length'.
  - rewrite drop_app_length' by (symmetry; exact Hn). reflexivity.
  - rewrite (drop_app_add' nf _ 12 4) by (symmetry; exact Hn). reflexivity.
  - do 12 f_equal. rewrite (take_app_add' nf _ 12 8) by (symmetry; exact Hn). reflexivity.
  - rewrite (drop_app_add' nf _ 12 8) by (symmetry; exact Hn). reflexivity.
Qed.

Lemma buildData_split (cfg : FramerConfig) (D : bytes) (name : string) :
  buildData cfg D name =
  (header_of cfg D name ++
   byteutils.FromUint32 (crc32.ChecksumIEEE (header_of cfg D name))) ++ D.
Proof. reflexivity. Qed.

Lemma header_of_length (cfg : FramerConfig) (D : bytes) (name : string) :
  wire_name name -> length (header_of cfg D name) = 32%nat.
Proof.
  intros Hn. unfold header_of. rewrite buildHeader_layout by exact Hn.
  rewrite !length_app, !FromUint32_length, name_field_length by exact Hn.
  reflexivity.
Qed.

Lemma ReadBytes_app (a rest : bytes) (n : Z) :
  Z.of_nat (length a) = n ->
  ReadBytes (a ++ rest) n = (a, None, rest).
Proof.
  intros <-. unfold ReadBytes. rewrite Nat2Z.id.
  destruct (decide (length a <= length (a ++ rest))%nat) as [_|Hn].
  - now rewrite take_app_length, drop_app_length.
  - rewrite length_app in Hn. lia.
Qed.

(** What [parse] does on the 36 header bytes of a frame for [D] followed
    by a payload of the same length and the rest of the stream. *)
Lemma parse_frame (cfg : FramerConfig) (D D' rest : bytes) (name : string) :
  wire_name name -> u32 (ChainID cfg) -> Z.of_nat (length D) < 2 ^ 32 ->
  length D' = length D ->
  parse cfg ((header_of cfg D name ++
              byteutils.FromUint32 (crc32.ChecksumIEEE (header_of cfg D name)))
             ++ D' ++ rest) =
  (if crc32.ChecksumIEEE D' =? crc32.ChecksumIEEE D
   then inl (parsed cfg D name D') else inr ErrDataChecksum, rest).
Proof.
  intros Hname Hcid Hlen HD'. unfold parse. cbv zeta.
  pose proof (header_of_length cfg D name Hname) as Hh32.
  rewrite ReadBytes_app
    by (rewrite length_app, Hh32, FromUint32_length; reflexivity).
  set (hc := byteutils.FromUint32 (crc32.ChecksumIEEE (header_of cfg D name))).
  assert (Hlay : header_of cfg D name ++ hc =
            (MagicNumber ++ byteutils.FromUint32 (ChainID cfg) ++
               [x00; x00; x00; nodeVersion cfg]) ++
            name_field name ++
            (byteutils.FromUint32 (uint32 (Z.of_nat (length D))) ++
             byteutils.FromUint32 (crc32.ChecksumIEEE D) ++ hc)).
  { unfold header_of at 1. rewrite buildHeader_layout by exact Hname.
    rewrite <- !app_assoc. reflexivity. }
  assert (Hsl := header_slices
    (MagicNumber ++ byteutils.FromUint32 (ChainID cfg) ++
       [x00; x00; x00; nodeVersion cfg])
    (name_field name)
    (byteutils.FromUint32 (uint32 (Z.of_nat (length D))) ++
       byteutils.FromUint32 (crc32.ChecksumIEEE D) ++ hc)).
  rewrite <- Hlay in Hsl. cbv zeta in Hsl.
  destruct Hsl as (S1 & S2 & S3 & S4 & S5 & S6 & S7 & S8 & S9).
  { rewrite !length_app, FromUint32_length. reflexivity. }
  { apply name_field_length, Hname. }
  { subst hc. rewrite !length_app, !FromUint32_length. reflexivity. }
  rewrite S1, S2, S3, S4, S5, S6, S7, S8, S9.
  rewrite (name_field_decode name Hname).
  assert (T1 : take 4 (MagicNumber ++ byteutils.FromUint32 (ChainID cfg) ++
                       [x00; x00; x00; nodeVersion cfg]) = MagicNumber)
    by reflexivity.
  assert (T2 : take 4 (drop 4 (MagicNumber ++ byteutils.FromUint32 (ChainID cfg) ++
                       [x00; x00; x00; nodeVersion cfg])) =
               byteutils.FromUint32 (ChainID cfg)).
  { destruct (FromUint32_cons (ChainID cfg)) as (a & b & c & d & ->).
    reflexivity. }
  assert (T3 : take 3 (drop 8 (MagicNumber ++ byteutils.FromUint32 (ChainID cfg) ++
                       [x00; x00; x00; nodeVersion cfg])) = [x00; x00; x00]).
  { destruct (FromUint32_cons (ChainID cfg)) as (a & b & c & d & ->).
    reflexivity. }
  assert (T4 : (MagicNumber ++ byteutils.FromUint32 (ChainID cfg) ++
                [x00; x00; x00; nodeVersion cfg]) !! 11%nat =
               Some (nodeVersion cfg)).
  { destruct (FromUint32_cons (ChainID cfg)) as (a & b & c & d & ->).
    reflexivity. }
  assert (T5 : take 4 (byteutils.FromUint32 (uint32 (Z.of_nat (length D))) ++
                 byteutils.FromUint32 (crc32.ChecksumIEEE D) ++ hc) =
               byteutils.FromUint32 (uint32 (Z.of_nat (length D))))
    by (apply take_app_length'; rewrite FromUint32_length; reflexivity).
  assert (T6 : take 4 (drop 4
                (byteutils.FromUint32 (uint32 (Z.of_nat (length D))) ++
                 byteutils.FromUint32 (crc32.ChecksumIEEE D) ++ hc)) =
               byteutils.FromUint32 (crc32.ChecksumIEEE D)).
  { rewrite drop_app_length' by (rewrite FromUint32_length; reflexivity).
    apply take_app_length'. rewrite FromUint32_length. reflexivity. }
  assert (T7 : (MagicNumber ++ byteutils.FromUint32 (ChainID cfg) ++
                  [x00; x00; x00; nodeVersion cfg]) ++ name_field name ++
               take 8 (byteutils.FromUint32 (uint32 (Z.of_nat (length D))) ++
                 byteutils.FromUint32 (crc32.ChecksumIEEE D) ++ hc) =
               header_of cfg D name).
  { unfold header_of. rewrite buildHeader_layout by exact Hname.
    rewrite (app_assoc (byteutils.FromUint32 (uint32 (Z.of_nat (length D))))
               (byteutils.FromUint32 (crc32.ChecksumIEEE D)) hc).
    rewrite take_app_length'
      by (rewrite length_app, !FromUint32_length; reflexivity).
    rewrite <- !app_assoc. reflexivity. }
  assert (T8 : drop 8 (byteutils.FromUint32 (uint32 (Z.of_nat (length D))) ++
                 byteutils.FromUint32 (crc32.ChecksumIEEE D) ++ hc) = hc).
  { rewrite app_assoc. apply drop_app_length'.
    rewrite length_app, !FromUint32_length. reflexivity. }
  rewrite T1, T2, T3, T4, T5, T6, T7, T8. clear T1 T2 T3 T4 T5 T6 T7 T8.
  unfold verifyHeader. cbn [magicNumber chainID version headerChecksum
    dataHeader dataLength dataChecksum msgName reserved data default].
  unfold byteutils.Equal. rewrite bool_decide_eq_true_2 by reflexivity.
  rewrite Uint32_FromUint32, (Z.mod_small (ChainID cfg)) by exact Hcid.
  rewrite Z.eqb_refl, bool_decide_eq_true_2 by reflexivity.
  subst hc. rewrite Uint32_FromUint32.
  rewrite (Z.mod_small (crc32.ChecksumIEEE (header_of cfg D name)))
    by apply ChecksumIEEE_range.
  rewrite Z.eqb_refl. cbn [negb].
  assert (Hdl : byteutils.Uint32
                  (byteutils.FromUint32 (uint32 (Z.of_nat (length D)))) =
                Z.of_nat (length D)).
  { rewrite Uint32_FromUint32. unfold uint32. rewrite Z.mod_mod by lia.
    apply Z.mod_small. lia. }
  rewrite Hdl. rewrite ReadBytes_app by (now rewrite HD').
  rewrite Uint32_FromUint32.
  rewrite (Z.mod_small (crc32.ChecksumIEEE D)) by apply ChecksumIEEE_range.
  unfold parsed.
  destruct (crc32.ChecksumIEEE D' =? crc32.ChecksumIEEE D); reflexivity.
Qed.

Lemma be_value_bound (l : bytes) :
  0 <= byteutils.be_value l < 256 ^ Z.of_nat (length l).
Proof.
  induction l as [|b l IH] using rev_ind.
  - cbn. lia.
  - rewrite be_value_app, length_app. cbn [fold_left length].
    rewrite Nat2Z.inj_add. change (Z.of_nat 1) with 1.
    rewrite Z.pow_add_r by lia. pose proof (byte_val_range b). lia.
Qed.

Lemma Uint32_range (x : bytes) : u32 (byteutils.Uint32 x).
Proof.
  unfold byteutils.Uint32, u32.
  pose proof (be_value_bound (take 4 x)) as H.
  assert (Hl : (length (take 4 x) <= 4)%nat) by (rewrite length_take; lia).
  assert (256 ^ Z.of_nat (length (take 4 x)) <= 256 ^ 4)
    by (apply Z.pow_le_mono_r; lia).
  change (2 ^ 32) with (256 ^ 4). lia.
Qed.

(** Whatever the stream delivers, a payload that [parse] returns is
    as long as its Data Length field says, hence shorter than 2^32. *)
Lemma parse_payload_bound (cfg : FramerConfig) (s rest : bytes) (p : Protocol) :
  parse cfg s = (inl p, rest) -> Z.of_nat (length (data p)) < 2 ^ 32.
Proof.
  unfold parse. cbv zeta.
  destruct (ReadBytes s (Z.of_nat offsetThirtySix)) as [[header [e|]] s1];
    [discriminate|].
  destruct (negb (verifyHeader cfg _)); [discriminate|].
  cbn [dataLength dataChecksum].
  set (n := byteutils.Uint32 _).
  assert (Hn : u32 n) by apply Uint32_range.
  unfold ReadBytes.
  destruct (decide (Z.to_nat n <= length s1)%nat); [|discriminate].
  destruct (negb _); [discriminate|].
  intros [= <- _]. cbn [data]. rewrite length_take. unfold u32 in Hn. lia.
Qed.

(** C6, as amended.  A frame that [buildData] builds for a payload of
    fewer than 2^32 bytes under a message name of at most twelve bytes, none
    of them NUL, parses: the header passes [verifyHeader], the checksum of
    the payload read equals the Data Checksum field, and the protocol
    returned carries the same message name and payload.  If one byte of the
    payload in the frame is replaced by a different byte, [parse] fails with
    the data-checksum error. *)
Theorem frame_roundtrip_and_tamper (cfg : FramerConfig) (D rest : bytes)
    (name : string) :
  wire_name name -> u32 (ChainID cfg) -> Z.of_nat (length D) < 2 ^ 32 ->
  parse cfg (buildData cfg D name ++ rest) = (inl (parsed cfg D name D), rest) /\
  msgName (parsed cfg D name D) = name /\
  data (parsed cfg D name D) = D /\
  verifyHeader cfg (parsed cfg D name D) = true /\
  crc32.ChecksumIEEE D =
    byteutils.Uint32 (dataChecksum (parsed cfg D name D)) /\
  (forall (i : nat) (b b' : byte),
     D !! i = Some b -> b' <> b ->
     parse cfg (<[(36 + i)%nat := b']> (buildData cfg D name) ++ rest) =
       (inr ErrDataChecksum, rest)).
Proof.
  intros Hname Hcid Hlen.
  pose proof (header_of_length cfg D name Hname) as Hh32.
  split; [|split; [|split; [|split; [|split]]]].
  - rewrite buildData_split, <- app_assoc.
    rewrite (parse_frame cfg D D rest name Hname Hcid Hlen eq_refl).
    now rewrite Z.eqb_refl.
  - reflexivity.
  - reflexivity.
  - unfold verifyHeader, parsed. cbn [magicNumber chainID version
      headerChecksum dataHeader].
    unfold byteutils.Equal. rewrite bool_decide_eq_true_2 by reflexivity.
    rewrite Uint32_FromUint32, (Z.mod_small (ChainID cfg)) by exact Hcid.
    rewrite Z.eqb_refl, bool_decide_eq_true_2 by reflexivity.
    rewrite Uint32_FromUint32, Z.mod_small by apply ChecksumIEEE_range.
    now rewrite Z.eqb_refl.
  - cbn [parsed dataChecksum]. rewrite Uint32_FromUint32.
    symmetry. apply Z.mod_small, ChecksumIEEE_range.
  - intros i b b' Hi Hb.
    rewrite buildData_split.
    rewrite insert_app_r_alt
      by (rewrite length_app, Hh32, FromUint32_length; lia).
    rewrite length_app, Hh32, FromUint32_length.
    replace (36 + i - (32 + 4))%nat with i by lia.
    rewrite <- app_assoc.
    rewrite (parse_frame cfg D (<[i := b']> D) rest name Hname Hcid Hlen)
      by apply length_insert.
    assert (Hne : crc32.ChecksumIEEE (<[i := b']> D) <> crc32.ChecksumIEEE D).
    { pose proof (take_drop_middle D i b Hi) as Hsplit.
      assert (Hl : length (take i D) = i).
      { apply lookup_lt_Some in Hi. rewrite length_take. lia. }
      remember (take i D) as D1 eqn:E1. remember (drop (S i) D) as D2 eqn:E2.
      clear E1 E2. subst D. rewrite insert_app_r_alt by lia.
      rewrite Hl, Nat.sub_diag. cbn [insert list_insert].
      now apply ChecksumIEEE_single_byte. }
    destruct (Z.eqb_spec (crc32.ChecksumIEEE (<[i := b']> D))
                (crc32.ChecksumIEEE D)) as [E|E]; [contradiction|reflexivity].
Qed.

(** C6, as stated, fails: a name of thirteen bytes comes back cut to
    twelve, and a payload of 2^32 bytes cannot come back at all. *)
Lemma roundtrip_counterexample :
  ~ roundtrip {| ChainID := 1; nodeVersion := x00 |} [] "thirteenbytes" /\
  ~ roundtrip {| ChainID := 1; nodeVersion := x00 |}
      (replicate (Pos.to_nat (2 ^ 32)) x00) "hello".
Proof.
  split.
  - intros (p & Hp & Hname & _). vm_compute in Hp.
    injection Hp as <-. discriminate Hname.
  - intros (p & Hp & _ & Hdata).
    apply parse_payload_bound in Hp. rewrite Hdata, length_replicate in Hp.
    rewrite positive_nat_Z in Hp. lia.
Qed.

(** A [hello] frame with payload [abc], and the same frame with the [b]
    replaced. *)
Lemma frame_roundtrip_and_tamper_witness :
  let cfg := {| ChainID := 100; nodeVersion := x00 |} in
  let D := list_byte_of_string "abc" in
  (wire_name "hello" /\ u32 (ChainID cfg) /\ Z.of_nat (length D) < 2 ^ 32) /\
  parse cfg (buildData cfg D "hello" ++ []) =
    (inl (parsed cfg D "hello" D), []) /\
  parse cfg (<[(36 + 1)%nat := "x"%byte]> (buildData cfg D "hello") ++ []) =
    (inr ErrDataChecksum, []).
Proof.
  cbv zeta.
  assert (Hn : wire_name "hello").
  { split; [vm_compute; lia|]. vm_compute. intuition discriminate. }
  assert (Hc : u32 (ChainID {| ChainID := 100; nodeVersion := x00 |}))
    by (vm_compute; split; [discriminate|reflexivity]).
  assert (Hl : Z.of_nat (length (list_byte_of_string "abc")) < 2 ^ 32)
    by (vm_compute; reflexivity).
  split; [auto|].
  destruct (frame_roundtrip_and_tamper
              {| ChainID := 100; nodeVersion := x00 |}
              (list_byte_of_string "abc") [] "hello" Hn Hc Hl)
    as (H1 & _ & _ & _ & _ & H6).
  split; [exact H1|].
  apply (H6 1%nat "b"%byte "x"%byte); [reflexivity|discriminate].
Defined.

End Framer.

(** ** The block engine *)

Section BlockFacts.

Import core blockstate.
Context `{Hasher} `{Merkle} `{Executor} `{Codec} `{Dynasty}.
Context {P : Type} `{TxPool P}.

Lemma fold_Write_hashes (txs : list Transaction) (hasher : bytes) :
  fold_left (fun hasher tx => Write hasher (tx_hash tx)) txs hasher =
  hasher ++ concat (map tx_hash txs).
Proof.
  revert hasher. induction txs as [|tx txs IH]; intros hasher; cbn.
  - now rewrite app_nil_r.
  - rewrite IH. unfold Write. now rewrite <- app_assoc.
Qed.

Lemma FromUint64_be (v : Z) :
  length (byteutils.FromUint64 v) = 8%nat /\
  byteutils.be_value (byteutils.FromUint64 v) = v mod 2 ^ 64.
Proof.
  unfold byteutils.FromUint64. split; [apply be_digits_length|].
  apply be_value_digits. change (256 ^ Z.of_nat 8) with (2 ^ 64).
  apply Z.mod_pos_bound. lia.
Qed.

Lemma FromInt64_be (v : Z) :
  length (byteutils.FromInt64 v) = 8%nat /\
  byteutils.be_value (byteutils.FromInt64 v) = v mod 2 ^ 64.
Proof. apply FromUint64_be. Qed.

Lemma FromUint32_be (v : Z) :
  length (byteutils.FromUint32 v) = 4%nat /\
  byteutils.be_value (byteutils.FromUint32 v) = v mod 2 ^ 32.
Proof.
  split; [apply FromUint32_length|].
  rewrite <- Uint32_FromUint32. unfold byteutils.Uint32.
  now rewrite take_ge by (rewrite FromUint32_length; lia).
Qed.

(** C1.  The hash of a block is the SHA3-256 digest of the concatenation
    parent hash, state root, txs root, events root, DPoS context hash,
    nonce, coinbase, timestamp, chain id and the hashes of the transactions
    in order; the DPoS context hash is the digest of the six sub-roots of
    the header; nonce and timestamp are written as eight and the chain id as
    four big-endian bytes (the timestamp in two's complement). *)
Theorem HashBlock_digest (block : Block) :
  let h := header block in
  let d := dposContext h in
  HashBlock block =
    sha3_256 (parentHash h ++ stateRoot h ++ txsRoot h ++ eventsRoot h ++
              DposContextHash block ++
              byteutils.FromUint64 (nonce h) ++ address (coinbase h) ++
              byteutils.FromInt64 (timestamp h) ++
              byteutils.FromUint32 (chainID h) ++
              concat (map tx_hash (transactions block))) /\
  DposContextHash block =
    sha3_256 (DynastyRoot d ++ NextDynastyRoot d ++ DelegateRoot d ++
              VoteRoot d ++ CandidateRoot d ++ MintCntRoot d) /\
  (length (byteutils.FromUint64 (nonce h)) = 8%nat /\
   byteutils.be_value (byteutils.FromUint64 (nonce h)) = nonce h mod 2 ^ 64) /\
  (length (byteutils.FromInt64 (timestamp h)) = 8%nat /\
   byteutils.be_value (byteutils.FromInt64 (timestamp h)) =
     timestamp h mod 2 ^ 64) /\
  (length (byteutils.FromUint32 (chainID h)) = 4%nat /\
   byteutils.be_value (byteutils.FromUint32 (chainID h)) = chainID h mod 2 ^ 32).
Proof.
  cbv zeta. split; [|split; [|split; [|split]]].
  - unfold HashBlock. cbv zeta. rewrite fold_Write_hashes.
    unfold Sum, Write, New256, ParentHash, StateRoot, TxsRoot, EventsRoot.
    cbn [app]. now rewrite <- !app_assoc.
  - unfold DposContextHash, Sum, Write, New256. cbn [app].
    now rewrite <- !app_assoc.
  - apply FromUint64_be.
  - apply FromInt64_be.
  - apply FromUint32_be.
Qed.

(** C10.  [SetMiner] stores its argument in the miner field and leaves every
    other field of the block as it was, whether the block is sealed or not. *)
Theorem SetMiner_frame (block : Block) (m : option Address) :
  let block' := SetMiner m block in
  miner block' = m /\
  header block' = header block /\
  transactions block' = transactions block /\
  sealed block' = sealed block /\
  height block' = height block /\
  parenetBlock block' = parenetBlock block /\
  accState block' = accState block /\
  txsTrie block' = txsTrie block /\
  eventsTrie block' = eventsTrie block /\
  dposCtx block' = dposCtx block /\
  txPool block' = txPool block /\
  storage block' = storage block /\
  eventEmitter block' = eventEmitter block.
Proof. cbv zeta. unfold SetMiner, with_miner. cbn. repeat split. Qed.

(** C4.  On a sealed block [SetNonce] and [SetTimestamp] change nothing and
    log the diagnostic, and [Seal] returns [ErrDoubleSealBlock] and changes
    nothing; a block that [Seal] has sealed is such a block, so the second
    call of [Seal] returns [ErrDoubleSealBlock]. *)
Theorem sealed_block_immutable (block : Block) :
  (sealed block = true ->
     (forall v, SetNonce v block = (block, [sealedDiagnostic])) /\
     (forall v, SetTimestamp v block = (block, [sealedDiagnostic])) /\
     Seal block = Some (block, Some ErrDoubleSealBlock)) /\
  (forall block', Seal block = Some (block', None) ->
     sealed block' = true /\
     Seal block' = Some (block', Some ErrDoubleSealBlock)).
Proof.
  split.
  - intros Hs. unfold SetNonce, SetTimestamp, Seal. rewrite Hs. auto.
  - intros block' HS. unfold Seal in HS.
    destruct (sealed block) eqn:Hs; [discriminate|].
    destruct (recordMintCnt (begin block)) as [[b1 [e|]]|]; try discriminate.
    injection HS as <-. split; [reflexivity|].
    unfold Seal. cbn [sealed with_sealed]. reflexivity.
Qed.

(** C3.  [checkTransaction] answers, in this order: a transaction whose hash
    the txs trie already holds is a duplicate; a nonce below the sender's
    nonce plus one is small (no giveback); a nonce above it is large
    (giveback); otherwise the check passes.  In the first three cases
    [executeTransaction] returns that answer; in the last it goes on to the
    executor.  The sum is the [uint64] addition of the source, which is the
    sum of the integers unless the sender's nonce is 2^64 - 1. *)
Theorem checkTransaction_cases (tx : Transaction) (block : Block) :
  let held := is_Some (content (txsTrie block) !! tx_hash tx) in
  let next := uint64 (senderNonce tx block + 1) in
  let answer := fst (checkTransaction tx block) in
  let block1 := snd (checkTransaction tx block) in
  (held -> answer = (false, Some ErrDuplicatedTransaction)) /\
  (~ held -> tx_nonce tx < next ->
     answer = (false, Some ErrSmallTransactionNonce)) /\
  (~ held -> tx_nonce tx > next ->
     answer = (true, Some ErrLargeTransactionNonce)) /\
  (~ held -> tx_nonce tx = next -> answer = (false, None)) /\
  (snd answer <> None ->
     executeTransaction tx block = checkTransaction tx block) /\
  (snd answer = None ->
     executeTransaction tx block =
       let '(c, err) := tx_VerifyExecution tx (contents block1) in
       match err with
       | Some err => (false, Some err, install c block1)
       | None =>
           match acceptTransaction tx (install c block1) with
           | (block2, Some err) => (false, Some err, block2)
           | (block2, None) => (false, None, block2)
           end
       end) /\
  (0 <= senderNonce tx block < 2 ^ 64 - 1 -> next = senderNonce tx block + 1).
Proof.
  cbv zeta. unfold senderNonce, checkTransaction, Prove.
  destruct (GetOrCreateUserAccount (address (tx_from tx)) (accState block))
    as [fromAcc st] eqn:Eacc.
  cbn [fst snd].
  repeat split.
  - intros Hheld. now rewrite bool_decide_eq_true_2.
  - intros Hn Hlt. rewrite bool_decide_eq_false_2 by exact Hn.
    apply Z.ltb_lt in Hlt. now rewrite Hlt.
  - intros Hn Hgt. rewrite bool_decide_eq_false_2 by exact Hn.
    destruct (Z.ltb_spec (tx_nonce tx) (uint64 (acc_nonce fromAcc + 1))); [lia|].
    destruct (Z.gtb_spec (tx_nonce tx) (uint64 (acc_nonce fromAcc + 1))); [|lia].
    reflexivity.
  - intros Hn Heq. rewrite bool_decide_eq_false_2 by exact Hn.
    rewrite Heq, Z.ltb_irrefl.
    destruct (Z.gtb_spec (uint64 (acc_nonce fromAcc + 1))
                (uint64 (acc_nonce fromAcc + 1))); [lia|reflexivity].
  - unfold executeTransaction, checkTransaction, Prove. rewrite Eacc.
    destruct (bool_decide _); [reflexivity|].
    destruct (_ <? _); [reflexivity|].
    destruct (_ >? _); [reflexivity|]. cbn. congruence.
  - unfold executeTransaction, checkTransaction, Prove. rewrite Eacc.
    destruct (bool_decide _); [discriminate|].
    destruct (_ <? _); [discriminate|].
    destruct (_ >? _); [discriminate|]. cbn [fst snd]. intros _.
    destruct (tx_VerifyExecution tx _) as [c [e|]]; [reflexivity|].
    destruct (acceptTransaction tx _) as [b2 [e|]]; reflexivity.
  - intros Hrange. unfold uint64. apply Z.mod_small. lia.
Qed.

(** C8.  [LinkParentBlock] returns [ErrLinkToWrongParentBlock] and leaves
    the block as it was when the parent's hash is not the block's parent
    hash; when it returns no error the hashes are equal, the block points to
    the parent and its height is the parent's height plus one, in the
    [uint64] addition of the source, which is the sum of the integers unless
    the parent's height is 2^64 - 1. *)
Theorem LinkParentBlock_height (block parentBlock : Block) :
  (ParentHash block <> Hash parentBlock ->
     LinkParentBlock block parentBlock =
       (block, Some ErrLinkToWrongParentBlock)) /\
  (forall block', LinkParentBlock block parentBlock = (block', None) ->
     ParentHash block = Hash parentBlock /\
     parenetBlock block' = Some parentBlock /\
     height block' = uint64 (height parentBlock + 1) /\
     (0 <= height parentBlock < 2 ^ 64 - 1 ->
        height block' = height parentBlock + 1)).
Proof.
  unfold LinkParentBlock, byteutils.Equal. split.
  - intros Hne. now rewrite bool_decide_eq_false_2.
  - intros block'. destruct (bool_decide_reflect (ParentHash block = Hash parentBlock))
      as [Heq|Hne]; cbn [negb]; [|discriminate].
    destruct (acc_Clone _) as [st [e|]]; [discriminate|].
    destruct (trie_Clone (txsTrie parentBlock)) as [t1 [e|]]; [discriminate|].
    destruct (trie_Clone (eventsTrie parentBlock)) as [t2 [e|]]; [discriminate|].
    destruct (NextDynastyContext _ _) as [ctx|e]; [|discriminate].
    destruct (LoadDynastyContext _ _) as [b1 [e|]]; [discriminate|].
    intros [= <-]. cbn. repeat split; try assumption.
    intros Hrange. unfold uint64. apply Z.mod_small. lia.
Qed.

(** The hash that [Seal] stores is the hash of the sealed block. *)
Lemma Seal_hash (block block' : Block) :
  Seal block = Some (block', None) -> Hash block' = HashBlock block'.
Proof.
  unfold Seal. destruct (sealed block); [discriminate|].
  destruct (recordMintCnt (begin block)) as [[b1 [e|]]|]; try discriminate.
  intros [= <-]. reflexivity.
Qed.

(** A block that [NewBlock] returns has no batch open. *)
Lemma NewBlock_noOpenBatch (chainID : Z) (coinbase : Address)
    (parent block : Block) (now : Z) :
  NewBlock chainID coinbase parent now = inl block -> noOpenBatch block.
Proof.
  unfold NewBlock.
  destruct (acc_Clone _) as [st [e|]]; [discriminate|].
  destruct (trie_Clone (txsTrie parent)) as [t1 [e|]]; [discriminate|].
  destruct (trie_Clone (eventsTrie parent)) as [t2 [e|]]; [discriminate|].
  destruct (dpos_Clone _) as [d [e|]]; [discriminate|].
  intros [= <-]. reflexivity.
Qed.

End BlockFacts.

(** ** Collecting transactions *)

Section CollectFacts.

Import core blockstate.
Context `{Hasher} `{Merkle} `{Executor} `{Codec}.
Context {P : Type} `{TxPool P}.

Lemma GetOrCreateUserAccount_saved (addr : bytes) (st : AccountState) :
  saved (snd (GetOrCreateUserAccount addr st)) = saved st.
Proof.
  unfold GetOrCreateUserAccount. destruct (content st !! addr); reflexivity.
Qed.

Lemma checkTransaction_saved (tx : Transaction) (block : Block) :
  savedContents (snd (checkTransaction tx block)) = savedContents block.
Proof.
  unfold checkTransaction.
  destruct (Prove _ _); [reflexivity|].
  pose proof (GetOrCreateUserAccount_saved (address (tx_from tx)) (accState block)) as E.
  destruct (GetOrCreateUserAccount _ _) as [fromAcc st]. cbn [snd] in E.
  destruct (_ <? _); [|destruct (_ >? _)];
    unfold savedContents; cbn; now rewrite E.
Qed.

Lemma install_saved (c : Contents) (block : Block) :
  savedContents (install c block) = savedContents block.
Proof. reflexivity. Qed.

Lemma acceptTransaction_saved (tx : Transaction) (block : Block) :
  savedContents (fst (acceptTransaction tx block)) = savedContents block.
Proof.
  unfold acceptTransaction. destruct (tx_Marshal tx) as [txBytes|e]; [|reflexivity].
  cbn [accState with_txsTrie].
  pose proof (GetOrCreateUserAccount_saved (address (tx_from tx)) (accState block)) as E.
  destruct (GetOrCreateUserAccount _ _) as [fromAcc st]. cbn [snd] in E.
  unfold savedContents. cbn. now rewrite E.
Qed.

(** [executeTransaction] stages its writes: it neither opens nor closes a
    batch. *)
Lemma executeTransaction_saved (tx : Transaction) (block : Block) :
  savedContents (snd (executeTransaction tx block)) = savedContents block.
Proof.
  unfold executeTransaction.
  pose proof (checkTransaction_saved tx block) as E1.
  destruct (checkTransaction tx block) as [[giveback [e|]] b1]; cbn [snd] in *;
    [exact E1|].
  destruct (tx_VerifyExecution tx (contents b1)) as [c [e|]]; cbn [snd].
  - now rewrite install_saved.
  - pose proof (acceptTransaction_saved tx (install c b1)) as E2.
    destruct (acceptTransaction tx (install c b1)) as [b2 [e|]]; cbn [fst snd] in *;
      now rewrite E2, install_saved.
Qed.

Lemma executeTransaction_transactions (tx : Transaction) (block : Block) :
  transactions (snd (executeTransaction tx block)) = transactions block.
Proof.
  unfold executeTransaction, checkTransaction.
  destruct (Prove _ _); [reflexivity|].
  destruct (GetOrCreateUserAccount _ _) as [fromAcc st].
  destruct (_ <? _); [reflexivity|]. destruct (_ >? _); [reflexivity|].
  destruct (tx_VerifyExecution tx _) as [c [e|]]; [reflexivity|].
  unfold acceptTransaction.
  destruct (tx_Marshal tx) as [txBytes|e]; [|reflexivity].
  destruct (GetOrCreateUserAccount _ _) as [fromAcc' st']. reflexivity.
Qed.

Lemma begin_saved (block : Block) :
  noOpenBatch block ->
  savedContents (begin block) =
  (Some (content (accState block)), Some (content (txsTrie block)),
   Some (content (eventsTrie block)),
   (Some (content (dynastyTrie (dposCtx block))),
    Some (content (nextDynastyTrie (dposCtx block))),
    Some (content (delegateTrie (dposCtx block)))),
   (Some (content (voteTrie (dposCtx block))),
    Some (content (candidateTrie (dposCtx block))),
    Some (content (mintCntTrie (dposCtx block))))).
Proof.
  unfold noOpenBatch, savedContents. intros [= E1 E2 E3 E4 E5 E6 E7 E8 E9].
  unfold begin, BeginBatch. cbn.
  now rewrite E1, E2, E3, E4, E5, E6, E7, E8, E9.
Qed.

(** Rolling back restores the saved contents of every overlay. *)
Lemma rollback_contents (block0 block : Block) :
  noOpenBatch block0 ->
  savedContents block = savedContents (begin block0) ->
  contents (rollback block) = contents block0 /\ noOpenBatch (rollback block).
Proof.
  intros Hno Hs. rewrite (begin_saved block0 Hno) in Hs.
  unfold savedContents in Hs. injection Hs as E1 E2 E3 E4 E5 E6 E7 E8 E9.
  unfold contents, rollback, noOpenBatch, savedContents, RollBack. cbn.
  rewrite E1, E2, E3, E4, E5, E6, E7, E8, E9. cbn. split; reflexivity.
Qed.

Lemma contents_fourRoots (a b : Block) :
  contents a = contents b -> fourRoots a = fourRoots b.
Proof.
  unfold contents. intros [= E1 E2 E3 E4 E5 E6 E7 E8 E9].
  unfold fourRoots, acc_RootHash, dpos_RootHash, RootHash.
  now rewrite E1, E2, E3, E4, E5, E6, E7, E8, E9.
Qed.

Lemma commit_noOpenBatch (block : Block) : noOpenBatch (commit block).
Proof. reflexivity. Qed.

Lemma collect_body_noOpenBatch (st : Collecting) :
  noOpenBatch (col_block st) -> noOpenBatch (col_block (collect_body st)).
Proof.
  intros Hno. unfold collect_body.
  destruct (pool_Pop (col_pool st)) as [tx pool].
  pose proof (executeTransaction_saved tx (begin (col_block st))) as Es.
  destruct (executeTransaction tx (begin (col_block st))) as [[giveback [e|]] b1];
    cbn [snd col_block] in *.
  - now apply (rollback_contents (col_block st)).
  - reflexivity.
Qed.

Lemma collect_reaches_noOpenBatch (st0 st : Collecting) :
  noOpenBatch (col_block st0) -> collect_reaches st0 st ->
  noOpenBatch (col_block st).
Proof.
  intros Hno Hr. induction Hr as [|st Hr IH Hg]; [exact Hno|].
  now apply collect_body_noOpenBatch.
Qed.

(** The loop of [CollectTransactions] only goes through states of the
    iteration, and with the size of the pool as fuel it runs until its
    condition fails. *)
Lemma collect_loop_reaches (fuel : nat) (st0 st : Collecting) :
  collect_reaches st0 st -> collect_reaches st0 (collect_loop fuel st).
Proof.
  revert st. induction fuel as [|fuel IH]; intros st Hr; cbn; [exact Hr|].
  destruct (collect_guard st) eqn:Hg; [|exact Hr].
  apply IH. now constructor.
Qed.

Lemma collect_loop_ends (fuel : nat) (st : Collecting) :
  (pool_size (col_pool st) <= fuel)%nat ->
  collect_guard (collect_loop fuel st) = false.
Proof.
  revert st. induction fuel as [|fuel IH]; intros st Hsz; cbn.
  - unfold collect_guard.
    destruct (pool_Empty (col_pool st)) eqn:He; [reflexivity|].
    pose proof (pool_Pop_size (col_pool st) He). lia.
  - destruct (collect_guard st) eqn:Hg; [|exact Hg].
    apply IH. unfold collect_guard in Hg.
    destruct (pool_Empty (col_pool st)) eqn:He; [discriminate|].
    pose proof (pool_Pop_size (col_pool st) He) as Hlt.
    unfold collect_body. destruct (pool_Pop (col_pool st)) as [tx pool].
    cbn [snd] in Hlt.
    destruct (executeTransaction tx (begin (col_block st))) as [[giveback [e|]] b1];
      cbn [col_pool]; lia.
Qed.

(** C2.  In [CollectTransactions] on a block that has no batch open, every
    iteration whose [executeTransaction] returns an error ends with the
    rollback of what that transaction staged: the four root hashes, and the
    contents of every overlay, are those from before the [begin] of the
    iteration, and the transaction is not added to the block. *)
Theorem collect_failed_transaction_keeps_roots
    (n : Z) (block : Block) (pool : P) (st : Collecting)
    (giveback : bool) (err : error) (block1 : Block) :
  noOpenBatch block ->
  collect_reaches (collect_init n block pool) st ->
  collect_guard st = true ->
  executeTransaction (fst (pool_Pop (col_pool st))) (begin (col_block st)) =
    (giveback, Some err, block1) ->
  col_block (collect_body st) = rollback block1 /\
  fourRoots (col_block (collect_body st)) = fourRoots (col_block st) /\
  contents (col_block (collect_body st)) = contents (col_block st) /\
  transactions (col_block (collect_body st)) = transactions (col_block st).
Proof.
  intros Hno Hr Hg Hex.
  assert (Hst : noOpenBatch (col_block st))
    by (eapply collect_reaches_noOpenBatch; [|exact Hr]; exact Hno).
  pose proof (executeTransaction_saved (fst (pool_Pop (col_pool st)))
                (begin (col_block st))) as Es.
  unfold collect_body. destruct (pool_Pop (col_pool st)) as [tx pool'].
  cbn [fst] in *. rewrite Hex in *. cbn [snd col_block] in *.
  destruct (rollback_contents (col_block st) block1 Hst Es) as [Hc _].
  split; [reflexivity|]. split; [now apply contents_fourRoots|].
  split; [exact Hc|].
  pose proof (executeTransaction_transactions tx (begin (col_block st))) as Et.
  rewrite Hex in Et. cbn [snd] in Et. exact Et.
Qed.

(** [CollectTransactions] on a block that is not sealed returns the block of
    a state that the loop reaches and in which the loop condition fails. *)
Lemma CollectTransactions_runs_loop (n : Z) (block : Block) (pool : P) :
  sealed block = false ->
  exists st, collect_reaches (collect_init n block pool) st /\
             collect_guard st = false /\
             fst (fst (CollectTransactions n block pool)) = col_block st.
Proof.
  intros Hs. unfold CollectTransactions. rewrite Hs.
  exists (collect_loop (pool_size pool) (collect_init n block pool)).
  split; [apply collect_loop_reaches; constructor|].
  split; [apply collect_loop_ends; reflexivity|reflexivity].
Qed.

End CollectFacts.

(** ** Events *)

Section EventFacts.

Import core blockstate.
Context `{Hasher} `{Merkle} `{Executor} `{Codec} `{Dynasty}.
Context {P : Type} `{TxPool P}.

Lemma decodeEvents_error_nil (values : list bytes) (acc events : list Event)
    (err : error) :
  decodeEvents values acc = (events, Some err) -> events = [].
Proof.
  revert acc. induction values as [|v values IH]; intros acc; cbn.
  - discriminate.
  - destruct (json_Unmarshal_event v) as [event|e]; [apply IH|].
    now intros [= <- _].
Qed.

(** [FetchEvents] returns no events together with an error. *)
Lemma FetchEvents_error_nil (txHash : bytes) (block : Block)
    (events : list Event) (err : error) :
  FetchEvents txHash block = (events, Some err) -> events = [].
Proof.
  unfold FetchEvents. destruct (Iterator txHash (eventsTrie block)) as [values|e].
  - apply decodeEvents_error_nil.
  - destruct (decide (e = ErrKeyNotFound)); now intros [= <- _].
Qed.

(** [triggerEvent] publishes one event per transaction and the link event,
    and nothing else: the events recorded under a transaction are published
    only if [FetchEvents] fails, and then there are none. *)
Lemma triggerEvent_publishes (block : Block) (emitter : list Event) :
  triggerEvent block emitter =
  emitter ++ map txEvent (transactions block) ++
  [{| Topic := TopicLinkBlock; Data := json_Marshal_block block |}].
Proof.
  unfold triggerEvent, Trigger. rewrite app_assoc. f_equal.
  generalize (transactions block) as txs. intros txs. revert emitter.
  induction txs as [|v txs IH]; intros emitter; cbn [fold_left map].
  - now rewrite app_nil_r.
  - destruct (FetchEvents (tx_hash v) block) as [events [e|]] eqn:Ef.
    + apply FetchEvents_error_nil in Ef. subst events. cbn [fold_left].
      rewrite IH. unfold txEvent. now rewrite <- app_assoc.
    + rewrite IH. unfold txEvent. now rewrite <- app_assoc.
Qed.

(** A [VerifyExecution] that fails publishes nothing. *)
Lemma VerifyExecution_failure_publishes_nothing
    (block parent block' : Block) (consensus : Block -> Block -> option error)
    (pool pool' : P) (emitter emitter' : list Event) (err : error) :
  VerifyExecution block parent consensus pool emitter =
    Some (block', pool', emitter', Some err) ->
  emitter' = emitter.
Proof.
  unfold VerifyExecution. destruct (consensus block parent); [now intros [= _ _ <- _]|].
  destruct (execute (begin block) pool) as [[[b1 p1] [e|]]|];
    [now intros [= _ _ <- _]| |discriminate].
  destruct (verifyState b1); [now intros [= _ _ <- _]|discriminate].
Qed.

End EventFacts.

(** ** The small chain *)

Section Scenario.

Import core blockstate sample.

(** The verifier's run of [VerifyExecution], evaluated. *)
Lemma verified_check :
  outcome_check (VerifyExecution received genesis acceptAll [] []) = true.
Proof. vm_compute. reflexivity. Qed.

(** C5 (the code does not do this).  The verifier of the small chain
    executes the sealed block with success; afterwards [FetchEvents]
    succeeds for the call transaction and returns the event recorded under
    its hash, and that event is not among the events published. *)
Theorem recorded_event_not_published :
  exists block' pool' emitter',
    VerifyExecution received genesis acceptAll ([] : list Transaction) [] =
      Some (block', pool', emitter', None) /\
    In callTx (transactions block') /\
    FetchEvents (tx_hash callTx) block' = ([callEvent], None) /\
    ~ In callEvent emitter'.
Proof.
  pose proof verified_check as E.
  set (v := VerifyExecution _ _ _ _ _) in *. clearbody v.
  destruct v as [[[[block' pool'] emitter'] [err|]]|]; try discriminate E.
  unfold outcome_check in E.
  apply andb_prop in E as [E E3]. apply andb_prop in E as [E1 E2].
  apply bool_decide_eq_true_1 in E1, E2, E3.
  exists block', pool', emitter'. split; [reflexivity|].
  split; [now apply list_elem_of_In|]. split; [exact E2|].
  intros Hin. apply E3. now apply list_elem_of_In.
Qed.

(** Bob's nonce is 0: of his transactions with nonces 1 and 3 the block takes
    the first, and the second goes back to the pool. *)
Example collect_gives_back_large_nonce :
  transactions (fst (fst (CollectTransactions 5 proposed [callTx; largeTx]))) =
    [callTx] /\
  snd (fst (CollectTransactions 5 proposed [callTx; largeTx])) = [largeTx].
Proof. split; vm_compute; reflexivity. Qed.

(** The four answers of [checkTransaction] on the small chain: [callTx]
    again after it was sealed in, a nonce of 0, a nonce of 3, and [callTx]
    on the new block. *)
Lemma checkTransaction_cases_witness :
  fst (checkTransaction callTx sealedBlock) =
    (false, Some ErrDuplicatedTransaction) /\
  fst (checkTransaction smallTx proposed) =
    (false, Some ErrSmallTransactionNonce) /\
  fst (checkTransaction largeTx proposed) =
    (true, Some ErrLargeTransactionNonce) /\
  fst (checkTransaction callTx proposed) = (false, None).
Proof.
  split; [|split; [|split]].
  - apply (proj1 (checkTransaction_cases callTx sealedBlock)).
    eexists. vm_compute. reflexivity.
  - apply (proj1 (proj2 (checkTransaction_cases smallTx proposed))).
    + intros [x Hx]. vm_compute in Hx. discriminate Hx.
    + vm_compute. reflexivity.
  - apply (proj1 (proj2 (proj2 (checkTransaction_cases largeTx proposed)))).
    + intros [x Hx]. vm_compute in Hx. discriminate Hx.
    + vm_compute. reflexivity.
  - apply (proj1 (proj2 (proj2 (proj2 (checkTransaction_cases callTx proposed))))).
    + intros [x Hx]. vm_compute in Hx. discriminate Hx.
    + vm_compute. reflexivity.
Defined.

(** The sealed block of the small chain, and the call of [Seal] that
    sealed it. *)
Lemma sealed_block_immutable_witness :
  (sealed sealedBlock = true /\
   SetNonce 9 sealedBlock = (sealedBlock, [sealedDiagnostic]) /\
   SetTimestamp 9 sealedBlock = (sealedBlock, [sealedDiagnostic]) /\
   Seal sealedBlock = Some (sealedBlock, Some ErrDoubleSealBlock)) /\
  (Seal collected = Some (sealedBlock, None) /\
   Seal sealedBlock = Some (sealedBlock, Some ErrDoubleSealBlock)).
Proof.
  assert (Hs : sealed sealedBlock = true) by (vm_compute; reflexivity).
  assert (Hc : Seal collected = Some (sealedBlock, None))
    by (vm_compute; reflexivity).
  split.
  - split; [exact Hs|].
    destruct (proj1 (sealed_block_immutable sealedBlock) Hs) as (H1 & H2 & H3).
    split; [apply H1|]. split; [apply H2|apply H3].
  - split; [exact Hc|].
    apply (proj2 (sealed_block_immutable collected) sealedBlock Hc).
Defined.

(** Linking the sealed block to itself is refused; linking the received
    block to the genesis block gives it height 1. *)
Lemma LinkParentBlock_height_witness :
  (ParentHash sealedBlock <> Hash sealedBlock /\
   LinkParentBlock sealedBlock sealedBlock =
     (sealedBlock, Some ErrLinkToWrongParentBlock)) /\
  (LinkParentBlock wired genesis = (linked, None) /\
   ParentHash wired = Hash genesis /\
   parenetBlock linked = Some genesis /\
   height linked = uint64 (height genesis + 1) /\
   (0 <= height genesis < 2 ^ 64 - 1 -> height linked = height genesis + 1)).
Proof.
  assert (Hne : ParentHash sealedBlock <> Hash sealedBlock)
    by (vm_compute; discriminate).
  assert (Hl : LinkParentBlock wired genesis = (linked, None))
    by (vm_compute; reflexivity).
  split.
  - split; [exact Hne|].
    apply (proj1 (LinkParentBlock_height sealedBlock sealedBlock) Hne).
  - split; [exact Hl|].
    apply (proj2 (LinkParentBlock_height wired genesis) linked Hl).
Defined.

(** Collecting [badTx], which the executor fails after it has written to
    the account state. *)
Lemma collect_failed_transaction_keeps_roots_witness :
  let st := collect_init 1 proposed [badTx] in
  let block1 := snd (executeTransaction badTx (begin proposed)) in
  (noOpenBatch proposed /\
   collect_guard st = true /\
   executeTransaction (fst (pool_Pop (col_pool st))) (begin (col_block st)) =
     (false, Some (ErrOther "unsupported payload"), block1)) /\
  (col_block (collect_body st) = rollback block1 /\
   fourRoots (col_block (collect_body st)) = fourRoots (col_block st) /\
   contents (col_block (collect_body st)) = contents (col_block st) /\
   transactions (col_block (collect_body st)) = transactions (col_block st)).
Proof.
  cbv zeta.
  assert (Hno : noOpenBatch proposed).
  { unfold proposed.
    destruct (NewBlock 100 alice genesis 7200) as [block|e] eqn:E.
    - apply NewBlock_noOpenBatch in E. exact E.
    - reflexivity. }
  assert (Hg : collect_guard (collect_init 1 proposed [badTx]) = true)
    by (vm_compute; reflexivity).
  assert (Hex :
    executeTransaction
      (fst (pool_Pop (col_pool (collect_init 1 proposed [badTx]))))
      (begin (col_block (collect_init 1 proposed [badTx]))) =
    (false, Some (ErrOther "unsupported payload"),
     snd (executeTransaction badTx (begin proposed))))
    by (vm_compute; reflexivity).
  split; [auto|].
  apply (collect_failed_transaction_keeps_roots 1 proposed [badTx]
           (collect_init 1 proposed [badTx]) false
           (ErrOther "unsupported payload")
           (snd (executeTransaction badTx (begin proposed)))
           Hno (reaches_init _) Hg Hex).
Defined.

End Scenario.

(** ** The peer session *)

Section SessionFacts.

Import p2p session.
Context `{Libp2p} `{HelloCodec}.

Lemma checkNetworkID_spec (target : string) (node : Node) :
  checkNetworkID target node = true <-> sameNetwork target node.
Proof.
  unfold checkNetworkID, sameNetwork. split.
  - destruct (networkIDCache node !! target) as [tid|]; [|discriminate].
    destruct (Z.gtb_spec (Z.land (cfgNetworkID (config node)) tid) 0);
      [|discriminate].
    intros _. exists tid. split; [reflexivity|lia].
  - intros (tid & -> & Hgt).
    destruct (Z.gtb_spec (Z.land (cfgNetworkID (config node)) tid) 0);
      [reflexivity|lia].
Qed.

Lemma sendMsg_error (msgName : string) (msg : bytes) (s : positive)
    (node node' : Node) (err : error) :
  sendMsg msgName msg s node = (node', Some err) -> err = ErrIO.
Proof.
  unfold sendMsg, Write. destruct (closed (streamState node s)).
  - now intros [= _ <-].
  - discriminate.
Qed.

(** C7.  For a message other than [networkid], when the target has no
    cached network id that shares a bit with the local one, [SendMsg]
    returns the error of the network gate and leaves the node, and with it
    every stream, as it was; when the gate is open [SendMsg] never returns
    that error. *)
Theorem SendMsg_network_gate (msgName : string) (msg : bytes) (target : string)
    (node : Node) :
  msgName <> NetworkID ->
  (~ sameNetwork target node ->
     SendMsg msgName msg target node = (node, Some ErrNotSameNetwork)) /\
  (sameNetwork target node ->
     snd (SendMsg msgName msg target node) <> Some ErrNotSameNetwork).
Proof.
  intros Hname. unfold SendMsg.
  rewrite (bool_decide_eq_false_2 _ Hname). cbn [negb andb]. split.
  - intros Hgate.
    destruct (checkNetworkID target node) eqn:E; [|reflexivity].
    apply checkNetworkID_spec in E. contradiction.
  - intros Hgate. apply checkNetworkID_spec in Hgate. rewrite Hgate. cbn [negb].
    destruct (stream_ node !! target) as [st|]; [|discriminate].
    destruct (sendMsg msgName msg (stream st) node) as [node' [e|]] eqn:E;
      [|discriminate].
    apply sendMsg_error in E. subst e. discriminate.
Qed.

Lemma Bye_session (pid : PeerID) (addrs : list Multiaddr) (s : positive)
    (key : string) (node : Node) :
  stream_ (Bye pid addrs s key node) !! key = None /\
  closed (streamState (Bye pid addrs s key node) s) = true.
Proof.
  unfold Bye, Close, streamState. cbn. split.
  - apply lookup_delete_eq.
  - now rewrite lookup_insert_eq.
Qed.

Lemma okMatches_decode (data : bytes) (pid : PeerID) :
  okMatches data pid <->
  match decodeHello data with
  | inl ok =>
      bool_decide (NodeID ok = IDString pid) &&
      bool_decide (ClientVersion ok = p2p.ClientVersion) = true
  | inr _ => False
  end.
Proof.
  unfold okMatches. destruct (decodeHello data) as [ok|e]; split.
  - intros (ok' & [= <-] & H1 & H2).
    now rewrite !bool_decide_eq_true_2.
  - intros Hb. apply andb_prop in Hb as [H1 H2].
    apply bool_decide_eq_true_1 in H1, H2. eauto.
  - intros (ok' & Hd & _). discriminate.
  - intros [].
Qed.

(** C9.  [handleOkMsg] accepts the peer exactly when the OK payload decodes
    to the printed id of the stream's remote peer and to our client
    version.  Then the stream store in state OK is kept under the peer's
    key and inserted into the stream cache, the address is added with the
    permanent TTL and the routing table is updated; otherwise the node is
    the one [Bye] leaves: no stream store under the key and the stream
    closed. *)
Theorem handleOkMsg_accepts_iff (data : bytes) (pid : PeerID) (s : positive)
    (addrs : Multiaddr) (key : string) (node : Node) :
  let result := fst (handleOkMsg data pid s addrs key node) in
  let node' := snd (handleOkMsg data pid s addrs key node) in
  (okMatches data pid ->
     result = true /\
     node' = acceptPeer pid s addrs key node /\
     stream_ node' !! key = Some (NewStreamStore key SOK s) /\
     streamCache node' = streamCache node ++ [NewStreamStore key SOK s] /\
     peerstore node' = AddAddr pid addrs PermanentAddrTTL (peerstore node) /\
     routeTable node' = Update pid (routeTable node) /\
     streams node' = streams node) /\
  (~ okMatches data pid ->
     result = false /\
     node' = Bye pid [addrs] s key node /\
     stream_ node' !! key = None /\
     closed (streamState node' s) = true) /\
  (result = true <-> okMatches data pid) /\
  (sessionOK key node' <-> okMatches data pid).
Proof.
  cbv zeta.
  assert (Hyes : okMatches data pid ->
            handleOkMsg data pid s addrs key node =
              (true, acceptPeer pid s addrs key node)).
  { intros Hm. apply okMatches_decode in Hm. unfold handleOkMsg.
    destruct (decodeHello data) as [ok|e]; [|contradiction].
    now rewrite Hm. }
  assert (Hno : ~ okMatches data pid ->
            handleOkMsg data pid s addrs key node =
              (false, Bye pid [addrs] s key node)).
  { intros Hm. rewrite okMatches_decode in Hm. unfold handleOkMsg.
    destruct (decodeHello data) as [ok|e]; [|reflexivity].
    destruct (_ && _); [contradiction|reflexivity]. }
  assert (Hdec : okMatches data pid \/ ~ okMatches data pid).
  { rewrite okMatches_decode. destruct (decodeHello data) as [ok|e]; [|tauto].
    destruct (_ && _); [now left|now right]. }
  split; [|split; [|split]].
  - intros Hm. rewrite (Hyes Hm). cbn [fst snd].
    unfold acceptPeer. cbn. rewrite lookup_insert_eq. repeat split.
  - intros Hm. rewrite (Hno Hm). cbn [fst snd].
    destruct (Bye_session pid [addrs] s key node) as [B1 B2]. repeat split; assumption.
  - destruct Hdec as [Hm|Hm].
    + rewrite (Hyes Hm). cbn. tauto.
    + rewrite (Hno Hm). cbn. split; [discriminate|contradiction].
  - destruct Hdec as [Hm|Hm].
    + rewrite (Hyes Hm). cbn [snd]. split; [intros _; exact Hm|intros _].
      exists (NewStreamStore key SOK s). unfold acceptPeer. cbn.
      now rewrite lookup_insert_eq.
    + rewrite (Hno Hm). cbn [snd]. split; [|contradiction].
      intros (st & Hst & _).
      destruct (Bye_session pid [addrs] s key node) as [B1 _]. congruence.
Qed.

End SessionFacts.

(** ** The small network *)

Section NetworkScenario.

Import p2p session net.

(** Local mask 0b0011: a [syncroute] to the peer with mask 0b0100 is
    refused, one to the peer with mask 0b0001 passes the gate. *)
Lemma SendMsg_network_gate_witness :
  ("syncroute"%string <> NetworkID /\ ~ sameNetwork "QmRemote" localNode /\
   sameNetwork "QmNear" localNode) /\
  SendMsg "syncroute" [] "QmRemote" localNode =
    (localNode, Some ErrNotSameNetwork) /\
  snd (SendMsg "syncroute" [] "QmNear" localNode) <> Some ErrNotSameNetwork.
Proof.
  assert (Hn : "syncroute"%string <> NetworkID) by discriminate.
  assert (Hfar : ~ sameNetwork "QmRemote" localNode).
  { intros (tid & Hl & Hgt). vm_compute in Hl. injection Hl as <-.
    vm_compute in Hgt. discriminate Hgt. }
  assert (Hnear : sameNetwork "QmNear" localNode).
  { exists 1. split; vm_compute; reflexivity. }
  split; [auto|]. split.
  - apply (proj1 (SendMsg_network_gate "syncroute" [] "QmRemote" localNode Hn) Hfar).
  - apply (proj2 (SendMsg_network_gate "syncroute" [] "QmNear" localNode Hn) Hnear).
Defined.

(** The OK of the remote peer is accepted; an OK that names another node
    ends in [Bye]. *)
Lemma handleOkMsg_accepts_iff_witness :
  (okMatches goodOK remote /\ ~ okMatches wrongOK remote) /\
  fst (handleOkMsg goodOK remote 1%positive remoteAddr "QmRemote" localNode)
    = true /\
  snd (handleOkMsg wrongOK remote 1%positive remoteAddr "QmRemote" localNode)
    = Bye remote [remoteAddr] 1%positive "QmRemote" localNode.
Proof.
  assert (Hgood : okMatches goodOK remote).
  { eexists. split; [vm_compute; reflexivity|]. split; reflexivity. }
  assert (Hbad : ~ okMatches wrongOK remote).
  { intros (ok & Hd & Hid & _). vm_compute in Hd. injection Hd as <-.
    vm_compute in Hid. discriminate Hid. }
  split; [auto|].
  destruct (handleOkMsg_accepts_iff goodOK remote 1%positive remoteAddr
              "QmRemote" localNode) as (Hyes & _).
  destruct (handleOkMsg_accepts_iff wrongOK remote 1%positive remoteAddr
              "QmRemote" localNode) as (_ & Hno & _).
  split; [apply (Hyes Hgood)|apply (Hno Hbad)].
Defined.

End NetworkScenario.

Section FrameFacts.

Import p2p frame.

Lemma copy_at_length (dst src : bytes) (off : nat) :
  (off <= length dst)%nat -> length (copy_at dst off src) = length dst.
Proof.
  intros Hoff. unfold copy_at. rewrite !length_app, !length_take, length_drop. lia.
Qed.

Lemma name_bytes_length (name : string) : length (name_bytes name) = 12%nat.
Proof.
  unfold name_bytes. rewrite length_take, length_app, length_replicate. lia.
Qed.

(** The layout of the header for every name: a name longer than twelve
    bytes is cut, a shorter one is padded with NUL bytes. *)
Lemma buildHeader_layout_any (c : Z) (name : string) (v : byte) (dl dc : Z) :
  buildHeader c name v dl dc [x00] =
  MagicNumber ++ byteutils.FromUint32 c ++ [x00; x00; x00; v] ++
  name_bytes name ++ byteutils.FromUint32 dl ++ byteutils.FromUint32 dc.
Proof.
  unfold buildHeader, name_bytes.
  destruct (FromUint32_cons c) as (c0 & c1 & c2 & c3 & ->).
  destruct (FromUint32_cons dl) as (l0 & l1 & l2 & l3 & ->).
  destruct (FromUint32_cons dc) as (d0 & d1 & d2 & d3 & ->).
  set (nb := list_byte_of_string name).
  cbn [copy_at offsetThirtyTwo offsetFour offsetEight offsetEleven replicate
       MagicNumber length Nat.sub Nat.min take drop app Nat.add].
  set (P12 := ["N"%byte; "E"%byte; "B"%byte; "1"%byte; c0; c1; c2; c3;
               x00; x00; x00; v]).
  change (copy_at _ offsetTwelve nb) with
    (copy_at (P12 ++ replicate 20 x00) 12 nb).
  set (n := Nat.min 20 (length nb)).
  assert (E1 : copy_at (P12 ++ replicate 20 x00) 12 nb =
               P12 ++ take n nb ++ replicate (20 - n) x00).
  { unfold copy_at. rewrite length_app, length_replicate.
    change (length P12) with 12%nat.
    change (12 + 20 - 12)%nat with 20%nat. fold n.
    rewrite (take_app_length' P12) by reflexivity.
    rewrite (drop_app_add' P12 _ 12 n) by reflexivity.
    now rewrite drop_replicate. }
  rewrite E1. clear E1.
  set (X := take n nb ++ replicate (20 - n) x00).
  assert (HX : length X = 20%nat).
  { subst X n. rewrite length_app, length_take, length_replicate. lia. }
  assert (E12 : take 12 X = take 12 (nb ++ replicate 12 x00)).
  { subst X n. destruct (Nat.le_gt_cases 12 (length nb)) as [Hge|Hlt].
    - rewrite !take_app_le by (rewrite ?length_take; lia).
      rewrite take_take. f_equal. lia.
    - rewrite Nat.min_r by lia. rewrite firstn_all.
      rewrite !take_app_ge by lia. rewrite !take_replicate. do 2 f_equal. lia. }
  rewrite <- (take_drop 12 X), E12.
  set (F := take 12 (nb ++ replicate 12 x00)).
  assert (HF : length F = 12%nat).
  { subst F. rewrite length_take, length_app, length_replicate. lia. }
  set (T := drop 12 X).
  assert (HT : length T = 8%nat) by (subst T; rewrite length_drop; lia).
  rewrite (app_assoc P12 F T).
  rewrite copy_at_app;
    [|rewrite length_app, HF; reflexivity|cbn [length]; lia].
  cbn [length].
  rewrite (app_assoc (P12 ++ F) [l0; l1; l2; l3]).
  rewrite copy_at_app;
    [|rewrite !length_app, HF; reflexivity|rewrite length_drop; cbn [length]; lia].
  cbn [length].
  assert (Hnil : drop 4 (drop 4 T) = []).
  { apply nil_length_inv. rewrite !length_drop. lia. }
  rewrite Hnil, app_nil_r. subst P12. rewrite <- !app_assoc. reflexivity.
Qed.

Lemma header_of_length_any (cfg : FramerConfig) (D : bytes) (name : string) :
  length (header_of cfg D name) = 32%nat.
Proof.
  unfold header_of. rewrite buildHeader_layout_any.
  rewrite !length_app, !FromUint32_length, name_bytes_length. reflexivity.
Qed.

Lemma header36_length (cfg : FramerConfig) (D : bytes) (name : string) :
  length (header36 cfg D name) = 36%nat.
Proof.
  unfold header36. now rewrite length_app, header_of_length_any, FromUint32_length.
Qed.

Lemma buildData_header36 (cfg : FramerConfig) (D : bytes) (name : string) :
  buildData cfg D name = header36 cfg D name ++ D.
Proof. reflexivity. Qed.


Lemma IndexByte_take (s : bytes) (c : byte) :
  (if IndexByte s c =? -1 then s else take (Z.to_nat (IndexByte s c)) s) =
  before c s.
Proof.
  induction s as [|b t IH]; [reflexivity|].
  cbn [IndexByte before]. destruct (decide (b = c)) as [_|Hne]; [reflexivity|].
  destruct (IndexByte_nonneg_or_absent t c) as [E|E].
  - rewrite E in *. cbn in IH |- *. now rewrite <- IH.
  - destruct (IndexByte t c =? -1) eqn:E1; [apply Z.eqb_eq in E1; lia|].
    cbv zeta.
    destruct (IndexByte t c + 1 =? -1) eqn:E2; [apply Z.eqb_eq in E2; lia|].
    rewrite Z2Nat.inj_add by lia. rewrite Nat.add_comm.
    change (Z.to_nat 1 + Z.to_nat (IndexByte t c))%nat
      with (S (Z.to_nat (IndexByte t c))).
    cbn [take]. now rewrite IH.
Qed.

Lemma IndexByte_before (s : bytes) (c : byte) :
  (if negb (IndexByte s c =? -1)
   then slice s 0 (Z.to_nat (IndexByte s c)) else s) = before c s.
Proof.
  rewrite <- IndexByte_take. unfold slice. rewrite Nat.sub_0_r, drop_0.
  now destruct (IndexByte s c =? -1).
Qed.

Lemma before_app_hit (s t : bytes) (c : byte) :
  before c (s ++ c :: t) = before c s.
Proof.
  induction s as [|b s IH]; cbn [app before].
  - now rewrite decide_True.
  - destruct (decide (b = c)); [reflexivity|now rewrite IH].
Qed.

Lemma before_absent (s : bytes) (c : byte) : ~ In c s -> before c s = s.
Proof.
  induction s as [|b s IH]; intros Hn; cbn [before]; [reflexivity|].
  destruct (decide (b = c)) as [->|_]; [exfalso; apply Hn; now left|].
  rewrite IH; [reflexivity|]. intros Hin. apply Hn. now right.
Qed.

Lemma before_not_in (s : bytes) (c : byte) : ~ In c (before c s).
Proof.
  induction s as [|b s IH]; cbn [before]; [intros []|].
  destruct (decide (b = c)) as [_|Hne]; [intros []|].
  intros [E|Hin]; [contradiction|now apply IH].
Qed.

Lemma before_length (s : bytes) (c : byte) :
  (length (before c s) <= length s)%nat.
Proof.
  induction s as [|b s IH]; cbn [before]; [lia|].
  destruct (decide (b = c)); cbn [length]; lia.
Qed.

Lemma name_bytes_before (name : string) :
  before x00 (name_bytes name) = before x00 (take 12 (list_byte_of_string name)).
Proof.
  unfold name_bytes. set (nb := list_byte_of_string name).
  destruct (Nat.le_gt_cases 12 (length nb)) as [Hge|Hlt].
  - now rewrite take_app_le by lia.
  - rewrite take_app_ge by lia. rewrite take_replicate.
    rewrite (take_ge nb) by lia.
    destruct (Nat.min (12 - length nb) 12) as [|k] eqn:Ek; [lia|].
    cbn [replicate]. apply before_app_hit.
Qed.

(** The name decoding of [parse] applied to the name field of any name. *)
Lemma name_bytes_decode (name : string) :
  (if negb (IndexByte (name_bytes name) x00 =? -1)
   then string_of_list_byte
          (slice (name_bytes name) 0
             (Z.to_nat (IndexByte (name_bytes name) x00)))
   else string_of_list_byte (name_bytes name)) = carried_name name.
Proof.
  unfold carried_name. rewrite <- name_bytes_before.
  rewrite <- (IndexByte_before (name_bytes name) x00).
  now destruct (negb _).
Qed.

Lemma carried_name_wire (name : string) :
  carried_name name = name <-> wire_name name.
Proof.
  unfold carried_name, wire_name. set (nb := list_byte_of_string name).
  split.
  - intros E. apply (f_equal list_byte_of_string) in E.
    rewrite list_byte_of_string_of_list_byte in E. fold nb in E.
    split.
    + rewrite <- E. etransitivity; [apply before_length|].
      rewrite length_take. lia.
    + rewrite <- E. apply before_not_in.
  - intros [Hlen Hnul]. rewrite take_ge by lia.
    rewrite before_absent by exact Hnul.
    apply string_of_list_byte_of_string.
Qed.

(** What [parse] under [cfg'] does on the 36 header bytes that [buildData]
    writes under [cfg], followed by any stream [s]. *)
Lemma parse_built (cfg cfg' : FramerConfig) (D s : bytes) (name : string) :
  parse cfg' (header36 cfg D name ++ s) =
  if (ChainID cfg' =? ChainID cfg mod 2 ^ 32) &&
     bool_decide (nodeVersion cfg' = nodeVersion cfg)
  then match ReadBytes s (Z.of_nat (length D) mod 2 ^ 32) with
       | (_, Some err, s') => (inr err, s')
       | (payload, None, s') =>
           if crc32.ChecksumIEEE payload =? crc32.ChecksumIEEE D
           then (inl (delivered cfg D name payload), s')
           else (inr ErrDataChecksum, s')
       end
  else (inr ErrVerifyHeader, s).
Proof.
  unfold parse. cbv zeta.
  rewrite ReadBytes_app by (rewrite header36_length; reflexivity).
  unfold header36.
  set (hc := byteutils.FromUint32 (crc32.ChecksumIEEE (header_of cfg D name))).
  assert (Hlay : header_of cfg D name ++ hc =
            (MagicNumber ++ byteutils.FromUint32 (ChainID cfg) ++
               [x00; x00; x00; nodeVersion cfg]) ++
            name_bytes name ++
            (byteutils.FromUint32 (uint32 (Z.of_nat (length D))) ++
             byteutils.FromUint32 (crc32.ChecksumIEEE D) ++ hc)).
  { unfold header_of at 1. rewrite buildHeader_layout_any.
    rewrite <- !app_assoc. reflexivity. }
  assert (Hsl := header_slices
    (MagicNumber ++ byteutils.FromUint32 (ChainID cfg) ++
       [x00; x00; x00; nodeVersion cfg])
    (name_bytes name)
    (byteutils.FromUint32 (uint32 (Z.of_nat (length D))) ++
       byteutils.FromUint32 (crc32.ChecksumIEEE D) ++ hc)).
  rewrite <- Hlay in Hsl. cbv zeta in Hsl.
  destruct Hsl as (S1 & S2 & S3 & S4 & S5 & S6 & S7 & S8 & S9).
  { rewrite !length_app, FromUint32_length. reflexivity. }
  { apply name_bytes_length. }
  { subst hc. rewrite !length_app, !FromUint32_length. reflexivity. }
  rewrite S1, S2, S3, S4, S5, S6, S7, S8, S9.
  rewrite (name_bytes_decode name).
  assert (T1 : take 4 (MagicNumber ++ byteutils.FromUint32 (ChainID cfg) ++
                       [x00; x00; x00; nodeVersion cfg]) = MagicNumber)
    by reflexivity.
  assert (T2 : take 4 (drop 4 (MagicNumber ++ byteutils.FromUint32 (ChainID cfg) ++
                       [x00; x00; x00; nodeVersion cfg])) =
               byteutils.FromUint32 (ChainID cfg)).
  { destruct (FromUint32_cons (ChainID cfg)) as (a & b & c & d & ->).
    reflexivity. }
  assert (T3 : take 3 (drop 8 (MagicNumber ++ byteutils.FromUint32 (ChainID cfg) ++
                       [x00; x00; x00; nodeVersion cfg])) = [x00; x00; x00]).
  { destruct (FromUint32_cons (ChainID cfg)) as (a & b & c & d & ->).
    reflexivity. }
  assert (T4 : (MagicNumber ++ byteutils.FromUint32 (ChainID cfg) ++
                [x00; x00; x00; nodeVersion cfg]) !! 11%nat =
               Some (nodeVersion cfg)).
  { destruct (FromUint32_cons (ChainID cfg)) as (a & b & c & d & ->).
    reflexivity. }
  assert (T5 : take 4 (byteutils.FromUint32 (uint32 (Z.of_nat (length D))) ++
                 byteutils.FromUint32 (crc32.ChecksumIEEE D) ++ hc) =
               byteutils.FromUint32 (uint32 (Z.of_nat (length D))))
    by (apply take_app_length'; rewrite FromUint32_length; reflexivity).
  assert (T6 : take 4 (drop 4
                (byteutils.FromUint32 (uint32 (Z.of_nat (length D))) ++
                 byteutils.FromUint32 (crc32.ChecksumIEEE D) ++ hc)) =
               byteutils.FromUint32 (crc32.ChecksumIEEE D)).
  { rewrite drop_app_length' by (rewrite FromUint32_length; reflexivity).
    apply take_app_length'. rewrite FromUint32_length. reflexivity. }
  assert (T7 : (MagicNumber ++ byteutils.FromUint32 (ChainID cfg) ++
                  [x00; x00; x00; nodeVersion cfg]) ++ name_bytes name ++
               take 8 (byteutils.FromUint32 (uint32 (Z.of_nat (length D))) ++
                 byteutils.FromUint32 (crc32.ChecksumIEEE D) ++ hc) =
               header_of cfg D name).
  { unfold header_of. rewrite buildHeader_layout_any.
    rewrite (app_assoc (byteutils.FromUint32 (uint32 (Z.of_nat (length D))))
               (byteutils.FromUint32 (crc32.ChecksumIEEE D)) hc).
    rewrite take_app_length'
      by (rewrite length_app, !FromUint32_length; reflexivity).
    rewrite <- !app_assoc. reflexivity. }
  assert (T8 : drop 8 (byteutils.FromUint32 (uint32 (Z.of_nat (length D))) ++
                 byteutils.FromUint32 (crc32.ChecksumIEEE D) ++ hc) = hc).
  { rewrite app_assoc. apply drop_app_length'.
    rewrite length_app, !FromUint32_length. reflexivity. }
  rewrite T1, T2, T3, T4, T5, T6, T7, T8. clear T1 T2 T3 T4 T5 T6 T7 T8.
  unfold verifyHeader. cbn [magicNumber chainID version headerChecksum
    dataHeader dataLength dataChecksum msgName reserved data default].
  unfold id, byteutils.Equal. rewrite bool_decide_eq_true_2 by reflexivity.
  rewrite Uint32_FromUint32. cbn [negb].
  destruct (ChainID cfg' =? ChainID cfg mod 2 ^ 32); [|reflexivity].
  destruct (bool_decide (nodeVersion cfg' = nodeVersion cfg)); [|reflexivity].
  cbn [negb andb].
  subst hc. rewrite Uint32_FromUint32.
  rewrite (Z.mod_small (crc32.ChecksumIEEE (header_of cfg D name)))
    by apply ChecksumIEEE_range.
  rewrite Z.eqb_refl. cbn [negb].
  assert (Hdl : byteutils.Uint32
                  (byteutils.FromUint32 (uint32 (Z.of_nat (length D)))) =
                Z.of_nat (length D) mod 2 ^ 32).
  { rewrite Uint32_FromUint32. unfold uint32. now rewrite Z.mod_mod by lia. }
  rewrite Hdl.
  destruct (ReadBytes s (Z.of_nat (length D) mod 2 ^ 32)) as [[payload [e|]] s'];
    [reflexivity|].
  rewrite Uint32_FromUint32.
  rewrite (Z.mod_small (crc32.ChecksumIEEE D)) by apply ChecksumIEEE_range.
  unfold delivered.
  destruct (crc32.ChecksumIEEE payload =? crc32.ChecksumIEEE D); reflexivity.
Qed.


Lemma be_value_inj (l l' : bytes) :
  length l = length l' -> byteutils.be_value l = byteutils.be_value l' -> l = l'.
Proof.
  revert l'. induction l as [|b l IH] using rev_ind; intros l' Hlen Hv.
  - destruct l'; [reflexivity|discriminate].
  - destruct l' as [|b' l' _] using rev_ind.
    { rewrite length_app in Hlen. cbn in Hlen. lia. }
    rewrite !length_app in Hlen. cbn [length] in Hlen.
    rewrite !be_value_app in Hv. cbn [fold_left] in Hv.
    pose proof (byte_val_range b). pose proof (byte_val_range b').
    assert (byteutils.be_value l = byteutils.be_value l') by lia.
    assert (byte_val b = byte_val b') by lia.
    f_equal; [apply IH; [lia|assumption]|f_equal; now apply byte_val_inj].
Qed.

(** A header whose first 32 bytes do not hash to its last four is refused
    before anything else is read. *)
Lemma parse_bad_checksum (cfg : FramerConfig) (h s : bytes) :
  length h = 36%nat ->
  crc32.ChecksumIEEE (take 32 h) <> byteutils.Uint32 (drop 32 h) ->
  parse cfg (h ++ s) = (inr ErrVerifyHeader, s).
Proof.
  intros Hlen Hne. unfold parse. cbv zeta.
  rewrite ReadBytes_app by (rewrite Hlen; reflexivity).
  match goal with
  | |- context [verifyHeader cfg ?p] =>
      assert (Hv : verifyHeader cfg p = false); [|now rewrite Hv]
  end.
  unfold verifyHeader. cbn [magicNumber chainID version headerChecksum dataHeader].
  assert (E1 : slice h 0 offsetThirtyTwo = take 32 h) by reflexivity.
  assert (E2 : byteutils.Uint32 (slice h offsetThirtyTwo offsetThirtySix) =
               byteutils.Uint32 (drop 32 h)).
  { unfold byteutils.Uint32, slice. cbn [offsetThirtyTwo offsetThirtySix Nat.sub].
    now rewrite take_take. }
  rewrite E1, E2.
  destruct (Z.eqb_spec (crc32.ChecksumIEEE (take 32 h))
              (byteutils.Uint32 (drop 32 h))) as [E|_]; [contradiction|].
  cbn [negb].
  repeat match goal with |- context [if ?c then _ else _] => destruct c end;
    reflexivity.
Qed.

Lemma insert_differs_split (l : bytes) (i : nat) (b b0 : byte) :
  l !! i = Some b0 ->
  exists pre suf, l = pre ++ b0 :: suf /\ <[i := b]> l = pre ++ b :: suf.
Proof.
  intros Hi. exists (take i l), (drop (S i) l).
  split; [symmetry; now apply take_drop_middle|].
  apply lookup_lt_Some in Hi. now rewrite insert_take_drop.
Qed.

Lemma FromUint32_uint32 (v : Z) :
  byteutils.FromUint32 (uint32 v) = byteutils.FromUint32 v.
Proof. unfold byteutils.FromUint32, uint32. now rewrite Z.mod_mod by lia. Qed.

(** X1.  The frame that [buildData] writes, byte for byte: a header of
    32 bytes (magic number, chain id, three reserved zero bytes, version, the
    name cut or zero-padded to twelve bytes, payload length, payload
    checksum), the checksum of these 32 bytes, then the payload.  Bytes of a
    long name never reach the length and checksum fields. *)
Theorem buildData_layout (cfg : FramerConfig) (D : bytes) (name : string) :
  let H := MagicNumber ++ byteutils.FromUint32 (ChainID cfg) ++
           [x00; x00; x00; nodeVersion cfg] ++ name_bytes name ++
           byteutils.FromUint32 (Z.of_nat (length D)) ++
           byteutils.FromUint32 (crc32.ChecksumIEEE D) in
  buildData cfg D name = H ++ byteutils.FromUint32 (crc32.ChecksumIEEE H) ++ D /\
  length H = 32%nat /\
  length (buildData cfg D name) = (36 + length D)%nat.
Proof.
  cbv zeta.
  assert (E : header_of cfg D name =
              MagicNumber ++ byteutils.FromUint32 (ChainID cfg) ++
              [x00; x00; x00; nodeVersion cfg] ++ name_bytes name ++
              byteutils.FromUint32 (Z.of_nat (length D)) ++
              byteutils.FromUint32 (crc32.ChecksumIEEE D)).
  { unfold header_of. rewrite buildHeader_layout_any.
    now rewrite FromUint32_uint32. }
  rewrite <- E. split; [|split].
  - rewrite buildData_header36. unfold header36. now rewrite <- app_assoc.
  - apply header_of_length_any.
  - rewrite buildData_header36, length_app, header36_length. reflexivity.
Qed.

(** A frame followed by more of the stream parses to the record that
    [buildData] has encoded, and the rest is left unread. *)
Lemma parse_frame_stream (cfg : FramerConfig) (D rest : bytes) (name : string) :
  u32 (ChainID cfg) -> Z.of_nat (length D) < 2 ^ 32 ->
  parse cfg (buildData cfg D name ++ rest) = (inl (delivered cfg D name D), rest).
Proof.
  intros Hc Hl.
  rewrite buildData_header36, <- app_assoc, parse_built.
  rewrite (Z.mod_small (ChainID cfg)) by exact Hc.
  rewrite Z.eqb_refl, bool_decide_eq_true_2 by reflexivity. cbn [andb].
  rewrite Z.mod_small by lia. rewrite ReadBytes_app by reflexivity.
  now rewrite Z.eqb_refl.
Qed.

(** X2.  A frame built for any name and a payload of fewer than 2^32 bytes,
    followed by more of the stream, parses to that payload and leaves the
    rest of the stream unread.  The name that comes back is the name cut to
    twelve bytes and at its first NUL; it is the name sent exactly when the
    name has at most twelve bytes and no NUL. *)
Theorem parse_frame_any_name (cfg : FramerConfig) (D rest : bytes)
    (name : string) :
  u32 (ChainID cfg) -> Z.of_nat (length D) < 2 ^ 32 ->
  exists p, parse cfg (buildData cfg D name ++ rest) = (inl p, rest) /\
            data p = D /\ msgName p = carried_name name /\
            (msgName p = name <-> wire_name name).
Proof.
  intros Hc Hl. exists (delivered cfg D name D).
  split; [now apply parse_frame_stream|].
  split; [reflexivity|split; [reflexivity|apply carried_name_wire]].
Qed.

Lemma parse_frame_any_name_witness :
  let cfg := {| ChainID := 7; nodeVersion := x01 |} in
  (u32 (ChainID cfg) /\ Z.of_nat (length [x61; x62]) < 2 ^ 32) /\
  exists p, parse cfg (buildData cfg [x61; x62] "syncrouteReply" ++ [x4e]) =
              (inl p, [x4e]) /\
            data p = [x61; x62] /\ msgName p = carried_name "syncrouteReply" /\
            (msgName p = "syncrouteReply"%string <-> wire_name "syncrouteReply").
Proof.
  cbv zeta.
  assert (Hc : u32 (ChainID {| ChainID := 7; nodeVersion := x01 |}))
    by (vm_compute; split; [discriminate|reflexivity]).
  assert (Hl : Z.of_nat (length [x61; x62]) < 2 ^ 32) by (vm_compute; reflexivity).
  split; [auto|].
  exact (parse_frame_any_name {| ChainID := 7; nodeVersion := x01 |}
           [x61; x62] [x4e] "syncrouteReply" Hc Hl).
Defined.

(** X3.  If one of the 36 header bytes of a frame is replaced by a different
    byte, [parse] refuses the header, whatever the receiver's configuration,
    and reads nothing beyond the header. *)
Theorem parse_header_corruption (cfg cfg' : FramerConfig) (D s : bytes)
    (name : string) (i : nat) (b b0 : byte) :
  (i < 36)%nat -> buildData cfg D name !! i = Some b0 -> b <> b0 ->
  parse cfg' (<[i := b]> (buildData cfg D name ++ s)) =
    (inr ErrVerifyHeader, D ++ s).
Proof.
  intros Hi Hb0 Hne.
  pose proof (header_of_length_any cfg D name) as Hh.
  rewrite buildData_header36 in *. rewrite <- app_assoc.
  rewrite lookup_app_l in Hb0 by (rewrite header36_length; lia).
  rewrite insert_app_l by (rewrite header36_length; lia).
  apply parse_bad_checksum; [now rewrite length_insert, header36_length|].
  unfold header36 in *.
  set (hc := byteutils.FromUint32 (crc32.ChecksumIEEE (header_of cfg D name))) in *.
  assert (Hhc : length hc = 4%nat) by apply FromUint32_length.
  destruct (Nat.lt_ge_cases i 32) as [Hlt|Hge].
  - rewrite lookup_app_l in Hb0 by lia.
    rewrite insert_app_l by lia.
    rewrite take_app_length' by (now rewrite length_insert).
    rewrite drop_app_length' by (now rewrite length_insert).
    subst hc. rewrite Uint32_FromUint32, Z.mod_small by apply ChecksumIEEE_range.
    destruct (insert_differs_split _ i b b0 Hb0) as (pre & suf & E1 & E2).
    rewrite E2, E1. now apply ChecksumIEEE_single_byte.
  - rewrite lookup_app_r in Hb0 by lia.
    rewrite insert_app_r_alt by lia.
    rewrite take_app_length' by (symmetry; exact Hh).
    rewrite drop_app_length' by (symmetry; exact Hh).
    rewrite Hh in *.
    intros E.
    assert (E' : byteutils.Uint32 hc = byteutils.Uint32 (<[(i - 32)%nat := b]> hc)).
    { rewrite <- E. subst hc. rewrite Uint32_FromUint32.
      apply Z.mod_small, ChecksumIEEE_range. }
    unfold byteutils.Uint32 in E'.
    rewrite !take_ge in E' by (rewrite ?length_insert; lia).
    apply be_value_inj in E'; [|now rewrite length_insert].
    apply (f_equal (fun l => l !! (i - 32)%nat)) in E'.
    rewrite list_lookup_insert_eq in E' by lia.
    congruence.
Qed.

Lemma parse_header_corruption_witness :
  let cfg := {| ChainID := 7; nodeVersion := x01 |} in
  ((12 < 36)%nat /\ buildData cfg [x61] "hello" !! 12%nat = Some x68 /\
   x48 <> x68) /\
  parse cfg (<[12%nat := x48]> (buildData cfg [x61] "hello" ++ [])) =
    (inr ErrVerifyHeader, [x61] ++ []).
Proof.
  cbv zeta.
  assert (H1 : (12 < 36)%nat) by lia.
  assert (H2 : buildData {| ChainID := 7; nodeVersion := x01 |} [x61] "hello"
                 !! 12%nat = Some x68) by (vm_compute; reflexivity).
  assert (H3 : x48 <> x68) by discriminate.
  split; [auto|].
  exact (parse_header_corruption {| ChainID := 7; nodeVersion := x01 |}
           {| ChainID := 7; nodeVersion := x01 |} [x61] [] "hello" 12 x48 x68
           H1 H2 H3).
Defined.

(** X4.  A frame built under another chain id or another version is refused
    by [verifyHeader]: [parse] returns the header error and leaves the payload
    unread. *)
Theorem parse_foreign_frame (cfg cfg' : FramerConfig) (D s : bytes)
    (name : string) :
  u32 (ChainID cfg) ->
  ChainID cfg' <> ChainID cfg \/ nodeVersion cfg' <> nodeVersion cfg ->
  parse cfg' (buildData cfg D name ++ s) = (inr ErrVerifyHeader, D ++ s).
Proof.
  intros Hc Hdiff.
  rewrite buildData_header36, <- app_assoc, parse_built.
  rewrite (Z.mod_small (ChainID cfg)) by exact Hc.
  destruct Hdiff as [Hd|Hd].
  - destruct (Z.eqb_spec (ChainID cfg') (ChainID cfg)); [contradiction|reflexivity].
  - rewrite bool_decide_eq_false_2 by exact Hd. now rewrite andb_false_r.
Qed.

Lemma parse_foreign_frame_witness :
  let cfg := {| ChainID := 7; nodeVersion := x01 |} in
  let cfg' := {| ChainID := 8; nodeVersion := x01 |} in
  (u32 (ChainID cfg) /\
   (ChainID cfg' <> ChainID cfg \/ nodeVersion cfg' <> nodeVersion cfg)) /\
  parse cfg' (buildData cfg [x61] "hello" ++ []) =
    (inr ErrVerifyHeader, [x61] ++ []).
Proof.
  cbv zeta.
  assert (Hc : u32 (ChainID {| ChainID := 7; nodeVersion := x01 |}))
    by (vm_compute; split; [discriminate|reflexivity]).
  assert (Hd : ChainID {| ChainID := 8; nodeVersion := x01 |} <>
               ChainID {| ChainID := 7; nodeVersion := x01 |} \/
               nodeVersion {| ChainID := 8; nodeVersion := x01 |} <>
               nodeVersion {| ChainID := 7; nodeVersion := x01 |})
    by (left; discriminate).
  split; [auto|].
  exact (parse_foreign_frame {| ChainID := 7; nodeVersion := x01 |}
           {| ChainID := 8; nodeVersion := x01 |} [x61] [] "hello" Hc Hd).
Defined.

(** X5.  A stream that ends inside a frame gives the transport's read
    error: every proper prefix of a frame fails in [ReadBytes], in the header
    or in the payload, and no protocol record is returned. *)
Theorem parse_truncated_frame (cfg : FramerConfig) (D : bytes) (name : string)
    (n : nat) :
  u32 (ChainID cfg) -> Z.of_nat (length D) < 2 ^ 32 ->
  (n < length (buildData cfg D name))%nat ->
  parse cfg (take n (buildData cfg D name)) = (inr ErrIO, []).
Proof.
  intros Hc Hl Hn.
  rewrite buildData_header36 in *.
  rewrite length_app, header36_length in Hn.
  destruct (Nat.lt_ge_cases n 36) as [Hlt|Hge].
  - unfold parse, ReadBytes.
    rewrite decide_False; [reflexivity|].
    rewrite length_take, length_app, header36_length.
    change (Z.to_nat (Z.of_nat offsetThirtySix)) with 36%nat. lia.
  - rewrite take_app_ge by (rewrite header36_length; lia).
    rewrite header36_length, parse_built.
    rewrite (Z.mod_small (ChainID cfg)) by exact Hc.
    rewrite Z.eqb_refl, bool_decide_eq_true_2 by reflexivity. cbn [andb].
    rewrite Z.mod_small by lia. unfold ReadBytes.
    rewrite decide_False; [reflexivity|].
    rewrite length_take, Nat2Z.id. lia.
Qed.

Lemma parse_truncated_frame_witness :
  let cfg := {| ChainID := 7; nodeVersion := x01 |} in
  (u32 (ChainID cfg) /\ Z.of_nat (length [x61; x62]) < 2 ^ 32 /\
   (37 < length (buildData cfg [x61; x62] "hello"))%nat) /\
  parse cfg (take 37 (buildData cfg [x61; x62] "hello")) = (inr ErrIO, []).
Proof.
  cbv zeta.
  assert (Hc : u32 (ChainID {| ChainID := 7; nodeVersion := x01 |}))
    by (vm_compute; split; [discriminate|reflexivity]).
  assert (Hl : Z.of_nat (length [x61; x62]) < 2 ^ 32) by (vm_compute; reflexivity).
  assert (Hn : (37 < length (buildData {| ChainID := 7; nodeVersion := x01 |}
                               [x61; x62] "hello"))%nat)
    by (vm_compute; lia).
  split; [auto|].
  exact (parse_truncated_frame {| ChainID := 7; nodeVersion := x01 |}
           [x61; x62] "hello" 37 Hc Hl Hn).
Defined.

End FrameFacts.

(** ** Sending, leaving and the responder's handshake *)

Section SendFacts.

Import p2p frame session handshake.
Context `{Libp2p} `{HelloCodec} `{HelloEncoder}.

(** [sendMsg] on an open stream appends the frame; on a closed one it
    changes nothing. *)
Lemma sendMsg_open (msgName : string) (msg : bytes) (s : positive) (node : Node) :
  closed (streamState node s) = false ->
  sendMsg msgName msg s node =
    (with_streams
       (<[s := {| written := written (streamState node s) ++
                             buildData (framer node) msg msgName;
                  closed := false |}]> (streams node)) node, None).
Proof. intros Hc. unfold sendMsg, Write. now rewrite Hc. Qed.

Lemma sendMsg_closed (msgName : string) (msg : bytes) (s : positive) (node : Node) :
  closed (streamState node s) = true ->
  sendMsg msgName msg s node = (node, Some ErrIO).
Proof. intros Hc. unfold sendMsg, Write. now rewrite Hc. Qed.

Lemma streamState_with_streams_eq (node : Node) (s : positive) (st : Stream)
    (m : gmap positive Stream) :
  streamState (with_streams (<[s := st]> m) node) s = st.
Proof. unfold streamState. cbn. now rewrite lookup_insert_eq. Qed.

Lemma streamState_with_streams_ne (node : Node) (s s' : positive) (st : Stream) :
  s' <> s ->
  streamState (with_streams (<[s := st]> (streams node)) node) s' =
  streamState node s'.
Proof. intros Hne. unfold streamState. cbn. now rewrite lookup_insert_ne. Qed.

Lemma gate_open (msgName target : string) (node : Node) :
  msgName = NetworkID \/ sameNetwork target node ->
  negb (bool_decide (msgName = NetworkID)) && negb (checkNetworkID target node)
    = false.
Proof.
  intros [->|Hs].
  - now rewrite bool_decide_eq_true_2.
  - apply checkNetworkID_spec in Hs. rewrite Hs. cbn. apply andb_false_r.
Qed.

(** X6.  When the gate is open (the message is [networkid], or the target's
    cached network id shares a bit with ours), the target has a stream store
    and its stream is open, [SendMsg] returns no error and appends exactly
    one frame to that stream; every other stream and every other field of
    the node is as before.  A receiver with the same chain id and version
    parses the appended bytes back to the payload, under the name cut to the
    twelve-byte field. *)
Theorem SendMsg_delivers (name : string) (msg : bytes) (target : string)
    (node : Node) (st : StreamStore) :
  name = NetworkID \/ sameNetwork target node ->
  stream_ node !! target = Some st ->
  closed (streamState node (stream st)) = false ->
  u32 (cfgChainID (config node)) -> Z.of_nat (length msg) < 2 ^ 32 ->
  let before_ := written (streamState node (stream st)) in
  let node' := fst (SendMsg name msg target node) in
  snd (SendMsg name msg target node) = None /\
  written (streamState node' (stream st)) =
    before_ ++ buildData (framer node) msg name /\
  (forall s', s' <> stream st -> streamState node' s' = streamState node s') /\
  node' = with_streams (streams node') node /\
  exists p,
    parse (framer node) (drop (length before_) (written (streamState node' (stream st))))
      = (inl p, []) /\
    data p = msg /\ msgName p = carried_name name.
Proof.
  intros Hgate Hst Hopen Hc Hl. cbv zeta.
  unfold SendMsg. rewrite (gate_open _ _ _ Hgate), Hst.
  rewrite (sendMsg_open _ _ _ _ Hopen). cbn [fst snd].
  rewrite streamState_with_streams_eq. cbn [written].
  split; [reflexivity|]. split; [reflexivity|]. split.
  { intros s' Hne. now apply streamState_with_streams_ne. }
  split; [reflexivity|].
  rewrite drop_app_length.
  pose proof (parse_frame_stream (framer node) msg [] name Hc Hl) as Hp.
  rewrite app_nil_r in Hp. eexists. split; [exact Hp|]. split; reflexivity.
Qed.

Lemma SendMsg_error_node (name : string) (msg : bytes) (target : string)
    (node node' : Node) (e : error) :
  SendMsg name msg target node = (node', Some e) -> node' = node.
Proof.
  unfold SendMsg.
  destruct (negb (bool_decide (name = NetworkID)) &&
            negb (checkNetworkID target node)); [now intros [= <- _]|].
  destruct (stream_ node !! target) as [st|]; [|now intros [= <- _]].
  destruct (closed (streamState node (stream st))) eqn:Ec.
  - rewrite (sendMsg_closed _ _ _ _ Ec). now intros [= <- _].
  - rewrite (sendMsg_open _ _ _ _ Ec). discriminate.
Qed.


(** X8.  [Bye] ends the session of [key]: afterwards every [SendMsg] to
    [key] fails before it reaches the transport and leaves the node as it is.
    The stream is closed with what was written on it kept, the sessions of
    the other keys stay, the peer's addresses are set with TTL 0, and the
    peer leaves the routing table unless it is a boot node.  The cached
    network ids are not touched. *)
Theorem Bye_ends_session (pid : PeerID) (addrs : list Multiaddr) (s : positive)
    (key : string) (node : Node) :
  let node' := Bye pid addrs s key node in
  (forall name msg,
     SendMsg name msg key node' = (node', Some ErrNotSameNetwork) \/
     SendMsg name msg key node' = (node', Some ErrStreamNotExist)) /\
  closed (streamState node' s) = true /\
  written (streamState node' s) = written (streamState node s) /\
  (forall key', key' <> key -> stream_ node' !! key' = stream_ node !! key') /\
  peerstore node' = SetAddrs pid addrs 0 (peerstore node) /\
  routeTable node' =
    (if InArray (Pretty pid) (bootIds node) then routeTable node
     else Remove pid (routeTable node)) /\
  networkIDCache node' = networkIDCache node.
Proof.
  cbv zeta. destruct (Bye_session pid addrs s key node) as [B1 B2].
  split; [|split; [exact B2|split; [|split; [|split; [reflexivity|split]]]]].
  - intros name msg. unfold SendMsg.
    destruct (negb (bool_decide (name = NetworkID)) && _); [now left|].
    rewrite B1. now right.
  - unfold Bye, Close. now rewrite streamState_with_streams_eq.
  - intros key' Hne. unfold Bye, Close. cbn. now rewrite lookup_delete_ne.
  - unfold Bye, Close, clearPeerStore. cbn.
    now destruct (InArray (Pretty pid) (bootIds node)).
  - reflexivity.
Qed.


Lemma sendMsg_open_fields (name : string) (msg : bytes) (s : positive)
    (node : Node) :
  closed (streamState node s) = false ->
  closed (streamState (fst (sendMsg name msg s node)) s) = false /\
  framer (fst (sendMsg name msg s node)) = framer node /\
  config (fst (sendMsg name msg s node)) = config node.
Proof.
  intros Hc. rewrite (sendMsg_open _ _ _ _ Hc). cbn [fst].
  now rewrite streamState_with_streams_eq.
Qed.

(** What [handleHelloMsg] returns when the hello matches, the reply can be
    marshalled and the stream is open. *)
Lemma handleHelloMsg_ready (data okdata : bytes) (pid : PeerID) (s : positive)
    (addrs : Multiaddr) (key : string) (node : Node) :
  okMatches data pid ->
  marshalHello (NewHelloMessage (IDString (id node)) p2p.ClientVersion) =
    inl okdata ->
  closed (streamState node s) = false ->
  handleHelloMsg data pid s addrs key node =
    (true,
     storePeer pid s key
       (with_streams
          (<[s := {| written :=
                       (written (streamState node s) ++
                        buildData (framer node) okdata OK) ++
                       buildData (framer node)
                         (byteutils.FromUint32 (cfgNetworkID (config node)))
                         NetworkID;
                     closed := false |}]> (streams node))
          (addPermanent pid addrs node))).
Proof.
  intros Hm Henc Hopen. apply okMatches_decode in Hm. unfold handleHelloMsg.
  destruct (decodeHello data) as [hello|e]; [|contradiction].
  rewrite Hm, Henc.
  assert (Hopen1 : closed (streamState (addPermanent pid addrs node) s) = false)
    by exact Hopen.
  rewrite (sendMsg_open _ _ _ _ Hopen1).
  rewrite sendMsg_open by (now rewrite streamState_with_streams_eq).
  rewrite streamState_with_streams_eq. cbn [written negb].
  do 2 f_equal. unfold with_streams, addPermanent, framer.
  cbn [id config version stream_ streamCache peerstore routeTable networkIDCache bootIds streams]. f_equal.
  now rewrite insert_insert_eq.
Qed.

(** What [handleHelloMsg] returns otherwise: [false], and a node that
    [Bye] leaves. *)
Lemma handleHelloMsg_refused (data : bytes) (pid : PeerID) (s : positive)
    (addrs : Multiaddr) (key : string) (node : Node) :
  ~ (okMatches data pid /\
     (exists okdata,
        marshalHello (NewHelloMessage (IDString (id node)) p2p.ClientVersion) =
          inl okdata) /\
     closed (streamState node s) = false) ->
  exists node0,
    handleHelloMsg data pid s addrs key node =
      (false, Bye pid [addrs] s key node0).
Proof.
  intros Hnot. rewrite okMatches_decode in Hnot. unfold handleHelloMsg.
  destruct (decodeHello data) as [hello|e]; [|eauto].
  destruct (_ && _); [|eauto].
  destruct (marshalHello _) as [okdata|e]; [|eauto].
  destruct (closed (streamState node s)) eqn:Hc.
  - assert (Hc1 : closed (streamState (addPermanent pid addrs node) s) = true)
      by exact Hc.
    rewrite (sendMsg_closed _ _ _ _ Hc1). eauto.
  - exfalso. apply Hnot. eauto.
Qed.

(** X9.  [handleHelloMsg] accepts the peer exactly when the hello payload
    decodes to the printed id of the stream's remote peer and to our client
    version, our own hello can be marshalled and the stream takes the
    replies.  Then the stream has received an [ok] frame with our hello
    followed by a [networkid] frame with our network id in four big-endian
    bytes, the peer's address is kept with the permanent TTL, and the stream
    store in state OK is kept under the peer's key, inserted into the stream
    cache and the routing table updated.  Otherwise the result is [false]
    and the session is ended by [Bye]. *)
Theorem handleHelloMsg_accepts_iff (data : bytes) (pid : PeerID) (s : positive)
    (addrs : Multiaddr) (key : string) (node : Node) :
  let ok := NewHelloMessage (IDString (id node)) p2p.ClientVersion in
  let result := fst (handleHelloMsg data pid s addrs key node) in
  let node' := snd (handleHelloMsg data pid s addrs key node) in
  let ready :=
    okMatches data pid /\ (exists okdata, marshalHello ok = inl okdata) /\
    closed (streamState node s) = false in
  (result = true <-> ready) /\
  (forall okdata,
     okMatches data pid -> marshalHello ok = inl okdata ->
     closed (streamState node s) = false ->
     written (streamState node' s) =
       (written (streamState node s) ++ buildData (framer node) okdata OK) ++
       buildData (framer node)
         (byteutils.FromUint32 (cfgNetworkID (config node))) NetworkID /\
     stream_ node' !! key = Some (NewStreamStore key SOK s) /\
     streamCache node' = streamCache node ++ [NewStreamStore key SOK s] /\
     peerstore node' = AddAddr pid addrs PermanentAddrTTL (peerstore node) /\
     routeTable node' = Update pid (routeTable node)) /\
  (~ ready ->
     result = false /\ stream_ node' !! key = None /\
     closed (streamState node' s) = true).
Proof.
  cbv zeta.
  set (ready := okMatches data pid /\ _ /\ _).
  assert (Hdec : ready \/ ~ ready).
  { subst ready. rewrite okMatches_decode.
    destruct (decodeHello data) as [hello|e]; [|tauto].
    destruct (_ && _); [|right; intros (Hf & _); discriminate Hf].
    destruct (marshalHello _) as [okdata|e];
      [|right; intros (_ & (o & Ho) & _); discriminate Ho].
    destruct (closed (streamState node s)); [right; intros (_ & _ & Hf); discriminate Hf|].
    left. eauto. }
  assert (Hno : ~ ready ->
            fst (handleHelloMsg data pid s addrs key node) = false /\
            stream_ (snd (handleHelloMsg data pid s addrs key node)) !! key = None /\
            closed (streamState (snd (handleHelloMsg data pid s addrs key node)) s)
              = true).
  { intros Hn. destruct (handleHelloMsg_refused data pid s addrs key node Hn) as (node0 & ->).
    cbn [fst snd]. destruct (Bye_session pid [addrs] s key node0) as [B1 B2].
    auto. }
  split; [|split; [|exact Hno]].
  - split.
    + intros Ht. destruct Hdec as [Hr|Hn]; [exact Hr|].
      destruct (Hno Hn) as (Hf & _). congruence.
    + intros (Hm & (okdata & Henc) & Hopen).
      now rewrite (handleHelloMsg_ready data okdata pid s addrs key node Hm Henc Hopen).
  - intros okdata Hm Henc Hopen.
    rewrite (handleHelloMsg_ready data okdata pid s addrs key node Hm Henc Hopen).
    cbn [snd]. unfold storePeer, streamState, with_streams, addPermanent.
    cbn [id config version stream_ streamCache peerstore routeTable networkIDCache bootIds streams].
    rewrite !lookup_insert_eq. cbn [default written]. auto.
Qed.

(** X10.  The handshake end to end.  The responder [R] receives a matching
    hello on an open, so far unused stream; what it writes there, read by an
    initiator [I] of the same chain id and version, parses to an [ok] frame
    whose payload [handleOkMsg] accepts for the peer [R], followed by a
    [networkid] frame that carries the responder's network id. *)
Theorem handshake_completes (R I : Node) (data okdata : bytes) (pidI : PeerID)
    (sR sI : positive) (addrsI addrsR : Multiaddr) (keyI keyR : string) :
  okMatches data pidI ->
  marshalHello (NewHelloMessage (IDString (id R)) p2p.ClientVersion) =
    inl okdata ->
  decodeHello okdata =
    inl (NewHelloMessage (IDString (id R)) p2p.ClientVersion) ->
  streamState R sR = openStream ->
  framer I = framer R -> u32 (cfgChainID (config R)) ->
  Z.of_nat (length okdata) < 2 ^ 32 ->
  let R' := snd (handleHelloMsg data pidI sR addrsI keyI R) in
  exists p q rest,
    parse (framer I) (written (streamState R' sR)) = (inl p, rest) /\
    msgName p = OK /\
    handleOkMsg (p2p.data p) (id R) sI addrsR keyR I =
      (true, acceptPeer (id R) sI addrsR keyR I) /\
    parse (framer I) rest = (inl q, []) /\
    msgName q = NetworkID /\
    byteutils.Uint32 (p2p.data q) = cfgNetworkID (config R) mod 2 ^ 32.
Proof.
  intros Hm Henc Hdec Hfresh Hfr Hc Hl. cbv zeta.
  assert (Hopen : closed (streamState R sR) = false) by now rewrite Hfresh.
  rewrite (handleHelloMsg_ready data okdata pidI sR addrsI keyI R Hm Henc Hopen).
  cbn [snd]. unfold storePeer, streamState at 1. cbn [streams with_streams].
  rewrite lookup_insert_eq. cbn [default written]. rewrite Hfresh. cbn [written app].
  rewrite Hfr.
  assert (Hc' : u32 (ChainID (framer R))) by exact Hc.
  pose proof (parse_frame_stream (framer R) okdata
                (buildData (framer R)
                   (byteutils.FromUint32 (cfgNetworkID (config R))) NetworkID)
                OK Hc' Hl) as Hp.
  set (p := delivered (framer R) okdata OK okdata) in Hp.
  assert (Hpd : p2p.data p = okdata) by reflexivity.
  assert (Hpn : msgName p = carried_name OK) by reflexivity.
  assert (Hl4 : Z.of_nat (length (byteutils.FromUint32 (cfgNetworkID (config R))))
                < 2 ^ 32) by (rewrite FromUint32_length; reflexivity).
  pose proof (parse_frame_stream (framer R)
                (byteutils.FromUint32 (cfgNetworkID (config R))) []
                NetworkID Hc' Hl4) as Hq.
  set (q := delivered (framer R)
              (byteutils.FromUint32 (cfgNetworkID (config R))) NetworkID
              (byteutils.FromUint32 (cfgNetworkID (config R)))) in Hq.
  assert (Hqd : p2p.data q =
                byteutils.FromUint32 (cfgNetworkID (config R))) by reflexivity.
  assert (Hqn : msgName q = carried_name NetworkID) by reflexivity.
  rewrite app_nil_r in Hq.
  exists p, q. eexists. split; [exact Hp|].
  split; [rewrite Hpn; reflexivity|].
  split.
  { rewrite Hpd. unfold handleOkMsg. rewrite Hdec. cbn [NewHelloMessage NodeID
      ClientVersion]. now rewrite !bool_decide_eq_true_2 by reflexivity. }
  split; [exact Hq|]. split; [rewrite Hqn; reflexivity|].
  rewrite Hqd. apply Uint32_FromUint32.
Qed.

End SendFacts.

Section RouteFacts.

Import p2p frame session handshake.
Context `{Libp2p} `{HelloCodec}.
Context (PeerAddrs : PeerID -> Peerstore -> list Multiaddr).

(** X11.  [SyncRoutes] to a peer without a known address, or whose cached
    network id shares no bit with ours, sends nothing: it sets the peer's
    addresses with TTL 0 and removes the peer from the routing table unless
    it is a boot node, and leaves sessions and streams as they are. *)
Theorem SyncRoutes_drops_peer (pid : PeerID) (node : Node) :
  PeerAddrs pid (peerstore node) = [] \/ ~ sameNetwork (Pretty pid) node ->
  let node' := SyncRoutes PeerAddrs pid node in
  node' = clearPeerStore pid (PeerAddrs pid (peerstore node)) node /\
  streams node' = streams node /\ stream_ node' = stream_ node /\
  peerstore node' =
    SetAddrs pid (PeerAddrs pid (peerstore node)) 0 (peerstore node) /\
  routeTable node' =
    (if InArray (Pretty pid) (bootIds node) then routeTable node
     else Remove pid (routeTable node)).
Proof.
  intros Hcase. cbv zeta.
  assert (E : SyncRoutes PeerAddrs pid node =
              clearPeerStore pid (PeerAddrs pid (peerstore node)) node).
  { unfold SyncRoutes. destruct Hcase as [->|Hs]; [reflexivity|].
    destruct (length (PeerAddrs pid (peerstore node)) =? 0)%nat; [reflexivity|].
    destruct (SendMsg SyncRoute [] (Pretty pid) node) as [n' [e|]] eqn:Es;
      [now rewrite (SendMsg_error_node _ _ _ _ _ _ Es)|].
    exfalso. unfold SendMsg in Es.
    rewrite bool_decide_eq_false_2 in Es by discriminate.
    destruct (checkNetworkID (Pretty pid) node) eqn:Eg.
    - apply checkNetworkID_spec in Eg. contradiction.
    - discriminate Es. }
  rewrite E. unfold clearPeerStore. cbn.
  repeat split. now destruct (InArray (Pretty pid) (bootIds node)).
Qed.

End RouteFacts.

(** ** The handshake in the small network *)

Section HandshakeScenario.

Import p2p frame session handshake net peers.

Lemma near_sameNetwork : sameNetwork "QmNear" localNode.
Proof. exists 1. split; vm_compute; reflexivity. Qed.

Lemma remote_not_sameNetwork : ~ sameNetwork "QmRemote" localNode.
Proof.
  intros (tid & Hl & Hgt). vm_compute in Hl. injection Hl as <-.
  vm_compute in Hgt. discriminate Hgt.
Qed.

(** A [syncroute] to "QmNear", whose network mask shares a bit with ours. *)
Lemma SendMsg_delivers_witness :
  let st := NewStreamStore "QmNear" SOK 2%positive in
  (("syncroute"%string = NetworkID \/ sameNetwork "QmNear" localNode) /\
   stream_ localNode !! "QmNear"%string = Some st /\
   closed (streamState localNode (stream st)) = false /\
   u32 (cfgChainID (config localNode)) /\ Z.of_nat (length [x61]) < 2 ^ 32) /\
  snd (SendMsg "syncroute" [x61] "QmNear" localNode) = None /\
  written (streamState (fst (SendMsg "syncroute" [x61] "QmNear" localNode))
             (stream st)) =
    written (streamState localNode (stream st)) ++
    buildData (framer localNode) [x61] "syncroute".
Proof.
  cbv zeta.
  assert (H1 : "syncroute"%string = NetworkID \/ sameNetwork "QmNear" localNode)
    by (right; exact near_sameNetwork).
  assert (H2 : stream_ localNode !! "QmNear"%string =
               Some (NewStreamStore "QmNear" SOK 2%positive))
    by (vm_compute; reflexivity).
  assert (H3 : closed (streamState localNode
                         (stream (NewStreamStore "QmNear" SOK 2%positive))) = false)
    by (vm_compute; reflexivity).
  assert (H4 : u32 (cfgChainID (config localNode)))
    by (vm_compute; split; [discriminate|reflexivity]).
  assert (H5 : Z.of_nat (length [x61]) < 2 ^ 32) by (vm_compute; reflexivity).
  split; [auto|].
  destruct (SendMsg_delivers "syncroute" [x61] "QmNear" localNode
              (NewStreamStore "QmNear" SOK 2%positive) H1 H2 H3 H4 H5)
    as (R1 & R2 & _).
  split; [exact R1|exact R2].
Defined.


Lemma localHello_matches : okMatches localHello localPeer.
Proof. eexists. split; [vm_compute; reflexivity|]. split; reflexivity. Qed.

(** "QmRemote" answers the hello of "QmLocal"; a hello that names another
    node is refused. *)
Lemma handleHelloMsg_accepts_iff_witness :
  (okMatches localHello localPeer /\
   marshalHello (NewHelloMessage (IDString (id responder)) p2p.ClientVersion) =
     inl goodOK /\
   closed (streamState responder 1%positive) = false) /\
  fst (handleHelloMsg localHello localPeer 1%positive localAddr "QmLocal"
         responder) = true /\
  stream_ (snd (handleHelloMsg localHello localPeer 1%positive localAddr
                  "QmLocal" responder)) !! "QmLocal"%string =
    Some (NewStreamStore "QmLocal" SOK 1%positive).
Proof.
  assert (H1 : okMatches localHello localPeer) by exact localHello_matches.
  assert (H2 : marshalHello
                 (NewHelloMessage (IDString (id responder)) p2p.ClientVersion) =
               inl goodOK) by reflexivity.
  assert (H3 : closed (streamState responder 1%positive) = false) by reflexivity.
  split; [auto|].
  destruct (handleHelloMsg_accepts_iff localHello localPeer 1%positive localAddr
              "QmLocal" responder) as (Hiff & Hyes & _).
  split.
  - apply Hiff. eauto.
  - exact (proj1 (proj2 (Hyes goodOK H1 H2 H3))).
Defined.

(** "QmLocal" says hello to "QmRemote" and accepts its answer. *)
Lemma handshake_completes_witness :
  exists p q rest,
    parse (framer localNode)
      (written (streamState
         (snd (handleHelloMsg localHello localPeer 1%positive localAddr
                 "QmLocal" responder)) 1%positive)) = (inl p, rest) /\
    msgName p = OK /\
    handleOkMsg (p2p.data p) (id responder) 1%positive remoteAddr "QmRemote"
      localNode =
      (true, acceptPeer (id responder) 1%positive remoteAddr "QmRemote" localNode) /\
    parse (framer localNode) rest = (inl q, []) /\
    msgName q = NetworkID /\
    byteutils.Uint32 (p2p.data q) = cfgNetworkID (config responder) mod 2 ^ 32.
Proof.
  assert (H1 : okMatches localHello localPeer) by exact localHello_matches.
  assert (H2 : marshalHello
                 (NewHelloMessage (IDString (id responder)) p2p.ClientVersion) =
               inl goodOK) by reflexivity.
  assert (H3 : decodeHello goodOK =
               inl (NewHelloMessage (IDString (id responder)) p2p.ClientVersion))
    by (vm_compute; reflexivity).
  assert (H4 : streamState responder 1%positive = openStream) by reflexivity.
  assert (H5 : framer localNode = framer responder) by reflexivity.
  assert (H6 : u32 (cfgChainID (config responder)))
    by (vm_compute; split; [discriminate|reflexivity]).
  assert (H7 : Z.of_nat (length goodOK) < 2 ^ 32) by (vm_compute; reflexivity).
  exact (handshake_completes responder localNode localHello goodOK localPeer
           1%positive 1%positive localAddr remoteAddr "QmLocal" "QmRemote"
           H1 H2 H3 H4 H5 H6 H7).
Defined.

(** "QmRemote" is behind the network gate: [SyncRoutes] drops it. *)
Lemma SyncRoutes_drops_peer_witness :
  (PeerAddrs remote (peerstore localNode) = [] \/
   ~ sameNetwork (Pretty remote) localNode) /\
  SyncRoutes PeerAddrs remote localNode =
    clearPeerStore remote (PeerAddrs remote (peerstore localNode)) localNode.
Proof.
  assert (H1 : PeerAddrs remote (peerstore localNode) = [] \/
               ~ sameNetwork (Pretty remote) localNode)
    by (right; exact remote_not_sameNetwork).
  split; [exact H1|].
  exact (proj1 (SyncRoutes_drops_peer PeerAddrs remote localNode H1)).
Defined.

End HandshakeScenario.

(** ** Protobuf conversion, signing and integrity *)

Section ProtoFacts.

Import core blockstate blockio.
Context `{Hasher} `{Merkle} `{Executor} `{Codec} `{Dynasty}.
Context {P : Type} `{TxPool P}.
Context {T : Type} `{TxProto T}.

Lemma with_transactions_same (block : Block) :
  with_transactions (transactions block) block = block.
Proof. now destruct block. Qed.

Lemma txsToProto_spec (vs : list Transaction) (acc out : list T) :
  txsToProto vs acc = inl out ->
  exists pvs, out = acc ++ pvs /\
    Forall2 (fun tx v => tx_ToProto tx = inl (MsgTransaction v)) vs pvs.
Proof.
  revert acc. induction vs as [|v vs IH]; intros acc; cbn.
  - intros [= <-]. exists []. now rewrite app_nil_r.
  - destruct (tx_ToProto v) as [[h|b|t|]|e] eqn:Ev; try discriminate.
    intros Hr. destruct (IH _ Hr) as (pvs & -> & Hf).
    exists (t :: pvs). rewrite <- app_assoc. split; [reflexivity|].
    now constructor.
Qed.

Lemma txsFromProto_spec (vs : list Transaction) (pvs : list T) (block : Block) :
  Forall2 (fun tx v => tx_FromProto v = inl tx) vs pvs ->
  txsFromProto pvs block =
    (with_transactions (transactions block ++ vs) block, None).
Proof.
  intros Hf. revert block. induction Hf as [|tx v vs pvs Hv Hf IH]; intros block.
  - cbn. now rewrite app_nil_r, with_transactions_same.
  - cbn. rewrite Hv, IH. cbn. now rewrite <- app_assoc.
Qed.

Lemma uint8_uint32 (a : Z) : 0 <= a < 256 -> uint8 (uint32 a) = a.
Proof.
  intros Ha. unfold uint8, uint32. rewrite (Z.mod_small a (2 ^ 32)) by lia.
  apply Z.mod_small. lia.
Qed.

(** X12.  A header survives [ToProto] followed by [FromProto], whatever the
    receiving header held before.  In the other direction every field of a
    header message is taken over except [Alg], a [uint32] of which the
    header keeps the low eight bits.  A message that is not a header
    message gives the conversion error and leaves the header as it is. *)
Theorem BlockHeader_proto_roundtrip (b b0 : BlockHeader) :
  0 <= alg b < 256 ->
  Header_FromProto (T := T) (fst (Header_ToProto b)) b0 = (b, None) /\
  (forall m : pbBlockHeader,
     exists b',
       Header_FromProto (T := T) (MsgBlockHeader m) b0 = (b', None) /\
       alg b' = pb_Alg m mod 256 /\
       (0 <= pb_Alg m < 256 ->
          fst (Header_ToProto (T := T) b') = MsgBlockHeader m)) /\
  (forall msg : Message T,
     (forall m, msg <> MsgBlockHeader m) ->
     Header_FromProto msg b0 = (b0, Some ErrNotBlockHeader)).
Proof.
  intros Ha. split; [|split].
  - unfold Header_ToProto, Header_FromProto. cbn.
    rewrite (uint8_uint32 _ Ha). destruct b as [? ? ? ? ? ? [?] ? ? ? ? ?].
    reflexivity.
  - intros m. eexists. split; [reflexivity|]. split; [reflexivity|].
    intros Hm. unfold Header_ToProto. cbn.
    unfold uint8, uint32. change (2 ^ 8) with 256.
    rewrite (Z.mod_small (pb_Alg m) 256) by lia.
    rewrite Z.mod_small by lia. now destruct m.
  - intros [m|b1|t|] Hm; try reflexivity. now destruct (Hm m).
Qed.

(** X13.  If [ToProto] succeeds on a block and the conversion of its
    transactions can be undone, [FromProto] of the message gives the
    receiving block the header, the transactions and the height of the
    block.  The transactions are appended to those the receiver holds, and
    the sealed flag, the overlays and the other fields of the receiver stay. *)
Theorem Block_proto_roundtrip (block target : Block) (msg : Message T) :
  Block_ToProto block = inl msg ->
  (forall tx v, In tx (transactions block) ->
     tx_ToProto tx = inl (MsgTransaction v) -> tx_FromProto v = inl tx) ->
  0 <= alg (header block) < 256 ->
  Block_FromProto msg target =
    Some (with_height (height block)
            (with_transactions (transactions target ++ transactions block)
               (with_header (header block) target)), None).
Proof.
  intros Hto Hrt Ha. unfold Block_ToProto in Hto. cbn [Header_ToProto fst] in Hto.
  destruct (txsToProto (transactions block) []) as [txs|e] eqn:Etxs;
    [|discriminate].
  injection Hto as <-.
  destruct (txsToProto_spec _ _ _ Etxs) as (pvs & Hout & Hf).
  cbn [app] in Hout. subst txs.
  unfold Block_FromProto. cbn [pb_Header pb_Transactions pb_Height].
  unfold Header_FromProto. cbn [pb_Hash pb_ParentHash pb_StateRoot pb_TxsRoot
    pb_EventsRoot pb_DposContext pb_Nonce pb_Coinbase pb_Timestamp pb_ChainId
    pb_Alg pb_Sign].
  rewrite (uint8_uint32 _ Ha).
  assert (Hh : {| hash := hash (header block);
                  parentHash := parentHash (header block);
                  stateRoot := stateRoot (header block);
                  txsRoot := txsRoot (header block);
                  eventsRoot := eventsRoot (header block);
                  dposContext := dposContext (header block);
                  coinbase := {| address := address (coinbase (header block)) |};
                  nonce := nonce (header block);
                  timestamp := timestamp (header block);
                  chainID := chainID (header block);
                  alg := alg (header block);
                  sign := sign (header block) |} = header block).
  { destruct (header block) as [? ? ? ? ? ? [?] ? ? ? ? ?]. reflexivity. }
  rewrite Hh.
  assert (Hf' : Forall2 (fun tx v => tx_FromProto v = inl tx)
                  (transactions block) pvs).
  { clear Etxs. revert Hrt. induction Hf as [|tx v vs pvs Hv Hf IH]; intros Hrt;
      constructor.
    - apply Hrt; [now left|exact Hv].
    - apply IH. intros tx' v' Hin. apply Hrt. now right. }
  rewrite (txsFromProto_spec _ _ _ Hf'). reflexivity.
Qed.

(** X14.  [Sign] stores the algorithm, cut to eight bits, and the signature
    of the stored hash, and changes nothing else: it does not ask whether
    the block is sealed, and the data that [HashBlock] hashes is untouched. 
    When the signer fails the block is as before. *)
Theorem Sign_changes_signature_only (signature : Signature) (block : Block) :
  (forall s, sig_Sign signature (hash (header block)) = inl s ->
     exists block',
       Sign signature block = (block', None) /\
       alg (header block') = sig_Algorithm signature mod 256 /\
       sign (header block') = s /\
       set_sign (sign (header block)) (set_alg (alg (header block)) (header block'))
         = header block /\
       with_header (header block) block' = block /\
       HashBlock block' = HashBlock block /\ Hash block' = Hash block) /\
  (forall e, sig_Sign signature (hash (header block)) = inr e ->
     Sign signature block = (block, Some e)).
Proof.
  split.
  - intros s Hs. unfold Sign. rewrite Hs. eexists. split; [reflexivity|].
    destruct block as [[? ? ? ? ? ? ? ? ? ? ? ?] ? ? ? ? ? ? ? ? ? ? ? ?].
    cbn. repeat split.
  - intros e He. unfold Sign. now rewrite He.
Qed.

Lemma verifyTxs_None (txs : list Transaction) (chainID : Z) :
  verifyTxs txs chainID = None <->
  (forall tx, In tx txs -> tx_VerifyIntegrity tx chainID = None).
Proof.
  induction txs as [|tx txs IH]; cbn.
  - split; [intros _ tx []|reflexivity].
  - destruct (tx_VerifyIntegrity tx chainID) as [e|] eqn:E.
    + split; [discriminate|]. intros Hall. rewrite <- E. apply Hall. now left.
    + rewrite IH. split.
      * intros Hall tx' [<-|Hin]; [exact E|now apply Hall].
      * intros Hall tx' Hin. apply Hall. now right.
Qed.

(** X15.  [VerifyIntegrity] returns no error exactly when the chain id is
    the expected one, the stored hash is [HashBlock] of the block, every
    transaction passes its integrity check for the chain id of the header and
    the consensus accepts the block.  The chain id is checked before the
    hash, and the hash before the transactions. *)
Theorem VerifyIntegrity_checks (chainID : Z)
    (fastVerify : Block -> option core.error) (block : Block) :
  (VerifyIntegrity chainID fastVerify block = None <->
     core.chainID (header block) = chainID /\
     Hash block = HashBlock block /\
     (forall tx, In tx (transactions block) ->
        tx_VerifyIntegrity tx (core.chainID (header block)) = None) /\
     fastVerify block = None) /\
  (core.chainID (header block) <> chainID ->
     VerifyIntegrity chainID fastVerify block = Some ErrInvalidChainID) /\
  (core.chainID (header block) = chainID -> Hash block <> HashBlock block ->
     VerifyIntegrity chainID fastVerify block = Some ErrInvalidBlockHash).
Proof.
  unfold VerifyIntegrity, byteutils.Equal. split; [|split].
  - destruct (Z.eqb_spec (core.chainID (header block)) chainID) as [Ec|Ec];
      cbn [negb].
    + destruct (bool_decide_reflect (HashBlock block = Hash block)) as [Eh|Eh];
        cbn [negb].
      * destruct (verifyTxs _ _) as [e|] eqn:Ev.
        -- split; [discriminate|]. intros (_ & _ & Hall & _).
           apply verifyTxs_None in Hall. congruence.
        -- pose proof (proj1 (verifyTxs_None _ _) Ev) as Hall.
           destruct (fastVerify block) as [e|].
           ++ split; [discriminate|]. intros (_ & _ & _ & Hf). discriminate Hf.
           ++ split; [|reflexivity]. intros _. auto.
      * split; [discriminate|]. intros (_ & Hh & _). congruence.
    + split; [discriminate|]. intros (Hc & _). contradiction.
  - intros Hne. destruct (Z.eqb_spec (core.chainID (header block)) chainID);
      [contradiction|reflexivity].
  - intros Hc Hh. rewrite (proj2 (Z.eqb_eq _ _) Hc). cbn [negb].
    rewrite bool_decide_eq_false_2 by congruence. reflexivity.
Qed.

End ProtoFacts.

(** ** Sealing, minting and accepting *)

Section SealFacts.

Import core blockstate blockio.
Context `{Hasher} `{Merkle} `{Executor} `{Codec} `{Dynasty}.
Context {P : Type} `{TxPool P}.
Context {T : Type} `{TxProto T}.

Lemma int64_mod (v : Z) : int64 (v mod 2 ^ 64) = int64 v.
Proof. unfold int64. now rewrite Zplus_mod_idemp_l. Qed.

Lemma int64_idem (v : Z) : int64 (int64 v) = int64 v.
Proof.
  unfold int64. replace ((v + 2 ^ 63) mod 2 ^ 64 - 2 ^ 63 + 2 ^ 63)
    with ((v + 2 ^ 63) mod 2 ^ 64) by lia.
  now rewrite Z.mod_mod by lia.
Qed.

Lemma Int64_FromInt64 (v : Z) : Int64 (byteutils.FromInt64 v) = int64 v.
Proof.
  unfold Int64. destruct (FromInt64_be v) as [Hl Hv].
  rewrite take_ge by lia. rewrite Hv. apply int64_mod.
Qed.

(** [recordMintCnt] on a block with a miner, for a dynasty interval that is
    not zero. *)
Lemma recordMintCnt_result (block : Block) (m : Address) :
  DynastyInterval <> 0 -> miner block = Some m ->
  recordMintCnt block =
    Some (minted (mintKey (Timestamp block) m)
            (int64 (mintCount (mintKey (Timestamp block) m) block + 1))
            block, None).
Proof.
  intros Hd Hm. unfold recordMintCnt, mintCount, mintKey, minted.
  destruct (Z.eqb_spec DynastyInterval 0) as [E|_]; [contradiction|].
  rewrite Hm. unfold Get.
  destruct (content (mintCntTrie (dposCtx block)) !! _) as [data|]; [reflexivity|].
  rewrite decide_True by reflexivity. reflexivity.
Qed.

Lemma recordMintCnt_Some (block block1 : Block) (err : option core.error) :
  recordMintCnt block = Some (block1, err) ->
  DynastyInterval <> 0 /\ exists m, miner block = Some m.
Proof.
  unfold recordMintCnt.
  destruct (Z.eqb_spec DynastyInterval 0) as [E|E]; [discriminate|].
  destruct (miner block) as [m|]; [|discriminate]. eauto.
Qed.

Lemma DposContextHash_ToProto (block : Block) (d : DposContext) :
  dposContext (header block) = dpos_ToProto d ->
  DposContextHash block = dpos_RootHash d.
Proof.
  intros E. unfold DposContextHash, dpos_RootHash, Sum, Write, New256.
  rewrite E. cbn [dpos_ToProto DynastyRoot NextDynastyRoot DelegateRoot VoteRoot
    CandidateRoot MintCntRoot app]. now rewrite <- !app_assoc.
Qed.

Lemma content_BeginBatch {A} (t : Batch A) : content (BeginBatch t) = content t.
Proof. unfold BeginBatch. now destruct (saved t). Qed.

Lemma mintCount_begin (key : bytes) (block : Block) :
  mintCount key (begin block) = mintCount key block.
Proof.
  unfold mintCount, Get, begin. cbn [dposCtx with_dposCtx mapDpos mintCntTrie].
  now rewrite content_BeginBatch.
Qed.

(** What the last assignments of [Seal] leave. *)
Lemma sealHeader_facts (b : Block) :
  let b' := sealHeader b in
  sealed b' = true /\
  stateRoot (header b') = acc_RootHash (accState b') /\
  txsRoot (header b') = RootHash (txsTrie b') /\
  eventsRoot (header b') = RootHash (eventsTrie b') /\
  dposContext (header b') = dpos_ToProto (dposCtx b') /\
  hash (header b') = HashBlock b' /\
  savedContents b' = savedContents b /\
  transactions b' = transactions b /\
  height b' = height b /\ miner b' = miner b /\
  (parentHash (header b'), coinbase (header b'), nonce (header b'),
   timestamp (header b'), chainID (header b'), alg (header b'),
   sign (header b')) =
  (parentHash (header b), coinbase (header b), nonce (header b),
   timestamp (header b), chainID (header b), alg (header b),
   sign (header b)) /\
  accState b' = accState b /\ txsTrie b' = txsTrie b /\
  eventsTrie b' = eventsTrie b /\ dposCtx b' = dposCtx b.
Proof.
  destruct b as [[? ? ? ? ? ? ? ? ? ? ? ?] ? ? ? ? ? ? ? ? ? ? ? ?].
  cbv zeta. repeat split.
Qed.

Lemma Seal_unfold (block b1 : Block) :
  sealed block = false -> recordMintCnt (begin block) = Some (b1, None) ->
  Seal block = Some (sealHeader (commit b1), None).
Proof. intros Hs Hr. unfold Seal. now rewrite Hs, Hr. Qed.

Lemma commit_minted_contents (key : bytes) (cnt : Z) (block : Block) :
  (content (accState (commit (minted key cnt (begin block)))),
   content (txsTrie (commit (minted key cnt (begin block)))),
   content (eventsTrie (commit (minted key cnt (begin block))))) =
  (content (accState block), content (txsTrie block),
   content (eventsTrie block)) /\
  content (mintCntTrie (dposCtx (commit (minted key cnt (begin block))))) =
    <[key := byteutils.FromInt64 cnt]> (content (mintCntTrie (dposCtx block))).
Proof.
  unfold commit, minted, begin.
  cbn [accState txsTrie eventsTrie dposCtx mintCntTrie with_accState with_txsTrie
    with_eventsTrie with_dposCtx mapDpos with_mintCntTrie Commit Put stage
    content].
  rewrite !content_BeginBatch. split; reflexivity.
Qed.

(** What [Seal] returns on a block that is not sealed and has a miner. *)
Lemma Seal_result (block : Block) (m : Address) :
  sealed block = false -> DynastyInterval <> 0 -> miner block = Some m ->
  exists block',
    Seal block = Some (block', None) /\
    sealed block' = true /\
    stateRoot (header block') = acc_RootHash (accState block') /\
    txsRoot (header block') = RootHash (txsTrie block') /\
    eventsRoot (header block') = RootHash (eventsTrie block') /\
    dposContext (header block') = dpos_ToProto (dposCtx block') /\
    hash (header block') = HashBlock block' /\
    noOpenBatch block' /\
    transactions block' = transactions block /\
    height block' = height block /\ miner block' = miner block /\
    (parentHash (header block'), coinbase (header block'), nonce (header block'),
     timestamp (header block'), chainID (header block'), alg (header block'),
     sign (header block')) =
    (parentHash (header block), coinbase (header block), nonce (header block),
     timestamp (header block), chainID (header block), alg (header block),
     sign (header block)) /\
    (content (accState block'), content (txsTrie block'),
     content (eventsTrie block')) =
    (content (accState block), content (txsTrie block),
     content (eventsTrie block)) /\
    mintCount (mintKey (Timestamp block) m) block' =
      int64 (mintCount (mintKey (Timestamp block) m) block + 1) /\
    (forall key, key <> mintKey (Timestamp block) m ->
       mintCount key block' = mintCount key block).
Proof.
  intros Hs Hd Hm.
  assert (Hm' : miner (begin block) = Some m) by exact Hm.
  pose proof (recordMintCnt_result (begin block) m Hd Hm') as Hr.
  change (Timestamp (begin block)) with (Timestamp block) in Hr.
  rewrite mintCount_begin in Hr.
  set (key := mintKey (Timestamp block) m) in *.
  set (cnt := int64 (mintCount key block + 1)) in *.
  exists (sealHeader (commit (minted key cnt (begin block)))).
  split; [exact (Seal_unfold block _ Hs Hr)|].
  destruct (sealHeader_facts (commit (minted key cnt (begin block))))
    as (F1 & F2 & F3 & F4 & F5 & F6 & F7 & F8 & F9 & F10 & F11 & G1 & G2 & G3 & G4).
  destruct (commit_minted_contents key cnt block) as (C1 & C2).
  set (b2 := commit (minted key cnt (begin block))) in *.
  split; [exact F1|]. split; [exact F2|]. split; [exact F3|].
  split; [exact F4|]. split; [exact F5|]. split; [exact F6|].
  split. { unfold noOpenBatch. rewrite F7. reflexivity. }
  split. { rewrite F8. reflexivity. }
  split. { rewrite F9. reflexivity. }
  split. { rewrite F10. reflexivity. }
  split. { rewrite F11. reflexivity. }
  split. { rewrite G1, G2, G3. exact C1. }
  split.
  - unfold mintCount at 1, Get. rewrite G4, C2, lookup_insert_eq.
    rewrite Int64_FromInt64. apply int64_idem.
  - intros k Hk. unfold mintCount, Get. rewrite G4, C2.
    now rewrite lookup_insert_ne by congruence.
Qed.

(** X16.  A block that [Seal] has sealed carries in its header the roots
    of its own overlays and its own hash, so [verifyState] accepts it; no
    batch is left open, and the transactions, the height, the miner, the
    remaining header fields and the contents of the account, txs and events
    overlays are those of the block before. *)
Theorem Seal_commits_roots (block block' : Block) :
  Seal block = Some (block', None) ->
  sealed block' = true /\
  StateRoot block' = acc_RootHash (accState block') /\
  TxsRoot block' = RootHash (txsTrie block') /\
  EventsRoot block' = RootHash (eventsTrie block') /\
  dposContext (header block') = dpos_ToProto (dposCtx block') /\
  Hash block' = HashBlock block' /\
  verifyState block' = None /\
  noOpenBatch block' /\
  transactions block' = transactions block /\
  height block' = height block /\ miner block' = miner block /\
  (ParentHash block', Coinbase block', Nonce block', Timestamp block',
   ChainID block') =
  (ParentHash block, Coinbase block, Nonce block, Timestamp block,
   ChainID block) /\
  (content (accState block'), content (txsTrie block'),
   content (eventsTrie block')) =
  (content (accState block), content (txsTrie block),
   content (eventsTrie block)).
Proof.
  intros HS.
  assert (Hs : sealed block = false).
  { unfold Seal in HS. destruct (sealed block); [discriminate|reflexivity]. }
  assert (Hr : exists b1 e, recordMintCnt (begin block) = Some (b1, e)).
  { unfold Seal in HS. rewrite Hs in HS.
    destruct (recordMintCnt (begin block)) as [[b1 e]|]; [eauto|discriminate]. }
  destruct Hr as (b1 & e & Hr).
  destruct (recordMintCnt_Some _ _ _ Hr) as (Hd & m & Hm).
  destruct (Seal_result block m Hs Hd Hm)
    as (b' & HS' & R1 & R2 & R3 & R4 & R5 & R6 & R7 & R8 & R9 & R10 & R11 & R12 & _).
  rewrite HS in HS'. injection HS' as <-.
  unfold StateRoot, TxsRoot, EventsRoot, Hash, ParentHash, Coinbase, Nonce,
    Timestamp, ChainID.
  injection R11 as E1 E2 E3 E4 E5 E6 E7.
  split; [exact R1|]. split; [exact R2|]. split; [exact R3|].
  split; [exact R4|]. split; [exact R5|]. split; [exact R6|].
  split.
  { unfold verifyState, byteutils.Equal, StateRoot, TxsRoot, EventsRoot.
    rewrite <- R2, <- R3, <- R4.
    rewrite (DposContextHash_ToProto block' (dposCtx block') R5).
    now rewrite !bool_decide_eq_true_2 by reflexivity. }
  split; [exact R7|]. split; [exact R8|]. split; [exact R9|].
  split; [exact R10|]. split; [|exact R12].
  now rewrite E1, E2, E3, E4, E5.
Qed.


Lemma Sign_frame (signature : Signature) (block block' : Block) :
  Sign signature block = (block', None) ->
  HashBlock block' = HashBlock block /\
  hash (header block') = hash (header block) /\
  chainID (header block') = chainID (header block) /\
  transactions block' = transactions block.
Proof.
  unfold Sign. destruct (sig_Sign signature (hash (header block))) as [s|e];
    [|discriminate].
  intros [= <-]. repeat split.
Qed.

(** X18.  A block sealed by [Seal] and then signed passes the hash check
    of [VerifyIntegrity]: for the chain id of its header the result is
    decided by the integrity of its transactions and by the consensus alone.
    For any other chain id the result is the chain id error. *)
Theorem sealed_signed_block_integrity (block sealedBlock signed : Block)
    (signature : Signature) (chainID : Z)
    (fastVerify : Block -> option core.error) :
  Seal block = Some (sealedBlock, None) ->
  Sign signature sealedBlock = (signed, None) ->
  VerifyIntegrity chainID fastVerify signed =
    if negb (ChainID block =? chainID) then Some ErrInvalidChainID
    else
      match verifyTxs (transactions block) (ChainID block) with
      | Some err => Some (ErrCore err)
      | None =>
          match fastVerify signed with
          | Some err => Some (ErrCore err)
          | None => None
          end
      end.
Proof.
  intros HS Hsign.
  assert (Hs : sealed block = false).
  { unfold Seal in HS. destruct (sealed block); [discriminate|reflexivity]. }
  assert (Hr : exists b1 e, recordMintCnt (begin block) = Some (b1, e)).
  { unfold Seal in HS. rewrite Hs in HS.
    destruct (recordMintCnt (begin block)) as [[b1 e]|]; [eauto|discriminate]. }
  destruct Hr as (b1 & e & Hr).
  destruct (recordMintCnt_Some _ _ _ Hr) as (Hd & m & Hm).
  destruct (Seal_result block m Hs Hd Hm)
    as (b' & HS' & _ & _ & _ & _ & _ & R6 & _ & R8 & _ & _ & R11 & _).
  rewrite HS in HS'. injection HS' as <-.
  injection R11 as E1 E2 E3 E4 E5 E6 E7.
  destruct (Sign_frame signature sealedBlock signed Hsign) as (F1 & F2 & F3 & F4).
  unfold VerifyIntegrity, byteutils.Equal, ChainID, Hash.
  rewrite F1, F2, F3, F4, <- R6, E5, R8.
  now rewrite bool_decide_eq_true_2 by reflexivity.
Qed.

End SealFacts.

(** ** Accepting and executing *)

Section ExecFacts.

Import core blockstate blockio.
Context `{Hasher} `{Merkle} `{Executor} `{Codec} `{Dynasty}.
Context {P : Type} `{TxPool P}.
Context {T : Type} `{TxProto T}.

Lemma GetOrCreateUserAccount_spec (addr : bytes) (st : AccountState) :
  fst (GetOrCreateUserAccount addr st) = default newAccount (content st !! addr) /\
  content (snd (GetOrCreateUserAccount addr st)) =
    <[addr := default newAccount (content st !! addr)]> (content st).
Proof.
  unfold GetOrCreateUserAccount.
  destruct (content st !! addr) as [acc|] eqn:E; cbn.
  - split; [reflexivity|]. symmetry. now apply insert_id.
  - split; reflexivity.
Qed.

Lemma GetNonce_accountOf (addr : bytes) (block : Block) :
  fst (GetNonce addr block) = acc_nonce (accountOf addr block) /\
  fst (GetBalance addr block) = balance (accountOf addr block).
Proof.
  unfold GetNonce, GetBalance, accountOf.
  destruct (GetOrCreateUserAccount_spec addr (accState block)) as [E _].
  destruct (GetOrCreateUserAccount addr (accState block)) as [acc st].
  cbn [fst] in *. now rewrite E.
Qed.

(** What [acceptTransaction] leaves when it returns no error. *)
Lemma acceptTransaction_result (tx : Transaction) (block block' : Block) :
  acceptTransaction tx block = (block', None) ->
  exists txBytes,
    tx_Marshal tx = inl txBytes /\
    content (txsTrie block') = <[tx_hash tx := txBytes]> (content (txsTrie block)) /\
    content (accState block') =
      <[address (tx_from tx) := IncrNonce (accountOf (address (tx_from tx)) block)]>
        (content (accState block)) /\
    content (eventsTrie block') = content (eventsTrie block) /\
    dposCtx block' = dposCtx block /\
    blockShell block' = blockShell block.
Proof.
  unfold acceptTransaction, accountOf.
  destruct (tx_Marshal tx) as [txBytes|e]; [|discriminate].
  cbn [accState with_txsTrie].
  destruct (GetOrCreateUserAccount_spec (address (tx_from tx)) (accState block))
    as [E1 E2].
  destruct (GetOrCreateUserAccount (address (tx_from tx)) (accState block))
    as [fromAcc st].
  cbn [fst snd] in *. intros [= <-]. exists txBytes.
  split; [reflexivity|]. split; [reflexivity|].
  split.
  { cbn [accState with_accState storeAccount stage content].
    rewrite E2, E1. apply insert_insert_eq. }
  repeat split.
Qed.

(** X19.  After [acceptTransaction] has returned no error the block holds
    the transaction: [GetTransaction] of its hash returns it when the
    transaction codec undoes its own encoding, [SerializeTxByHash] returns
    its message, and [checkTransaction] answers that it is a duplicate.  The sender's nonce has grown by one, in [uint64]
    arithmetic; the sender's balance, the other accounts and the other
    transactions are as before. *)
Theorem accepted_transaction_found (tx : Transaction) (block block' : Block) :
  acceptTransaction tx block = (block', None) ->
  (forall b, tx_Marshal tx = inl b ->
     exists p, proto_Unmarshal_tx b = inl p /\ tx_FromProto p = inl tx) ->
  GetTransaction (tx_hash tx) block' = inl tx /\
  SerializeTxByHash (tx_hash tx) block' = tx_ToProto tx /\
  fst (checkTransaction tx block') = (false, Some ErrDuplicatedTransaction) /\
  fst (GetNonce (address (tx_from tx)) block') =
    uint64 (fst (GetNonce (address (tx_from tx)) block) + 1) /\
  fst (GetBalance (address (tx_from tx)) block') =
    fst (GetBalance (address (tx_from tx)) block) /\
  (forall a, a <> address (tx_from tx) ->
     content (accState block') !! a = content (accState block) !! a) /\
  (forall h, h <> tx_hash tx -> GetTransaction h block' = GetTransaction h block).
Proof.
  intros Hacc Hrt.
  destruct (acceptTransaction_result tx block block' Hacc)
    as (txBytes & Hm & Ht & Ha & _).
  destruct (Hrt txBytes Hm) as (p & Hp1 & Hp2).
  assert (Hget : GetTransaction (tx_hash tx) block' = inl tx).
  { unfold GetTransaction, Get. rewrite Ht, lookup_insert_eq, Hp1, Hp2.
    reflexivity. }
  split; [exact Hget|]. split; [unfold SerializeTxByHash; now rewrite Hget|].
  split; [|split; [|split; [|split]]].
  - unfold checkTransaction, Prove. rewrite Ht, lookup_insert_eq.
    now rewrite bool_decide_eq_true_2 by eauto.
  - rewrite !(proj1 (GetNonce_accountOf _ _)). unfold accountOf at 1.
    rewrite Ha, lookup_insert_eq. reflexivity.
  - rewrite !(proj2 (GetNonce_accountOf _ _)). unfold accountOf at 1.
    rewrite Ha, lookup_insert_eq. reflexivity.
  - intros a Hne. rewrite Ha. now apply lookup_insert_ne.
  - intros h Hne. unfold GetTransaction, Get. rewrite Ht.
    now rewrite lookup_insert_ne by congruence.
Qed.

(** X20.  A transaction that [executeTransaction] has executed cannot be
    executed again on the resulting block: the second call answers that it
    is a duplicate, asks for no giveback and leaves the block as it is. *)
Theorem executed_transaction_not_replayed (tx : Transaction)
    (block block' : Block) (giveback : bool) :
  executeTransaction tx block = (giveback, None, block') ->
  giveback = false /\
  executeTransaction tx block' = (false, Some ErrDuplicatedTransaction, block').
Proof.
  unfold executeTransaction at 1.
  destruct (checkTransaction tx block) as [[g [e|]] b1]; [discriminate|].
  destruct (tx_VerifyExecution tx (contents b1)) as [c [e|]]; [discriminate|].
  destruct (acceptTransaction tx (install c b1)) as [b2 [e|]] eqn:Ea;
    [discriminate|].
  intros [= <- <-]. split; [reflexivity|].
  destruct (acceptTransaction_result tx _ _ Ea) as (txBytes & _ & Ht & _).
  unfold executeTransaction, checkTransaction, Prove.
  rewrite Ht, lookup_insert_eq.
  now rewrite bool_decide_eq_true_2 by eauto.
Qed.

End ExecFacts.

(** ** New blocks, verification and collection *)

Section RunFacts.

Import core blockstate blockio.
Context `{Hasher} `{Merkle} `{Executor} `{Codec} `{Dynasty}.
Context {P : Type} `{TxPool P}.

Lemma rewardCoinbase_result (block : Block) :
  content (accState (rewardCoinbase block)) =
    <[address (coinbase (header block)) :=
        AddBalance BlockReward
          (accountOf (address (coinbase (header block))) block)]>
      (content (accState block)) /\
  saved (accState (rewardCoinbase block)) = saved (accState block) /\
  txsTrie (rewardCoinbase block) = txsTrie block /\
  eventsTrie (rewardCoinbase block) = eventsTrie block /\
  dposCtx (rewardCoinbase block) = dposCtx block /\
  blockShell (rewardCoinbase block) = blockShell block.
Proof.
  unfold rewardCoinbase, accountOf.
  destruct (GetOrCreateUserAccount_spec (address (coinbase (header block)))
              (accState block)) as [E1 E2].
  pose proof (GetOrCreateUserAccount_saved (address (coinbase (header block)))
                (accState block)) as E3.
  destruct (GetOrCreateUserAccount _ (accState block)) as [acc st].
  cbn [fst snd] in *. split.
  { cbn [accState with_accState storeAccount stage content].
    rewrite E2, E1. apply insert_insert_eq. }
  split; [exact E3|]. repeat split.
Qed.

Lemma rewardCoinbase_saved (block : Block) :
  savedContents (rewardCoinbase block) = savedContents block.
Proof.
  destruct (rewardCoinbase_result block) as (_ & E1 & E2 & E3 & E4 & _).
  unfold savedContents. now rewrite E1, E2, E3, E4.
Qed.

Lemma executeTransaction_shell (tx : Transaction) (block : Block) :
  blockShell (snd (executeTransaction tx block)) = blockShell block.
Proof.
  unfold executeTransaction, checkTransaction.
  destruct (Prove _ _); [reflexivity|].
  destruct (GetOrCreateUserAccount _ _) as [fromAcc st].
  destruct (_ <? _); [reflexivity|]. destruct (_ >? _); [reflexivity|].
  destruct (tx_VerifyExecution tx _) as [c [e|]]; [reflexivity|].
  unfold acceptTransaction.
  destruct (tx_Marshal tx) as [txBytes|e]; [|reflexivity].
  destruct (GetOrCreateUserAccount _ _) as [fromAcc' st']. reflexivity.
Qed.

Lemma executeAll_frame (txs : list Transaction) (block : Block) (pool : P) :
  blockShell (fst (fst (executeAll txs block pool))) = blockShell block /\
  savedContents (fst (fst (executeAll txs block pool))) = savedContents block.
Proof.
  revert block pool. induction txs as [|tx txs IH]; intros block pool;
    [split; reflexivity|].
  cbn [executeAll].
  pose proof (executeTransaction_shell tx block) as E1.
  pose proof (executeTransaction_saved tx block) as E2.
  destruct (executeTransaction tx block) as [[giveback err] b1]. cbn [snd] in *.
  destruct (if giveback then pool_Push tx pool else (pool, None)) as [p1 [pe|]].
  - cbn [fst]. now split.
  - destruct err as [e|]; [cbn [fst]; now split|].
    destruct (IH b1 p1) as [I1 I2]. rewrite I1, I2. now split.
Qed.

Lemma recordMintCnt_frame (block b1 : Block) (err : option core.error) :
  recordMintCnt block = Some (b1, err) ->
  blockShell b1 = blockShell block /\ savedContents b1 = savedContents block /\
  (accState b1, txsTrie b1, eventsTrie b1) =
  (accState block, txsTrie block, eventsTrie block).
Proof.
  unfold recordMintCnt. destruct (DynastyInterval =? 0); [discriminate|].
  destruct (miner block) as [m|]; [|discriminate].
  destruct (Get _ _) as [data|e].
  - intros [= <- _]. repeat split.
  - destruct (decide (e = ErrKeyNotFound)); intros [= <- _]; repeat split.
Qed.

Lemma execute_frame (block b1 : Block) (pool p1 : P) (err : option core.error) :
  execute block pool = Some (b1, p1, err) ->
  blockShell b1 = blockShell block /\ savedContents b1 = savedContents block.
Proof.
  unfold execute.
  destruct (executeAll_frame (transactions (rewardCoinbase block))
              (rewardCoinbase block) pool) as [E1 E2].
  destruct (executeAll _ _ _) as [[b2 p2] [e|]]; cbn [fst] in *.
  - intros [= <- _ _]. rewrite E1, E2, rewardCoinbase_saved.
    split; [|reflexivity]. apply rewardCoinbase_result.
  - destruct (recordMintCnt b2) as [[b3 e3]|] eqn:Er; [|discriminate].
    intros [= <- _ _]. destruct (recordMintCnt_frame _ _ _ Er) as (F1 & F2 & _).
    rewrite F1, F2, E1, E2, rewardCoinbase_saved.
    split; [|reflexivity]. apply rewardCoinbase_result.
Qed.

Lemma shell_of_overlay_steps (block : Block) :
  blockShell (begin block) = blockShell block /\
  blockShell (commit block) = blockShell block /\
  blockShell (rollback block) = blockShell block.
Proof. repeat split. Qed.

Lemma verifyState_commit (block : Block) :
  verifyState (commit block) = verifyState block.
Proof. reflexivity. Qed.

(** X21.  A block that [NewBlock] returns is the successor of the parent:
    its parent hash is the parent's hash and its height the parent's plus
    one, in [uint64] arithmetic; it is not sealed, has no transactions, no
    miner and no batch open, and shares pool, storage and emitter with the
    parent.  The coinbase has received the block reward on top of what it
    holds in the clone of the parent's account state, modulo 2^128.
    [NewBlock] fails only with the error of a clone that failed. *)
Theorem NewBlock_fields (chainID : Z) (coinbase : Address) (parent : Block)
    (now : Z) :
  (forall block, NewBlock chainID coinbase parent now = inl block ->
     ParentHash block = Hash parent /\
     height block = uint64 (height parent + 1) /\
     parenetBlock block = Some parent /\
     (ChainID block, Coinbase block, Timestamp block, Nonce block) =
       (chainID, coinbase, now, 0) /\
     (sealed block, transactions block, miner block) = (false, [], None) /\
     (txPool block, storage block, eventEmitter block) =
       (txPool parent, storage parent, eventEmitter parent) /\
     noOpenBatch block /\
     exists st,
       acc_Clone (accState parent) = (st, None) /\
       content (accState block) =
         <[address coinbase :=
             AddBalance BlockReward
               (default newAccount (content st !! address coinbase))]>
           (content st) /\
       fst (GetBalance (address coinbase) block) =
         (balance (default newAccount (content st !! address coinbase)) +
          BlockReward) mod 2 ^ 128) /\
  (forall e, NewBlock chainID coinbase parent now = inr e ->
     snd (acc_Clone (accState parent)) = Some e \/
     snd (trie_Clone (txsTrie parent)) = Some e \/
     snd (trie_Clone (eventsTrie parent)) = Some e \/
     snd (dpos_Clone (dposCtx parent)) = Some e).
Proof.
  unfold NewBlock.
  destruct (acc_Clone (accState parent)) as [st [e1|]];
    [split; [discriminate|intros e [= <-]; now left]|].
  destruct (trie_Clone (txsTrie parent)) as [t1 [e2|]];
    [split; [discriminate|intros e [= <-]; right; now left]|].
  destruct (trie_Clone (eventsTrie parent)) as [t2 [e3|]];
    [split; [discriminate|intros e [= <-]; right; right; now left]|].
  destruct (dpos_Clone (dposCtx parent)) as [d [e4|]];
    [split; [discriminate|intros e [= <-]; right; right; now right]|].
  split; [|discriminate].
  intros block [= <-].
  match goal with |- context [commit (rewardCoinbase (begin ?b))] =>
    set (b0 := b) end.
  destruct (rewardCoinbase_result (begin b0)) as (R1 & _ & _ & _ & _ & R6).
  set (B := commit (rewardCoinbase (begin b0))).
  assert (Hsh : blockShell B = blockShell b0) by exact R6.
  assert (Hno : noOpenBatch B) by apply commit_noOpenBatch.
  assert (Hc : content (accState B) =
               <[address coinbase :=
                   AddBalance BlockReward
                     (default newAccount (content st !! address coinbase))]>
                 (content st)).
  { change (content (accState B))
      with (content (accState (rewardCoinbase (begin b0)))).
    rewrite R1. unfold accountOf.
    change (content (accState (begin b0))) with (content (BeginBatch st)).
    rewrite content_BeginBatch. reflexivity. }
  clearbody B. unfold blockShell in Hsh.
  injection Hsh as S1 S2 S3 S4 S5 S6 S7 S8 S9.
  unfold ParentHash, ChainID, Coinbase, Timestamp, Nonce.
  rewrite S1, S2, S3, S4, S5, S6, S7, S8, S9.
  do 6 (split; [reflexivity|]). split; [exact Hno|].
  exists st. split; [reflexivity|]. split; [exact Hc|].
  rewrite (proj2 (GetNonce_accountOf _ _)).
  unfold accountOf. rewrite Hc, lookup_insert_eq. reflexivity.
Qed.

(** X22.  [VerifyExecution] on a block without open batch either succeeds
    or leaves the contents of every overlay as they were.  When it returns an
    error nothing is published and the contents of the overlays are those
    from before the call; when it returns none the consensus has accepted the
    block, [verifyState] accepts the committed block, and what is published
    is one event per transaction, in order, followed by the link event.  In
    both cases no batch is left open and the header, the transactions and
    the other fields outside the overlays are untouched. *)
Theorem VerifyExecution_outcomes (block parent block' : Block)
    (consensus : Block -> Block -> option core.error) (pool pool' : P)
    (emitter emitter' : list Event) (result : option core.error) :
  noOpenBatch block ->
  VerifyExecution block parent consensus pool emitter =
    Some (block', pool', emitter', result) ->
  blockShell block' = blockShell block /\ noOpenBatch block' /\
  match result with
  | Some _ => contents block' = contents block /\ emitter' = emitter
  | None =>
      consensus block parent = None /\ verifyState block' = None /\
      emitter' =
        emitter ++ map txEvent (transactions block) ++
        [{| Topic := TopicLinkBlock; Data := json_Marshal_block block' |}]
  end.
Proof.
  intros Hno. unfold VerifyExecution.
  destruct (consensus block parent) as [e|];
    [intros [= <- _ <- <-]; auto|].
  destruct (execute (begin block) pool) as [[[b1 p1] r1]|] eqn:Ex;
    [|discriminate].
  destruct (execute_frame _ _ _ _ _ Ex) as [F1 F2].
  destruct r1 as [e|].
  - intros [= <- _ <- <-].
    destruct (rollback_contents block b1 Hno F2) as [C1 C2].
    split; [exact F1|]. auto.
  - destruct (verifyState b1) as [e|] eqn:Ev.
    + intros [= <- _ <- <-].
      destruct (rollback_contents block b1 Hno F2) as [C1 C2].
      split; [exact F1|]. auto.
    + intros [= <- _ <- <-].
      split; [exact F1|]. split; [apply commit_noOpenBatch|].
      split; [reflexivity|]. split; [exact Ev|].
      rewrite triggerEvent_publishes. do 3 f_equal.
      change (transactions (commit b1)) with (transactions b1).
      apply (f_equal (fun s => snd (fst (fst (fst (fst s)))))) in F1.
      exact F1.
Qed.

End RunFacts.

Section CollectBounds.

Import core blockstate blockio.
Context `{Hasher} `{Merkle} `{Executor} `{Codec}.
Context {P : Type} `{TxPool P}.

(** What every state of the loop of [CollectTransactions] satisfies. *)
Lemma collect_reaches_bounds (n : Z) (block : Block) (pool : P)
    (st : Collecting) :
  collect_reaches (collect_init n block pool) st ->
  exists added,
    transactions (col_block st) = transactions block ++ added /\
    Z.of_nat (length added) = n - col_n st /\
    (added = [] \/ 0 <= col_n st) /\
    (length added + pool_size (col_pool st) <= pool_size pool)%nat /\
    (header (col_block st), sealed (col_block st), height (col_block st),
     miner (col_block st)) =
    (header block, sealed block, height block, miner block).
Proof.
  intros Hr. induction Hr as [|st Hr IH Hg].
  - exists []. cbn. rewrite app_nil_r. repeat split; try lia. now left.
  - destruct IH as (added & I1 & I2 & I3 & I4 & I5).
    unfold collect_guard in Hg. apply andb_prop in Hg as [Hg1 Hg2].
    apply negb_true_iff in Hg1.
    pose proof (pool_Pop_size (col_pool st) Hg1) as Hsz.
    assert (Hn : col_n st > 0) by (destruct (Z.gtb_spec (col_n st) 0); [lia|discriminate]).
    unfold collect_body. destruct (pool_Pop (col_pool st)) as [tx pool1].
    cbn [snd] in Hsz.
    pose proof (executeTransaction_shell tx (begin (col_block st))) as Es.
    destruct (executeTransaction tx (begin (col_block st))) as [[giveback [e|]] b1];
      cbn [snd] in Es.
    + exists added. cbn [col_block col_n col_pool].
      unfold blockShell in Es. injection Es as S1 S2 S3 S4 S5 S6 S7 S8 S9.
      change (transactions (rollback b1)) with (transactions b1).
      change (header (rollback b1)) with (header b1).
      change (sealed (rollback b1)) with (sealed b1).
      change (height (rollback b1)) with (height b1).
      change (miner (rollback b1)) with (miner b1).
      rewrite S1, S2, S3, S4, S7.
      split; [exact I1|]. split; [exact I2|]. split; [exact I3|].
      split; [lia|exact I5].
    + exists (added ++ [tx]). cbn [col_block col_n col_pool].
      unfold blockShell in Es. injection Es as S1 S2 S3 S4 S5 S6 S7 S8 S9.
      change (transactions (with_transactions (transactions (commit b1) ++ [tx])
                              (commit b1)))
        with (transactions b1 ++ [tx]).
      change (header (with_transactions (transactions (commit b1) ++ [tx])
                        (commit b1))) with (header b1).
      change (sealed (with_transactions (transactions (commit b1) ++ [tx])
                        (commit b1))) with (sealed b1).
      change (height (with_transactions (transactions (commit b1) ++ [tx])
                        (commit b1))) with (height b1).
      change (miner (with_transactions (transactions (commit b1) ++ [tx])
                       (commit b1))) with (miner b1).
      rewrite S1, S2, S3, S4, S7, I1, length_app. cbn [length].
      split; [now rewrite app_assoc|]. split; [lia|]. split; [right; lia|].
      split; [lia|exact I5].
Qed.

(** X23.  [CollectTransactions] only appends to the transactions of the
    block: it adds at most [n] of them (none when [n] is not positive) and at
    most as many as the pool holds.  It changes neither the header, whose
    roots stay those from before, nor the sealed flag, the height or the
    miner, and it leaves no batch open if none was open.  A sealed block and
    its pool come back as they are, with the diagnostic. *)
Theorem CollectTransactions_bounds (n : Z) (block : Block) (pool : P) :
  let block' := fst (fst (CollectTransactions n block pool)) in
  (exists added,
     transactions block' = transactions block ++ added /\
     Z.of_nat (length added) <= Z.max 0 n /\
     (length added <= pool_size pool)%nat) /\
  (header block', sealed block', height block', miner block') =
    (header block, sealed block, height block, miner block) /\
  (noOpenBatch block -> noOpenBatch block') /\
  (sealed block = true ->
     CollectTransactions n block pool = (block, pool, [sealedDiagnostic])).
Proof.
  cbv zeta. destruct (sealed block) eqn:Hs.
  - unfold CollectTransactions. rewrite Hs. cbn [fst].
    split; [exists []; rewrite app_nil_r; cbn; repeat split; lia|].
    rewrite Hs. auto.
  - destruct (CollectTransactions_runs_loop n block pool Hs)
      as (st & Hr & _ & ->).
    destruct (collect_reaches_bounds n block pool st Hr)
      as (added & I1 & I2 & I3 & I4 & I5).
    split; [|split; [|split]].
    + exists added. split; [exact I1|]. split; [|lia].
      destruct I3 as [->|I3]; cbn [length]; lia.
    + rewrite I5, Hs. reflexivity.
    + intros Hno.
      exact (collect_reaches_noOpenBatch (collect_init n block pool) st Hno Hr).
    + discriminate.
Qed.

End CollectBounds.

(** ** Blocks from storage *)

Section StorageFacts.

Import core blockstate blockio.
Context `{Hasher} `{Merkle} `{Executor} `{Codec} `{Dynasty}.
Context {P : Type} `{TxPool P}.
Context {T : Type} `{TxProto T}.
Context {S : Type} `{Storage S}.

Lemma txsFromProto_frame (vs : list T) (b b' : Block)
    (r : option core.error) :
  txsFromProto vs b = (b', r) ->
  miner b' = miner b /\ parenetBlock b' = parenetBlock b.
Proof.
  revert b. induction vs as [|v vs IH]; intros b; cbn.
  - now intros [= <- _].
  - destruct (tx_FromProto v) as [tx|e]; [|now intros [= <- _]].
    intros Hr. apply IH in Hr. exact Hr.
Qed.

Lemma Load_block (hash : bytes) (storage : positive) (store : S)
    (txPool eventEmitter : positive) (block : Block)
    (err : option core.error) :
  LoadBlockFromStorage hash storage store txPool eventEmitter =
    Some (Some block, err) ->
  err = None /\ sealed block = true /\ miner block = None /\
  parenetBlock block = None /\
  (core.txPool block, core.storage block, core.eventEmitter block) =
    (txPool, storage, eventEmitter).
Proof.
  unfold LoadBlockFromStorage.
  destruct (storage_Get hash store) as [value|e]; [|discriminate].
  destruct (proto_Unmarshal_block value) as [pb|e]; [|discriminate].
  destruct (Block_FromProto (MsgBlock pb) newBlock) as [[b1 [e|]]|] eqn:Ef;
    try discriminate.
  destruct (NewAccountState _ store) as [a|e]; [|discriminate].
  destruct (NewBatchTrie (TxsRoot _) store) as [t1|e]; [|discriminate].
  destruct (NewBatchTrie (EventsRoot _) store) as [t2|e]; [|discriminate].
  destruct (NewDposContext store) as [d|e]; [|discriminate].
  destruct (dpos_FromProto _ _) as [d' [e|]]; [discriminate|].
  intros [= <- <-].
  assert (Hb1 : miner b1 = None /\ parenetBlock b1 = None).
  { unfold Block_FromProto in Ef.
    destruct (pb_Header pb) as [h|]; [|discriminate].
    cbn [Header_FromProto] in Ef.
    destruct (txsFromProto _ _) as [b2 [e|]] eqn:Et; [discriminate|].
    injection Ef as <-. apply txsFromProto_frame in Et. exact Et. }
  destruct Hb1 as [M1 M2].
  repeat split; assumption.
Qed.

Lemma Load_storage_error (hash : bytes) (storage : positive) (store : S)
    (txPool eventEmitter : positive) (e : core.error) :
  storage_Get hash store = inr e ->
  LoadBlockFromStorage hash storage store txPool eventEmitter =
    Some (None, Some e).
Proof. intros He. unfold LoadBlockFromStorage. now rewrite He. Qed.

Lemma Load_dpos_slip (hash : bytes) (storage : positive) (store : S)
    (txPool eventEmitter : positive) (value : bytes) (pbBlock : pbBlock T)
    (block1 : Block) (accState : AccountState) (txsTrie eventsTrie : BatchTrie)
    (d d' : DposContext) (e : core.error) :
  storage_Get hash store = inl value ->
  proto_Unmarshal_block value = inl pbBlock ->
  Block_FromProto (MsgBlock pbBlock) newBlock = Some (block1, None) ->
  NewAccountState (StateRoot block1) store = inl accState ->
  NewBatchTrie (TxsRoot block1) store = inl txsTrie ->
  NewBatchTrie (EventsRoot block1) store = inl eventsTrie ->
  NewDposContext store = inl d ->
  dpos_FromProto (dposContext (header block1)) d = (d', Some e) ->
  LoadBlockFromStorage hash storage store txPool eventEmitter =
    Some (None, None).
Proof.
  intros G1 G2 G3 G4 G5 G6 G7 G8.
  unfold LoadBlockFromStorage. rewrite G1, G2, G3, G4.
  change (TxsRoot (with_accState accState block1)) with (TxsRoot block1).
  rewrite G5.
  change (EventsRoot (with_txsTrie txsTrie (with_accState accState block1)))
    with (EventsRoot block1).
  rewrite G6, G7.
  change (dposContext (header (with_dposCtx d (with_eventsTrie eventsTrie
            (with_txsTrie txsTrie (with_accState accState block1))))))
    with (dposContext (header block1)).
  change (dposCtx (with_dposCtx d (with_eventsTrie eventsTrie
            (with_txsTrie txsTrie (with_accState accState block1))))) with d.
  now rewrite G8.
Qed.

(** X24.  A block that [LoadBlockFromStorage] returns is sealed, without
    miner and without parent pointer, and refers to the pool, the storage and
    the emitter passed in; it never comes with an error.  An error of the
    storage comes back as it is.  When everything up to the new DPoS context
    succeeds and [DposContext.FromProto] then fails, the function returns the
    error variable of the step before, which is [nil]: the caller gets
    neither a block nor an error. *)
Theorem LoadBlockFromStorage_outcomes (hash : bytes) (storage : positive)
    (store : S) (txPool eventEmitter : positive) :
  (forall block err,
     LoadBlockFromStorage hash storage store txPool eventEmitter =
       Some (Some block, err) ->
     err = None /\ sealed block = true /\ miner block = None /\
     parenetBlock block = None /\
     (core.txPool block, core.storage block, core.eventEmitter block) =
       (txPool, storage, eventEmitter)) /\
  (forall e, storage_Get hash store = inr e ->
     LoadBlockFromStorage hash storage store txPool eventEmitter =
       Some (None, Some e)) /\
  (forall value pbBlock block1 accState txsTrie eventsTrie d d' e,
     storage_Get hash store = inl value ->
     proto_Unmarshal_block value = inl pbBlock ->
     Block_FromProto (MsgBlock pbBlock) newBlock = Some (block1, None) ->
     NewAccountState (StateRoot block1) store = inl accState ->
     NewBatchTrie (TxsRoot block1) store = inl txsTrie ->
     NewBatchTrie (EventsRoot block1) store = inl eventsTrie ->
     NewDposContext store = inl d ->
     dpos_FromProto (dposContext (header block1)) d = (d', Some e) ->
     LoadBlockFromStorage hash storage store txPool eventEmitter =
       Some (None, None)).
Proof.
  split; [|split].
  - intros block err. apply Load_block.
  - intros e. apply Load_storage_error.
  - intros value pb block1 a t1 t2 d d' e. apply Load_dpos_slip.
Qed.

(** X25.  [ParentBlock] returns the parent the block points to without
    touching the storage.  Without such a pointer it loads the block stored
    under the parent hash: a block it returns is sealed and shares pool,
    storage and emitter with the block; an error of the storage, such as a
    missing key, comes back as the missing parent error; and when the load
    fails in [DposContext.FromProto] the caller gets neither a parent nor an
    error. *)
Theorem ParentBlock_outcomes (block : Block) (store : S) :
  (forall parent, parenetBlock block = Some parent ->
     ParentBlock block store = Some (Some parent, None)) /\
  (parenetBlock block = None ->
     forall parent r, ParentBlock block store = Some (Some parent, r) ->
       r = None /\ sealed parent = true /\
       (txPool parent, storage parent, eventEmitter parent) =
         (txPool block, storage block, eventEmitter block)) /\
  (parenetBlock block = None ->
     forall e, storage_Get (ParentHash block) store = inr e ->
       ParentBlock block store = Some (None, Some ErrMissingParentBlock)) /\
  (parenetBlock block = None ->
     forall value pbBlock block1 accState txsTrie eventsTrie d d' e,
       storage_Get (ParentHash block) store = inl value ->
       proto_Unmarshal_block value = inl pbBlock ->
       Block_FromProto (MsgBlock pbBlock) newBlock = Some (block1, None) ->
       NewAccountState (StateRoot block1) store = inl accState ->
       NewBatchTrie (TxsRoot block1) store = inl txsTrie ->
       NewBatchTrie (EventsRoot block1) store = inl eventsTrie ->
       NewDposContext store = inl d ->
       dpos_FromProto (dposContext (header block1)) d = (d', Some e) ->
       ParentBlock block store = Some (None, None)).
Proof.
  unfold ParentBlock. split; [|split; [|split]].
  - intros parent ->. reflexivity.
  - intros -> parent r.
    destruct (LoadBlockFromStorage _ _ _ _ _) as [[loaded [e|]]|] eqn:El;
      try discriminate.
    intros [= -> <-]. apply Load_block in El.
    destruct El as (_ & L1 & _ & _ & L2). auto.
  - intros -> e He. now rewrite (Load_storage_error _ _ _ _ _ _ He).
  - intros -> value pb block1 a t1 t2 d d' e G1 G2 G3 G4 G5 G6 G7 G8.
    now rewrite (Load_dpos_slip _ _ _ _ _ _ _ _ _ _ _ _ _ _ G1 G2 G3 G4 G5 G6 G7 G8).
Qed.

End StorageFacts.

(** ** The small chain with its store *)

Section StoreScenario.

Import core blockstate blockio sample store.

(** The header of the genesis block goes to a message and back. *)
Lemma BlockHeader_proto_roundtrip_witness :
  0 <= alg (header genesis) < 256 /\
  Header_FromProto (T := Transaction) (fst (Header_ToProto (header genesis)))
    newBlockHeader = (header genesis, None).
Proof.
  assert (Ha : 0 <= alg (header genesis) < 256) by (cbn; lia).
  split; [exact Ha|].
  exact (proj1 (BlockHeader_proto_roundtrip (T := Transaction) (header genesis)
                  newBlockHeader Ha)).
Defined.

(** The genesis block with [callTx] goes to a message and back into a new
    block. *)
Lemma Block_proto_roundtrip_witness :
  let block := with_transactions [callTx] genesis in
  (Block_ToProto block = inl (MsgBlock storedGenesis) /\
   (forall tx v, In tx (transactions block) ->
      tx_ToProto tx = inl (MsgTransaction v) -> tx_FromProto v = inl tx) /\
   0 <= alg (header block) < 256) /\
  Block_FromProto (MsgBlock storedGenesis) newBlock =
    Some (with_height (height block)
            (with_transactions (transactions newBlock ++ transactions block)
               (with_header (header block) newBlock)), None).
Proof.
  cbv zeta.
  assert (G1 : Block_ToProto (with_transactions [callTx] genesis) =
               inl (MsgBlock storedGenesis)) by reflexivity.
  assert (G2 : forall tx v, In tx (transactions (with_transactions [callTx] genesis)) ->
                 tx_ToProto tx = inl (MsgTransaction v) -> tx_FromProto v = inl tx).
  { intros tx v _ [= <-]. reflexivity. }
  assert (G3 : 0 <= alg (header (with_transactions [callTx] genesis)) < 256)
    by (cbn; lia).
  split; [auto|].
  exact (Block_proto_roundtrip (with_transactions [callTx] genesis) newBlock
           (MsgBlock storedGenesis) G1 G2 G3).
Defined.

(** The proposer's block is sealed by [Seal]. *)
Lemma Seal_commits_roots_witness :
  Seal collected = Some (sealedBlock, None) /\
  sealed sealedBlock = true /\ Hash sealedBlock = HashBlock sealedBlock /\
  verifyState sealedBlock = None.
Proof.
  assert (Hc : Seal collected = Some (sealedBlock, None))
    by (vm_compute; reflexivity).
  split; [exact Hc|].
  destruct (Seal_commits_roots collected sealedBlock Hc)
    as (R1 & _ & _ & _ & _ & R6 & R7 & _).
  auto.
Defined.


(** The sealed block, signed, passes [VerifyIntegrity] for chain 100. *)
Lemma sealed_signed_block_integrity_witness :
  (Seal collected = Some (sealedBlock, None) /\
   Sign signer sealedBlock = (fst (Sign signer sealedBlock), None)) /\
  VerifyIntegrity 100 (fun _ => None) (fst (Sign signer sealedBlock)) =
    if negb (ChainID collected =? 100) then Some ErrInvalidChainID
    else
      match verifyTxs (transactions collected) (ChainID collected) with
      | Some err => Some (ErrCore err)
      | None => None
      end.
Proof.
  assert (G1 : Seal collected = Some (sealedBlock, None))
    by (vm_compute; reflexivity).
  assert (G2 : Sign signer sealedBlock = (fst (Sign signer sealedBlock), None))
    by reflexivity.
  split; [auto|].
  exact (sealed_signed_block_integrity collected sealedBlock
           (fst (Sign signer sealedBlock)) signer 100 (fun _ => None) G1 G2).
Defined.

(** The signer signs the genesis block. *)
Lemma Sign_changes_signature_only_witness :
  sig_Sign signer (hash (header genesis)) =
    inl (list_byte_of_string "genesis" ++ [x01]) /\
  exists block',
    Sign signer genesis = (block', None) /\
    alg (header block') = 1 /\
    sign (header block') = list_byte_of_string "genesis" ++ [x01] /\
    HashBlock block' = HashBlock genesis.
Proof.
  assert (G1 : sig_Sign signer (hash (header genesis)) =
               inl (list_byte_of_string "genesis" ++ [x01])) by reflexivity.
  split; [exact G1|].
  destruct (proj1 (Sign_changes_signature_only signer genesis) _ G1)
    as (b' & S1 & S2 & S3 & _ & _ & S6 & _).
  exists b'. auto.
Defined.

(** The genesis block is of chain 100 and its stored hash is not the hash
    of its contents. *)
Lemma VerifyIntegrity_checks_witness :
  (chainID (header genesis) <> 7 /\
   VerifyIntegrity (T := Transaction) 7 (fun _ => None) genesis =
     Some ErrInvalidChainID) /\
  ((chainID (header genesis) = 100 /\ Hash genesis <> HashBlock genesis) /\
   VerifyIntegrity (T := Transaction) 100 (fun _ => None) genesis =
     Some ErrInvalidBlockHash).
Proof.
  assert (G1 : chainID (header genesis) <> 7) by discriminate.
  assert (G2 : chainID (header genesis) = 100) by reflexivity.
  assert (G3 : Hash genesis <> HashBlock genesis) by (vm_compute; discriminate).
  destruct (VerifyIntegrity_checks (T := Transaction) 7 (fun _ => None) genesis)
    as (_ & C1 & _).
  destruct (VerifyIntegrity_checks (T := Transaction) 100 (fun _ => None) genesis)
    as (_ & _ & C2).
  split; [split; [exact G1|exact (C1 G1)]|].
  split; [auto|exact (C2 G2 G3)].
Defined.

(** The block that the proposer builds on the genesis block. *)
Lemma NewBlock_fields_witness :
  exists block,
    NewBlock 100 alice genesis 7200 = inl block /\
    ParentHash block = Hash genesis /\
    height block = uint64 (height genesis + 1) /\
    noOpenBatch block.
Proof.
  destruct (NewBlock 100 alice genesis 7200) as [block|e] eqn:E.
  - destruct (proj1 (NewBlock_fields 100 alice genesis 7200) block E)
      as (N1 & N2 & _ & _ & _ & _ & N7 & _).
    exists block. auto.
  - exfalso. revert E. unfold NewBlock. cbn [acc_Clone trie_Clone dpos_Clone
      dynasty]. discriminate.
Defined.

Lemma acceptTransaction_sample (tx : Transaction) (block : Block) :
  acceptTransaction tx block = (fst (acceptTransaction tx block), None).
Proof.
  unfold acceptTransaction. cbn [tx_Marshal codec].
  now destruct (GetOrCreateUserAccount _ _).
Qed.

(** The new block accepts [callTx]. *)
Lemma accepted_transaction_found_witness :
  let block' := fst (acceptTransaction callTx proposed) in
  (acceptTransaction callTx proposed = (block', None) /\
   (forall b, tx_Marshal callTx = inl b ->
      exists p, proto_Unmarshal_tx b = inl p /\ tx_FromProto p = inl callTx)) /\
  GetTransaction (tx_hash callTx) block' = inl callTx /\
  fst (checkTransaction callTx block') = (false, Some ErrDuplicatedTransaction).
Proof.
  cbv zeta.
  assert (G1 : acceptTransaction callTx proposed =
               (fst (acceptTransaction callTx proposed), None))
    by apply acceptTransaction_sample.
  assert (G2 : forall b, tx_Marshal callTx = inl b ->
                 exists p, proto_Unmarshal_tx b = inl p /\ tx_FromProto p = inl callTx).
  { intros b [= <-]. exists callTx. split; reflexivity. }
  split; [auto|].
  destruct (accepted_transaction_found callTx proposed
              (fst (acceptTransaction callTx proposed)) G1 G2) as (R1 & _ & R2 & _).
  auto.
Defined.

(** The new block executes [callTx] once. *)
Lemma executed_transaction_not_replayed_witness :
  let block' := snd (executeTransaction callTx proposed) in
  executeTransaction callTx proposed = (false, None, block') /\
  executeTransaction callTx block' =
    (false, Some ErrDuplicatedTransaction, block').
Proof.
  cbv zeta.
  assert (G1 : executeTransaction callTx proposed =
               (false, None, snd (executeTransaction callTx proposed))).
  { assert (E : fst (executeTransaction callTx proposed) = (false, None))
      by (vm_compute; reflexivity).
    destruct (executeTransaction callTx proposed) as [[g e] b].
    cbn [fst snd] in *. now rewrite E. }
  split; [exact G1|].
  exact (proj2 (executed_transaction_not_replayed callTx proposed
                  (snd (executeTransaction callTx proposed)) false G1)).
Defined.

Lemma received_noOpenBatch : noOpenBatch received.
Proof.
  unfold received, SetMiner, LinkParentBlock.
  destruct (negb (byteutils.Equal (ParentHash wired) (Hash genesis)));
    reflexivity.
Qed.

(** The verifier's run on the received block. *)
Lemma VerifyExecution_outcomes_witness :
  exists block' pool' emitter',
    (noOpenBatch received /\
     VerifyExecution received genesis acceptAll ([] : list Transaction) [] =
       Some (block', pool', emitter', None)) /\
    blockShell block' = blockShell received /\ noOpenBatch block' /\
    acceptAll received genesis = None /\ verifyState block' = None /\
    emitter' =
      [] ++ map txEvent (transactions received) ++
      [{| Topic := TopicLinkBlock; Data := json_Marshal_block block' |}].
Proof.
  pose proof verified_check as C.
  destruct (VerifyExecution received genesis acceptAll [] [])
    as [[[[b p] em] [e|]]|] eqn:E; try discriminate C.
  exists b, p, em.
  split; [split; [exact received_noOpenBatch|reflexivity]|].
  exact (VerifyExecution_outcomes received genesis b acceptAll [] p [] em None
           received_noOpenBatch E).
Defined.

(** The stored genesis block has no dynasty root: loading it gives neither
    a block nor an error, and so does [ParentBlock] of the orphan. *)
Lemma LoadBlockFromStorage_outcomes_witness :
  LoadBlockFromStorage (list_byte_of_string "genesis") 1%positive disk
    1%positive 1%positive = Some (None, None) /\
  LoadBlockFromStorage (list_byte_of_string "nowhere") 1%positive disk
    1%positive 1%positive = Some (None, Some ErrKeyNotFound).
Proof.
  destruct (LoadBlockFromStorage_outcomes (list_byte_of_string "genesis")
              1%positive disk 1%positive 1%positive) as (_ & _ & Hslip).
  destruct (LoadBlockFromStorage_outcomes (list_byte_of_string "nowhere")
              1%positive disk 1%positive 1%positive) as (_ & Herr & _).
  split.
  - eapply (Hslip (list_byte_of_string "block:genesis") storedGenesis);
      reflexivity.
  - apply Herr. vm_compute. reflexivity.
Defined.

Lemma ParentBlock_outcomes_witness :
  ParentBlock orphan disk = Some (None, None) /\
  ParentBlock sealedBlock disk = Some (parenetBlock sealedBlock, None).
Proof.
  destruct (ParentBlock_outcomes orphan disk) as (_ & _ & _ & Hslip).
  destruct (ParentBlock_outcomes sealedBlock disk) as (Hptr & _).
  split.
  - eapply (Hslip eq_refl (list_byte_of_string "block:genesis") storedGenesis);
      reflexivity.
  - assert (E : parenetBlock sealedBlock = Some genesis) by (vm_compute; reflexivity).
    rewrite E. apply Hptr. exact E.
Defined.

End StoreScenario.

(** ** The event log of a transaction *)

Section KeyOrder.

Import core.

Lemma key_le_total (a b : bytes) : key_le a b = true \/ key_le b a = true.
Proof.
  revert b. induction a as [|x a IH]; intros [|y b]; cbn; auto.
  destruct (bool_decide_reflect (x = y)) as [->|Hne].
  - rewrite bool_decide_eq_true_2 by reflexivity. apply IH.
  - rewrite bool_decide_eq_false_2 by congruence.
    assert (byte_val x <> byte_val y) by (intros E; apply Hne, byte_val_inj, E).
    destruct (Z.ltb_spec (byte_val x) (byte_val y)); [now left|right].
    apply Z.ltb_lt. lia.
Qed.

Lemma key_le_trans (a b c : bytes) :
  key_le a b = true -> key_le b c = true -> key_le a c = true.
Proof.
  revert b c. induction a as [|x a IH]; intros [|y b] [|z c]; cbn; try easy.
  destruct (bool_decide_reflect (x = y)) as [->|Hxy].
  - destruct (bool_decide_reflect (y = z)) as [->|Hyz]; [apply IH|auto].
  - destruct (bool_decide_reflect (y = z)) as [->|Hyz].
    + rewrite bool_decide_eq_false_2 by exact Hxy. auto.
    + intros H1 H2. apply Z.ltb_lt in H1, H2.
      destruct (bool_decide_reflect (x = z)) as [->|Hxz]; [lia|].
      apply Z.ltb_lt. lia.
Qed.

Lemma key_le_antisym (a b : bytes) :
  key_le a b = true -> key_le b a = true -> a = b.
Proof.
  revert b. induction a as [|x a IH]; intros [|y b]; cbn; try easy.
  destruct (bool_decide_reflect (x = y)) as [->|Hxy].
  - rewrite bool_decide_eq_true_2 by reflexivity.
    intros H1 H2. f_equal. now apply IH.
  - rewrite bool_decide_eq_false_2 by congruence.
    intros H1 H2. apply Z.ltb_lt in H1, H2. lia.
Qed.

Lemma key_le_app (p a b : bytes) : key_le (p ++ a) (p ++ b) = key_le a b.
Proof.
  induction p as [|x p IH]; [reflexivity|]. cbn.
  now rewrite bool_decide_eq_true_2 by reflexivity.
Qed.

Lemma is_prefix_app (p s : bytes) : is_prefix p (p ++ s) = true.
Proof.
  induction p as [|x p IH]; [reflexivity|]. cbn.
  now rewrite bool_decide_eq_true_2 by reflexivity.
Qed.

Lemma be_value_cons (x : byte) (l : bytes) :
  byteutils.be_value (x :: l) =
  byte_val x * 256 ^ Z.of_nat (length l) + byteutils.be_value l.
Proof.
  unfold byteutils.be_value. cbn [fold_left]. change (0 * 256 + byte_val x) with (byte_val x).
  generalize (byte_val x) as acc. induction l as [|y l IH] using rev_ind; intros acc.
  - cbn. lia.
  - rewrite !fold_left_app, length_app. cbn [fold_left length].
    rewrite IH, Nat2Z.inj_add, Z.pow_add_r by lia.
    change (Z.of_nat 1) with 1. lia.
Qed.

(** On keys of the same length the order of the walk is the order of the
    big-endian values. *)
Lemma key_le_be_value (a b : bytes) :
  length a = length b ->
  byteutils.be_value a <= byteutils.be_value b -> key_le a b = true.
Proof.
  revert b. induction a as [|x a IH]; intros [|y b] Hlen; cbn [key_le];
    try discriminate; [reflexivity|].
  injection Hlen as Hlen. rewrite !be_value_cons, Hlen. intros Hle.
  pose proof (be_value_bound a) as Ba. pose proof (be_value_bound b) as Bb.
  rewrite Hlen in Ba.
  pose proof (byte_val_range x). pose proof (byte_val_range y).
  assert (Hp : 0 < 256 ^ Z.of_nat (length b)) by (apply Z.pow_pos_nonneg; lia).
  destruct (bool_decide_reflect (x = y)) as [->|Hxy].
  - apply IH; [exact Hlen|lia].
  - apply Z.ltb_lt.
    assert (byte_val x <> byte_val y) by (intros E; apply Hxy, byte_val_inj, E).
    nia.
Qed.

Lemma FromInt64_inj_range (a b : Z) :
  0 <= a < 2 ^ 64 -> 0 <= b < 2 ^ 64 ->
  byteutils.FromInt64 a = byteutils.FromInt64 b -> a = b.
Proof.
  intros Ha Hb E. apply (f_equal byteutils.be_value) in E.
  rewrite !(proj2 (FromInt64_be _)) in E.
  now rewrite !Z.mod_small in E by assumption.
Qed.

End KeyOrder.

Section EventLog.

Import core blockstate blockio.
Context `{Codec}.

Lemma entry_le_Transitive : Transitive entry_le.
Proof. intros x y z. unfold entry_le. apply key_le_trans. Qed.

Lemma entry_le_Total : Total entry_le.
Proof. intros x y. unfold entry_le. apply key_le_total. Qed.

Lemma walked_sorted (p : bytes) (m : TrieData) :
  StronglySorted entry_le (walked p m).
Proof.
  apply (@StronglySorted_merge_sort _ entry_le _ entry_le_Transitive
           entry_le_Total).
Qed.

Lemma walked_Permutation (p : bytes) (m : TrieData) :
  walked p m ≡ₚ
  filter (fun kv => is_prefix p (fst kv) = true) (map_to_list m).
Proof. apply merge_sort_Permutation. Qed.

Lemma walked_elem (p : bytes) (m : TrieData) (k v : bytes) :
  (k, v) ∈ walked p m <-> is_prefix p k = true /\ m !! k = Some v.
Proof.
  rewrite walked_Permutation, list_elem_of_filter, elem_of_map_to_list.
  reflexivity.
Qed.

Lemma walked_NoDup (p : bytes) (m : TrieData) : NoDup ((walked p m).*1).
Proof.
  rewrite walked_Permutation.
  assert (Hs : (filter (fun kv => is_prefix p (fst kv) = true)
                  (map_to_list m)).*1 `sublist_of` (map_to_list m).*1)
    by apply fmap_sublist, sublist_filter.
  exact (sublist_NoDup _ _ (NoDup_fst_map_to_list m) Hs).
Qed.

Lemma NoDup_fst_unique (l : list (bytes * bytes)) (x y : bytes * bytes) :
  NoDup (l.*1) -> x ∈ l -> y ∈ l -> fst x = fst y -> x = y.
Proof.
  induction l as [|z l IH]; intros Hnd Hx Hy Hk; [inversion Hx|].
  cbn in Hnd. apply NoDup_cons in Hnd as [Hz Hnd].
  apply elem_of_cons in Hx as [->|Hx]; apply elem_of_cons in Hy as [->|Hy].
  - reflexivity.
  - exfalso. apply Hz. rewrite Hk. apply list_elem_of_fmap. eauto.
  - exfalso. apply Hz. rewrite <- Hk. apply list_elem_of_fmap. eauto.
  - now apply IH.
Qed.

Lemma walked_empty (p : bytes) (m : TrieData) :
  (forall k, is_prefix p k = true -> m !! k = None) -> walked p m = [].
Proof.
  intros Hfresh. unfold walked.
  destruct (filter _ (map_to_list m)) as [|[k v] l] eqn:E; [reflexivity|].
  assert (Hin : (k, v) ∈ filter (fun kv => is_prefix p (fst kv) = true)
                              (map_to_list m)) by (rewrite E; left).
  apply list_elem_of_filter in Hin as [Hp Hin].
  apply elem_of_map_to_list in Hin. rewrite (Hfresh k Hp) in Hin. discriminate.
Qed.

(** A new entry whose key is above the keys walked so far is walked last. *)
Lemma walked_insert (p K d : bytes) (m : TrieData) :
  m !! K = None -> is_prefix p K = true ->
  Forall (fun x => entry_le x (K, d)) (walked p m) ->
  walked p (<[K := d]> m) = walked p m ++ [(K, d)].
Proof.
  intros Hnone Hp Hle.
  assert (Hperm : walked p (<[K := d]> m) ≡ₚ walked p m ++ [(K, d)]).
  { rewrite !walked_Permutation, (map_to_list_insert m K d Hnone).
    rewrite filter_cons_True by exact Hp.
    now rewrite <- Permutation_cons_append. }
  apply (StronglySorted_unique_strong entry_le);
    [|apply walked_sorted| |exact Hperm].
  - intros x1 x2 H1 H2 L1 L2.
    apply (NoDup_fst_unique (walked p (<[K := d]> m))).
    + apply walked_NoDup.
    + exact H1.
    + now rewrite Hperm.
    + now apply key_le_antisym.
  - apply StronglySorted_app_2; [|apply walked_sorted|repeat constructor].
    intros x1 x2 H1 H2. apply list_elem_of_singleton in H2 as ->.
    rewrite Forall_forall in Hle. now apply Hle.
Qed.

Lemma Iterator_walked (p : bytes) (t : BatchTrie) :
  Iterator p t =
  match walked p (content t) with
  | [] => inr ErrKeyNotFound
  | _ :: _ => inl (map snd (walked p (content t)))
  end.
Proof. unfold Iterator, walked. now destruct (merge_sort _ _). Qed.

Lemma eventKey_le (txHash : bytes) (a b : Z) (d d' : bytes) :
  0 <= a <= b -> b < 2 ^ 64 ->
  entry_le (eventKey txHash a, d) (eventKey txHash b, d').
Proof.
  intros Hab Hb. unfold entry_le, eventKey. cbn [fst]. rewrite key_le_app.
  destruct (FromInt64_be a) as [La Va]. destruct (FromInt64_be b) as [Lb Vb].
  apply key_le_be_value; [congruence|].
  rewrite Va, Vb, !Z.mod_small by lia. lia.
Qed.

Lemma logged_values (txHash : bytes) (ds : list bytes) :
  map snd (imap (fun i d => (eventKey txHash (Z.of_nat (S i)), d)) ds) = ds.
Proof.
  change (map snd ?l) with (snd <$> l). rewrite fmap_imap.
  change (fun n => snd ∘ (fun d => (eventKey txHash (Z.of_nat (S n)), d)))
    with (fun (n : nat) (d : bytes) => d).
  induction ds as [|x l IH]; [reflexivity|].
  cbn [imap]. f_equal. rewrite <- IH at 2. apply imap_ext. reflexivity.
Qed.

Lemma Iterator_logged (txHash : bytes) (ds : list bytes) (t : BatchTrie) :
  walked txHash (content t) =
    imap (fun i d => (eventKey txHash (Z.of_nat (S i)), d)) ds ->
  Iterator txHash t =
    match ds with [] => inr ErrKeyNotFound | _ :: _ => inl ds end.
Proof.
  intros Hw. rewrite Iterator_walked, Hw, logged_values.
  now destruct ds.
Qed.

(** [recordEvent] on a block that holds the events [ds] of the
    transaction under the keys 1 to [length ds]. *)
Lemma recordEvent_logged (txHash : bytes) (event : Event) (d : bytes)
    (ds : list bytes) (block : Block) :
  walked txHash (content (eventsTrie block)) =
    imap (fun i d => (eventKey txHash (Z.of_nat (S i)), d)) ds ->
  Z.of_nat (length ds) + 1 < 2 ^ 63 ->
  json_Marshal_event event = inl d ->
  recordEvent txHash event block =
    (with_eventsTrie
       (Put (eventKey txHash (Z.of_nat (S (length ds)))) d (eventsTrie block))
       block, None) /\
  walked txHash
    (<[eventKey txHash (Z.of_nat (S (length ds))) := d]>
       (content (eventsTrie block))) =
    imap (fun i d => (eventKey txHash (Z.of_nat (S i)), d)) (ds ++ [d]).
Proof.
  intros Hw Hlen Hm.
  assert (Hcnt : int64 (Z.of_nat (length ds) + 1) = Z.of_nat (S (length ds))).
  { unfold int64. rewrite Z.mod_small by lia. lia. }
  split.
  - unfold recordEvent. rewrite (Iterator_logged txHash ds _ Hw), Hm.
    destruct ds as [|d0 ds].
    + rewrite decide_True by reflexivity.
      change (int64 (0 + 1)) with (int64 (Z.of_nat (length (@nil bytes)) + 1)).
      rewrite Hcnt. reflexivity.
    + rewrite Hcnt. reflexivity.
  - rewrite walked_insert.
    + rewrite Hw, imap_app. cbn [imap]. now rewrite Nat.add_0_r.
    + destruct (content (eventsTrie block) !! _) as [v|] eqn:E; [|reflexivity].
      exfalso.
      assert (Hin : (eventKey txHash (Z.of_nat (S (length ds))), v) ∈
                    walked txHash (content (eventsTrie block))).
      { apply walked_elem. split; [apply is_prefix_app|exact E]. }
      rewrite Hw in Hin. apply elem_of_lookup_imap in Hin as (i & d' & Heq & Hi).
      injection Heq as Hk _. unfold eventKey in Hk. apply app_inv_head in Hk.
      apply lookup_lt_Some in Hi.
      apply FromInt64_inj_range in Hk; lia.
    + apply is_prefix_app.
    + rewrite Hw. apply Forall_forall. intros x Hx.
      apply elem_of_lookup_imap in Hx as (i & d' & -> & Hi).
      apply lookup_lt_Some in Hi. apply eventKey_le; lia.
Qed.

Lemma decodeEvents_all (ds : list bytes) (events acc : list Event) :
  Forall2 (fun d e => json_Unmarshal_event d = inl e) ds events ->
  decodeEvents ds acc = (acc ++ events, None).
Proof.
  intros Hf. revert acc. induction Hf as [|d e ds events Hd Hf IH]; intros acc; cbn.
  - now rewrite app_nil_r.
  - rewrite Hd, IH. now rewrite <- app_assoc.
Qed.

Lemma FetchEvents_logged (txHash : bytes) (ds : list bytes)
    (events : list Event) (block : Block) :
  walked txHash (content (eventsTrie block)) =
    imap (fun i d => (eventKey txHash (Z.of_nat (S i)), d)) ds ->
  Forall2 (fun d e => json_Unmarshal_event d = inl e) ds events ->
  FetchEvents txHash block = (events, None).
Proof.
  intros Hw Hf. unfold FetchEvents. rewrite (Iterator_logged txHash ds _ Hw).
  destruct ds as [|d0 ds].
  - rewrite decide_True by reflexivity.
    apply Forall2_nil_inv_l in Hf. now subst.
  - apply (decodeEvents_all _ _ [] Hf).
Qed.

Lemma recordAll_logged (txHash : bytes) (events : list Event)
    (ds : list bytes) (block : Block) :
  walked txHash (content (eventsTrie block)) =
    imap (fun i d => (eventKey txHash (Z.of_nat (S i)), d)) ds ->
  Forall (fun e => exists d, json_Marshal_event e = inl d /\
                             json_Unmarshal_event d = inl e) events ->
  Z.of_nat (length ds) + Z.of_nat (length events) < 2 ^ 63 ->
  exists block' ds',
    recordAll txHash events block = (block', None) /\
    walked txHash (content (eventsTrie block')) =
      imap (fun i d => (eventKey txHash (Z.of_nat (S i)), d)) (ds ++ ds') /\
    Forall2 (fun d e => json_Unmarshal_event d = inl e) ds' events /\
    saved (eventsTrie block') = saved (eventsTrie block) /\
    (accState block', txsTrie block', dposCtx block') =
      (accState block, txsTrie block, dposCtx block) /\
    blockShell block' = blockShell block.
Proof.
  intros Hw Hf. revert ds block Hw.
  induction Hf as [|e events (d & Hm & Hu) Hf IH]; intros ds block Hw Hlen.
  - exists block, []. rewrite app_nil_r. cbn. repeat split; auto.
  - cbn [length] in Hlen.
    destruct (recordEvent_logged txHash e d ds block Hw ltac:(lia) Hm) as [R1 R2].
    cbn [recordAll]. rewrite R1.
    set (b1 := with_eventsTrie _ block) in *.
    destruct (IH (ds ++ [d]) b1 R2) as (b' & ds' & I1 & I2 & I3 & I4 & I5 & I6).
    { rewrite length_app. cbn [length]. lia. }
    exists b', (d :: ds'). rewrite I1. split; [reflexivity|].
    split; [now rewrite <- app_assoc in I2|].
    split; [now constructor|].
    split; [exact I4|]. split; [exact I5|exact I6].
Qed.

(** X26.  Events recorded for a transaction come back in the order of
    recording.  On a block whose events trie holds no key that starts with the
    transaction hash, recording fewer than 2^63 events that the event codec
    can encode and decode again returns no error, and [FetchEvents] then
    returns exactly these events, in order.  Only the events trie is written:
    the other overlays, the batch state and the rest of the block are as
    before. *)
Theorem recorded_events_fetched (txHash : bytes) (events : list Event)
    (block : Block) :
  (forall k, is_prefix txHash k = true ->
     content (eventsTrie block) !! k = None) ->
  Forall (fun e => exists d, json_Marshal_event e = inl d /\
                             json_Unmarshal_event d = inl e) events ->
  Z.of_nat (length events) < 2 ^ 63 ->
  FetchEvents txHash block = ([], None) /\
  exists block',
    recordAll txHash events block = (block', None) /\
    FetchEvents txHash block' = (events, None) /\
    saved (eventsTrie block') = saved (eventsTrie block) /\
    (accState block', txsTrie block', dposCtx block') =
      (accState block, txsTrie block, dposCtx block) /\
    blockShell block' = blockShell block.
Proof.
  intros Hfresh Hf Hlen.
  pose proof (walked_empty txHash _ Hfresh) as Hw.
  split; [apply (FetchEvents_logged txHash [] [] block Hw); constructor|].
  destruct (recordAll_logged txHash events [] block Hw Hf)
    as (b' & ds' & I1 & I2 & I3 & I4 & I5 & I6); [cbn [length]; lia|].
  exists b'. split; [exact I1|]. split; [|auto].
  exact (FetchEvents_logged txHash ds' events b' I2 I3).
Qed.

End EventLog.

Section EventScenario.

Import core blockstate blockio sample.

(** Two events recorded for [callTx] on the genesis block. *)
Lemma recorded_events_fetched_witness :
  let events := [callEvent; {| Topic := "chain.contract"; Data := "returned" |}] in
  ((forall k, is_prefix (tx_hash callTx) k = true ->
      content (eventsTrie genesis) !! k = None) /\
   Forall (fun e => exists d, json_Marshal_event e = inl d /\
                              json_Unmarshal_event d = inl e) events /\
   Z.of_nat (length events) < 2 ^ 63) /\
  FetchEvents (tx_hash callTx) genesis = ([], None) /\
  exists block',
    recordAll (tx_hash callTx) events genesis = (block', None) /\
    FetchEvents (tx_hash callTx) block' = (events, None).
Proof.
  cbv zeta.
  assert (G1 : forall k, is_prefix (tx_hash callTx) k = true ->
                 content (eventsTrie genesis) !! k = None).
  { intros k _. apply lookup_empty. }
  assert (G2 : Forall (fun e => exists d, json_Marshal_event e = inl d /\
                                          json_Unmarshal_event d = inl e)
                 [callEvent; {| Topic := "chain.contract"; Data := "returned" |}]).
  { repeat constructor; eexists; (split; [reflexivity|vm_compute; reflexivity]). }
  assert (G3 : Z.of_nat (length [callEvent;
                 {| Topic := "chain.contract"; Data := "returned" |}]) < 2 ^ 63)
    by (cbn; lia).
  split; [auto|].
  destruct (recorded_events_fetched (tx_hash callTx)
              [callEvent; {| Topic := "chain.contract"; Data := "returned" |}]
              genesis G1 G2 G3) as (R1 & b' & R2 & R3 & _).
  split; [exact R1|]. exists b'. auto.
Defined.

End EventScenario.
